(** * BrowsingHistoryEditor: the import, aggregation and anonymisation core

    A shallow embedding of [BrowsingHistory] (src/main.py) and the
    properties its specification states about it.

    Python values are modelled as follows.
    - [str] is a list of Unicode code points ([N]); literals are written
      [lit "..."] and are ASCII.
    - POSIX timestamps, which Python holds as floats with the microsecond
      resolution of [datetime], are integers counting microseconds.
    - A raised exception is a [Raise e] result. *)

From Stdlib Require Import ZArith NArith QArith Qround Lia List Bool Ascii.
From Stdlib Require Import Sorted Permutation Lqa.
From Stdlib Require String.
Import ListNotations.
Import String.StringSyntax.
Delimit Scope string_scope with string.

Local Open Scope Z_scope.

(** ** Strings *)

Definition str := list N.

Definition lit (x : String.string) : str :=
  List.map N_of_ascii (String.list_ascii_of_string x).

Arguments lit x%_string.

Fixpoint str_eqb (a b : str) : bool :=
  match a, b with
  | [], [] => true
  | x :: a', y :: b' => N.eqb x y && str_eqb a' b'
  | _, _ => false
  end.

(** [strip_prefix p u] is [Some r] when [u = p ++ r]. *)
Fixpoint strip_prefix (p u : str) : option str :=
  match p, u with
  | [], _ => Some u
  | x :: p', y :: u' => if N.eqb x y then strip_prefix p' u' else None
  | _ :: _, [] => None
  end.

Fixpoint take_while (f : N -> bool) (u : str) : str :=
  match u with
  | [] => []
  | c :: t => if f c then c :: take_while f t else []
  end.

Fixpoint drop_while (f : N -> bool) (u : str) : str :=
  match u with
  | [] => []
  | c :: t => if f c then drop_while f t else u
  end.

(** [needle in hay] *)
Fixpoint contains (needle hay : str) : bool :=
  match strip_prefix needle hay with
  | Some _ => true
  | None => match hay with
            | [] => false
            | _ :: t => contains needle t
            end
  end.

(** [u[:-5:-1]]: the last four characters (fewer on a short string), last
    first. *)
Definition last4_reversed (u : str) : str := firstn 4 (rev u).

(** [u[:-4]] *)
Definition drop_last4 (u : str) : str := firstn (List.length u - 4) u.

(** [str(n)] for an integer. *)
Fixpoint digits_of_pos (fuel : nat) (n : N) (acc : str) : str :=
  match fuel with
  | O => acc
  | S fuel' =>
      let acc' := (48 + n mod 10)%N :: acc in
      if (n <? 10)%N then acc' else digits_of_pos fuel' (n / 10)%N acc'
  end.

Definition str_of_N (n : N) : str := digits_of_pos (S (N.to_nat (N.log2 n))) n [].

Definition str_of_Z (z : Z) : str :=
  if z <? 0 then 45%N :: str_of_N (Z.to_N (- z)) else str_of_N (Z.to_N z).

(** ** Regular expressions

    The three patterns the properties depend on, each as the matcher of the
    pattern at the head of a suffix; [re_search] tries the suffixes from the
    left, which is where [re.findall] finds its element 0.  The source uses
    [re.findall(p, s)] only through its truth value and [[0]]. *)

Fixpoint re_search (m : str -> option str) (u : str) : option str :=
  match m u with
  | Some a => Some a
  | None => match u with
            | [] => None
            | _ :: t => re_search m t
            end
  end.

Definition in_range (lo hi c : N) : bool := ((lo <=? c) && (c <=? hi))%N.

Definition is_lower (c : N) : bool := in_range 97 122 c.
Definition is_upper (c : N) : bool := in_range 65 90 c.
Definition is_digit (c : N) : bool := in_range 48 57 c.

(** ** Results that may raise *)

Inductive exn :=
| ValueError | OverflowError | ZeroDivisionError | KeyError | IndexError | TypeError
| NameError | DatabaseError | OperationalError | OSError.

Inductive result (A : Type) :=
| Ok (a : A)
| Raise (e : exn).

Arguments Ok {A} a.
Arguments Raise {A} e.

Definition bind {A B} (r : result A) (k : A -> result B) : result B :=
  match r with
  | Ok a => k a
  | Raise e => Raise e
  end.

Notation "x <- r ;; k" := (bind r (fun x => k))
  (at level 61, r at next level, right associativity).

(** ** SHA-256 (hashlib.sha256, FIPS 180-4) on byte strings *)

Module SHA256.
Local Open Scope N_scope.

Definition w32 (x : N) : N := N.land x 4294967295.
Definition add32 (x y : N) : N := w32 (x + y).
Definition rotr (n x : N) : N := N.lor (N.shiftr x n) (w32 (N.shiftl x (32 - n))).

Definition Ch (x y z : N) : N := N.lxor (N.land x y) (N.land (w32 (N.lnot x 32)) z).
Definition Maj (x y z : N) : N := N.lxor (N.lxor (N.land x y) (N.land x z)) (N.land y z).
Definition Sigma0 (x : N) : N := N.lxor (N.lxor (rotr 2 x) (rotr 13 x)) (rotr 22 x).
Definition Sigma1 (x : N) : N := N.lxor (N.lxor (rotr 6 x) (rotr 11 x)) (rotr 25 x).
Definition sigma0 (x : N) : N := N.lxor (N.lxor (rotr 7 x) (rotr 18 x)) (N.shiftr x 3).
Definition sigma1 (x : N) : N := N.lxor (N.lxor (rotr 17 x) (rotr 19 x)) (N.shiftr x 10).

(** The round constants are the first 32 bits of the fractional parts of
    the cube roots of the first 64 primes, the initial state those of the
    square roots of the first 8. *)
Fixpoint is_prime_aux (fuel : nat) (d n : N) : bool :=
  match fuel with
  | O => true
  | S f => if n <? d * d then true
           else if n mod d =? 0 then false
           else is_prime_aux f (d + 1) n
  end.

Definition is_prime (n : N) : bool := (2 <=? n) && is_prime_aux 20 2 n.

Definition primes : list N :=
  Eval vm_compute in List.filter is_prime (List.map N.of_nat (seq 0 312)).

Fixpoint icbrt_aux (bits : nat) (n r : N) : N :=
  match bits with
  | O => r
  | S b => let c := N.lor r (N.shiftl 1 (N.of_nat b)) in
           if c * c * c <=? n then icbrt_aux b n c else icbrt_aux b n r
  end.

Definition icbrt (n : N) : N := icbrt_aux 40 n 0.

Definition K : list N :=
  Eval vm_compute in List.map (fun p => w32 (icbrt (p * 2 ^ 96))) primes.

Definition H0 : list N :=
  Eval vm_compute in List.map (fun p => w32 (N.sqrt (p * 2 ^ 64))) (firstn 8 primes).

Fixpoint be_bytes (n : nat) (x : N) : list N :=
  match n with
  | O => []
  | S n' => N.land (N.shiftr x (8 * N.of_nat n')) 255 :: be_bytes n' x
  end.

Definition pad (msg : list N) : list N :=
  let l := N.of_nat (List.length msg) in
  let z := (119 - l mod 64) mod 64 in
  msg ++ [128] ++ repeat 0 (N.to_nat z) ++ be_bytes 8 (8 * l).

Fixpoint words_of_bytes (fuel : nat) (bs : list N) : list N :=
  match fuel, bs with
  | S f, a :: b :: c :: d :: t =>
      (N.shiftl a 24 + N.shiftl b 16 + N.shiftl c 8 + d) :: words_of_bytes f t
  | _, _ => []
  end.

(** The message schedule, newest word first. *)
Fixpoint schedule (n : nat) (w : list N) : list N :=
  match n with
  | O => w
  | S n' =>
      let x := add32 (add32 (sigma1 (nth 1 w 0)) (nth 6 w 0))
                     (add32 (sigma0 (nth 14 w 0)) (nth 15 w 0)) in
      schedule n' (x :: w)
  end.

Definition state := (N * N * N * N * N * N * N * N)%type.

Definition round (s : state) (kw : N * N) : state :=
  let '(a, b, c, d, e, f, g, h) := s in
  let t1 := add32 (add32 (add32 h (Sigma1 e)) (add32 (Ch e f g) (fst kw))) (snd kw) in
  let t2 := add32 (Sigma0 a) (Maj a b c) in
  (add32 t1 t2, a, b, c, add32 d t1, e, f, g).

Definition compress (s : state) (block : list N) : state :=
  let w := rev (schedule 48 (rev block)) in
  let '(a, b, c, d, e, f, g, h) := fold_left round (combine K w) s in
  let '(a0, b0, c0, d0, e0, f0, g0, h0) := s in
  (add32 a0 a, add32 b0 b, add32 c0 c, add32 d0 d,
   add32 e0 e, add32 f0 f, add32 g0 g, add32 h0 h).

Fixpoint blocks (fuel : nat) (ws : list N) (s : state) : state :=
  match fuel, ws with
  | S f, _ :: _ => blocks f (skipn 16 ws) (compress s (firstn 16 ws))
  | _, _ => s
  end.

Definition init : state :=
  (nth 0 H0 0, nth 1 H0 0, nth 2 H0 0, nth 3 H0 0,
   nth 4 H0 0, nth 5 H0 0, nth 6 H0 0, nth 7 H0 0).

Definition hex_digit (d : N) : N := if d <? 10 then 48 + d else 87 + d.

(** ['%0nx' % x] *)
Fixpoint hex (n : nat) (x : N) : str :=
  match n with
  | O => []
  | S n' => hex_digit (N.land (N.shiftr x (4 * N.of_nat n')) 15) :: hex n' x
  end.

Definition hexdigest (msg : list N) : str :=
  let p := pad msg in
  let ws := words_of_bytes (List.length p) p in
  let '(a, b, c, d, e, f, g, h) := blocks (List.length ws) ws init in
  hex 8 a ++ hex 8 b ++ hex 8 c ++ hex 8 d ++ hex 8 e ++ hex 8 f ++ hex 8 g ++ hex 8 h.

End SHA256.

(** [s.encode()]: UTF-8.  (Lone surrogates, which Python refuses to encode,
    do not occur in a domain or a salt.) *)
Definition utf8_char (c : N) : list N :=
  (if c <? 128 then [c]
   else if c <? 2048 then [192 + c / 64; 128 + c mod 64]
   else if c <? 65536 then [224 + c / 4096; 128 + (c / 64) mod 64; 128 + c mod 64]
   else [240 + c / 262144; 128 + (c / 4096) mod 64; 128 + (c / 64) mod 64; 128 + c mod 64])%N.

Definition encode (u : str) : list N := flat_map utf8_char u.

Section Host.

Set Default Proof Using "Type".

(** Python's [\w] on a [str] pattern: ASCII letters, digits and the
    underscore, and beyond ASCII whatever the Unicode database calls
    alphanumeric, which stays a parameter. *)
Variable unicode_word : N -> bool.

(** The host's local time zone, as the offset from UTC in force at the
    instant that is converted, in seconds east.  (How the zone rules
    change the offset with the date is [offset_at], further down, which
    the functions that go from one date to another are modelled with.) *)
Variable utcoffset : Z.

(** [os.urandom(16)]: the [k]-th draw of sixteen random bytes, as a
    number. *)
Variable urandom : nat -> N.

Definition is_word (c : N) : bool :=
  if (c <? 128)%N
  then is_lower c || is_upper c || is_digit c || N.eqb c 95
  else unicode_word c.

(** [[a-z0-9\.\-\:]] *)
Definition host_char (c : N) : bool :=
  is_lower c || is_digit c || N.eqb c 46 || N.eqb c 45 || N.eqb c 58.

(** [(?<=\:\/\/)[a-z0-9\.\-\:]+] at the head of [u]: the lookbehind is
    read as the three characters in front of the match. *)
Definition url_pattern (u : str) : option str :=
  match strip_prefix (lit "://") u with
  | Some r => match take_while host_char r with
              | [] => None
              | m => Some m
              end
  | None => None
  end.

(** [anonymisiert-[\w]+\-[\w]+].  The hyphen is no word character, so the
    greedy first group never gives a character back. *)
Definition anonym_pattern (u : str) : option str :=
  match strip_prefix (lit "anonymisiert-") u with
  | Some r =>
      match take_while is_word r, strip_prefix (lit "-") (drop_while is_word r) with
      | c :: w1, Some r2 =>
          match take_while is_word r2 with
          | [] => None
          | w2 => Some (lit "anonymisiert-" ++ (c :: w1) ++ lit "-" ++ w2)
          end
      | _, _ => None
      end
  | None => None
  end.

(** [[\w:\_\-/.]] *)
Definition webcache_char (c : N) : bool :=
  is_word c || N.eqb c 58 || N.eqb c 95 || N.eqb c 45 || N.eqb c 47 || N.eqb c 46.

(** [(?<=@)http[\w:\_\-/.]+] *)
Definition webcache_pattern (u : str) : option str :=
  match strip_prefix (lit "@http") u with
  | Some r => match take_while webcache_char r with
              | [] => None
              | m => Some (lit "http" ++ m)
              end
  | None => None
  end.

(** ** [_is_url] and [_stem_url] *)

(** [_is_url(url, r=True)]: the first match, or [None] for Python's
    [False]. *)
Definition _is_url_r (url : str) : option str := re_search url_pattern url.

(** [_is_url(url)] *)
Definition _is_url (url : str) : bool :=
  match _is_url_r url with
  | Some _ => true
  | None => false
  end.

Definition _stem_url (url : str) : str :=
  match _is_url_r url with
  | Some stemmed_url =>
      if str_eqb (firstn 4 stemmed_url) (lit "www.")
      then skipn 4 stemmed_url
      else stemmed_url
  | None =>
      match re_search anonym_pattern url with
      | Some m => m
      | None =>
          if str_eqb (last4_reversed url) (lit "***/")
          then drop_last4 url
          else url
      end
  end.

(** ** [datetime]

    A naive [datetime] is the count of microseconds on its own calendar
    since the midnight that starts ordinal day 0 (0001-01-01 is ordinal
    1, as in [datetime.toordinal]). *)

Definition is_leap (y : Z) : bool :=
  (y mod 4 =? 0) && (negb (y mod 100 =? 0) || (y mod 400 =? 0)).

Definition _days_before_year (y : Z) : Z :=
  let y' := y - 1 in y' * 365 + y' / 4 - y' / 100 + y' / 400.

Definition _days_in_month (y m : Z) : Z :=
  if m =? 2 then (if is_leap y then 29 else 28)
  else if (m =? 4) || (m =? 6) || (m =? 9) || (m =? 11) then 30 else 31.

Definition _days_before_month (y m : Z) : Z :=
  fold_left (fun acc k => acc + _days_in_month y (Z.of_nat k)) (seq 1 (Z.to_nat (m - 1))) 0.

Definition _ymd2ord (y m d : Z) : Z :=
  _days_before_year y + _days_before_month y m + d.

Definition us_per_second : Z := 1000000.
Definition us_per_day : Z := 86400 * us_per_second.

Definition datetime := Z.
Definition timedelta := Z.

(** [datetime(y, m, d)] *)
Definition datetime_ymd (y m d : Z) : datetime := _ymd2ord y m d * us_per_day.

(** [datetime.min], and the first instant past [datetime.max]
    (9999-12-31 is ordinal 3652059). *)
Definition datetime_min : datetime := datetime_ymd 1 1 1.
Definition datetime_end : datetime := (3652059 + 1) * us_per_day.

Definition in_datetime_range (d : datetime) : bool :=
  (datetime_min <=? d) && (d <? datetime_end).

(** [round()] as [timedelta] and [fromtimestamp] apply it to a count of
    microseconds: to the nearest integer, a tie going to the even one.
    Float arithmetic is read as exact arithmetic on rationals. *)
Definition round_half_even (q : Q) : Z :=
  let f := Qfloor q in
  match Qcompare (q - inject_Z f) (1 # 2) with
  | Lt => f
  | Gt => f + 1
  | Eq => if Z.even f then f else f + 1
  end.

Definition mk_timedelta (us : Z) : result timedelta :=
  if Z.abs (us / us_per_day) <=? 999999999 then Ok us else Raise OverflowError.

(** [timedelta(microseconds=x)] and [timedelta(seconds=x)] *)
Definition timedelta_microseconds (x : Q) : result timedelta :=
  mk_timedelta (round_half_even x).

Definition timedelta_seconds (x : Q) : result timedelta :=
  mk_timedelta (round_half_even (x * inject_Z us_per_second)).

(** [d + td] *)
Definition datetime_add (d : datetime) (td : timedelta) : result datetime :=
  if in_datetime_range (d + td) then Ok (d + td) else Raise OverflowError.

(** [datetime.fromtimestamp(t)]: the local wall-clock time of the POSIX
    instant [t] seconds. *)
Definition fromtimestamp (t : Q) : result datetime :=
  let d := datetime_ymd 1970 1 1
           + round_half_even (t * inject_Z us_per_second)
           + utcoffset * us_per_second in
  if in_datetime_range d then Ok d else Raise ValueError.

(** [d.timestamp()] on a naive [d]: it is taken for local time.  The
    result counts microseconds.  (The limits of the platform's time
    functions, narrower than those of [datetime] on some hosts, are left
    out.) *)
Definition timestamp_of (d : datetime) : Z :=
  d - datetime_ymd 1970 1 1 - utcoffset * us_per_second.

Inductive browser := Chrome | IE11 | Safari | Firefox | OtherBrowser.

(** [_convert_timestamp(timestamp, browser_name, tz)].  The body never
    reads [tz]. *)
Definition _convert_timestamp (timestamp : Q) (browser_name : browser) (tz : str)
  : result Z :=
  date <- match browser_name with
          | Chrome =>
              td <- timedelta_microseconds timestamp ;;
              datetime_add (datetime_ymd 1601 1 1) td
          | IE11 =>
              td <- timedelta_microseconds (timestamp * (1 # 10)) ;;
              datetime_add (datetime_ymd 1601 1 1) td
          | Safari =>
              td <- timedelta_seconds timestamp ;;
              datetime_add (datetime_ymd 2001 1 1) td
          | Firefox => fromtimestamp (timestamp / 1000000)
          | OtherBrowser => fromtimestamp timestamp
          end ;;
  Ok (timestamp_of date).

(** ** [_hash_domain] *)

(** [uuid.uuid4().hex] from the [k]-th draw: the variant and version bits
    are forced, the rest is random. *)
Definition uuid4_int (r : N) : N :=
  let r := (r mod 2 ^ 128)%N in
  let r := N.ldiff r (N.shiftl 49152 48) in
  let r := N.lor r (N.shiftl 32768 48) in
  let r := N.ldiff r (N.shiftl 61440 64) in
  N.lor r (N.shiftl 4 76).

Definition uuid4_hex (k : nat) : str := SHA256.hex 32 (uuid4_int (urandom k)).

(** [_hash_domain(domain)], from the state [k] of the random source to
    the token and the next state. *)
Definition _hash_domain (k : nat) (domain : str) : str * nat :=
  let salt := uuid4_hex k in
  (SHA256.hexdigest (encode salt ++ encode domain) ++ lit "-" ++ salt, S k).

(** ** The canonical store *)

(** Modelled from the spec: the canonical schema (data/schema.sql is not
    in the sources): the two tables with the columns the queries of
    src/main.py name, [id] the primary key of each. *)
Record url_row := {
  u_id : Z;
  u_url : str;
  u_title : option str;
  u_rev_host : option str;
  u_visit_count : Z;
  u_typed : Z;
  u_last_visit_date : option Z;
  u_redirect_urls : option str
}.

Record visit_row := {
  v_id : Z;
  v_url_id : Z;
  v_visit_date : Z;
  v_visit_type : option Z;
  v_referrer : option Z
}.

Record store := {
  tbl_urls : list url_row;
  tbl_visits : list visit_row
}.

Definition empty_store : store := {| tbl_urls := []; tbl_visits := [] |}.

(** A row as an [INSERT] statement gives it: the key is [None] when the
    statement names no [id] column, and the engine then assigns the next
    row id. *)
Definition next_rowid (ids : list Z) : Z :=
  match ids with
  | [] => 1
  | i :: t => fold_left Z.max t i + 1
  end.

Definition set_u_id (r : url_row) (i : Z) : url_row :=
  {| u_id := i; u_url := u_url r; u_title := u_title r; u_rev_host := u_rev_host r;
     u_visit_count := u_visit_count r; u_typed := u_typed r;
     u_last_visit_date := u_last_visit_date r; u_redirect_urls := u_redirect_urls r |}.

Definition set_v_id (r : visit_row) (i : Z) : visit_row :=
  {| v_id := i; v_url_id := v_url_id r; v_visit_date := v_visit_date r;
     v_visit_type := v_visit_type r; v_referrer := v_referrer r |}.

Definition has_key {A} (key : A -> Z) (k : Z) (tbl : list A) : bool :=
  existsb (fun r => key r =? k) tbl.

(** [INSERT OR IGNORE INTO t (...) VALUES (...)] of one row. *)
Definition insert_or_ignore {A} (key : A -> Z) (set_key : A -> Z -> A)
    (tbl : list A) (ins : option Z * A) : list A :=
  match fst ins with
  | Some k => if has_key key k tbl then tbl else tbl ++ [set_key (snd ins) k]
  | None => tbl ++ [set_key (snd ins) (next_rowid (List.map key tbl))]
  end.

(** [cursor.executemany(query, rows)] *)
Definition executemany {A} (key : A -> Z) (set_key : A -> Z -> A)
    (tbl : list A) (rows : list (option Z * A)) : list A :=
  fold_left (insert_or_ignore key set_key) rows tbl.

(** ** The sources *)

(** A number as SQLite holds it. *)
Inductive sqlnum :=
| SInt (z : Z)
| SReal (q : Q).

Definition sql_to_Q (a : sqlnum) : Q :=
  match a with
  | SInt z => inject_Z z
  | SReal q => q
  end.

(** [a / b], [a - b] and [a + b] for an integer literal [b]: division of
    two integers truncates. *)
Definition sql_div (a : sqlnum) (b : Z) : sqlnum :=
  match a with
  | SInt z => SInt (Z.quot z b)
  | SReal q => SReal (q / inject_Z b)
  end.

Definition sql_add (a : sqlnum) (b : Z) : sqlnum :=
  match a with
  | SInt z => SInt (z + b)
  | SReal q => SReal (q + inject_Z b)
  end.

(** [a >= m] for the cutoff [m], a POSIX timestamp in microseconds that
    the query text carries in seconds. *)
Definition sql_ge (a : sqlnum) (m : Z) : bool :=
  Qle_bool (m # 1000000) (sql_to_Q a).

(** The URL and visit tables of a relational source (Chrome's [urls] and
    [visits], Firefox's [moz_places] and [moz_historyvisits], Safari's
    [history_items] and [history_visits]). *)
Record src_url := {
  su_id : Z;
  su_url : str;
  su_title : option str;
  su_rev_host : option str;
  su_visit_count : Z;
  su_typed : Z;
  su_last_visit : option sqlnum
}.

Record src_visit := {
  sv_id : Z;
  sv_url : Z;
  sv_time : sqlnum;
  sv_type : option Z;
  sv_from : option Z
}.

(** An entry of [WebHistoryDates] in History.plist. *)
Record plist_item := {
  pi_url : str;
  pi_lastVisitedDate : Q;
  pi_title : str;
  pi_visitCount : Z;
  pi_redirectURLs : option (list str)
}.

(** A record of a [Container_n] table of WebCacheV01.dat (columns 0, 8,
    13, 17 and 22), and a row of [Containers] (columns 0 and 8) with the
    table it names. *)
Record ese_record := {
  r_entry_id : Z;
  r_access_count : Z;
  r_timestamp : Z;
  r_url : str;
  r_redirect : option str
}.

Record container := {
  c_id : Z;
  c_name : str;
  c_records : list ese_record
}.

Inductive source :=
| SqliteFile (file_name : str) (src_urls : list src_url) (src_visits : list src_visit)
| PlistFile (items : list plist_item)
| EseFile (containers : list container).

(** The tuples the two extractors of src/main.py build. *)
Definition plist_url_tuple := (Z * Z * option str * str * str * Z)%type.
Definition plist_visit_tuple := (Z * Z)%type.
Definition ese_url_tuple := (Z * option str * Z * str)%type.
Definition ese_visit_tuple := (Z * Z * Z)%type.

(** Modelled from the spec: BrowserSpec (data/<browser>.json is not in
    the sources), the column map of each record stream into the canonical
    columns; [fst] of a mapped row is the value it gives the [id] column,
    if the map names that column. *)
Record BrowserSpec := {
  cols_urls_sql : src_url -> src_visit -> option Z * url_row;
  cols_visits_sql : src_visit -> option Z * visit_row;
  cols_urls_plist : plist_url_tuple -> option Z * url_row;
  cols_visits_plist : plist_visit_tuple -> option Z * visit_row;
  cols_urls_ese : ese_url_tuple -> option Z * url_row;
  cols_visits_ese : ese_visit_tuple -> option Z * visit_row
}.

(** The session object, [self]. *)
Record BrowsingHistory := {
  _browser_name : browser;
  _browser_specs : BrowserSpec;
  _min_date : Z;
  _domains : option (list (str * (list Z * Z)));
  _keywords : option (list (str * list Z))
}.

(** ** [_extract_history_plist] *)

Fixpoint join (sep : str) (l : list str) : str :=
  match l with
  | [] => []
  | [a] => a
  | a :: t => a ++ sep ++ join sep t
  end.

(** One turn of the loop; [g] is the value the id generator yields
    next. *)
Definition plist_step (self : BrowsingHistory)
    (st : Z * list plist_url_tuple * list plist_visit_tuple) (item : plist_item)
  : result (Z * list plist_url_tuple * list plist_visit_tuple) :=
  let '(g, urls, visits) := st in
  date <- _convert_timestamp (pi_lastVisitedDate item) (_browser_name self) (lit "utc") ;;
  if _is_url (pi_url item) && (_min_date self <=? date) then
    let last_visit_date := date in
    let visit_date := last_visit_date in
    let redirect_urls := option_map (join (lit " ")) (pi_redirectURLs item) in
    let url_id := g in
    let _id := url_id in
    Ok (g + 1,
        urls ++ [(_id, last_visit_date, redirect_urls, pi_title item, pi_url item,
                  pi_visitCount item)],
        visits ++ [(url_id, visit_date)])
  else Ok st.

Fixpoint foldM {S A} (f : S -> A -> result S) (l : list A) (s : S) : result S :=
  match l with
  | [] => Ok s
  | a :: t => s' <- f s a ;; foldM f t s'
  end.

Definition _extract_history_plist (self : BrowsingHistory) (pl : list plist_item)
  : result (list plist_url_tuple * list plist_visit_tuple) :=
  st <- foldM (plist_step self) pl (1, [], []) ;;
  Ok (snd (fst st), snd st).

(** ** [_extract_webcachev01_dat]

    The part that reads the opened table store; staging the file through
    a shadow copy is outside the model. *)

Record ese_entry := {
  unique_id : Z;
  access_count : Z;
  redirect_urls : option str
}.

(** The dict [urls], in insertion order. *)
Definition url_dict := list (str * ese_entry).

Fixpoint dict_get {V} (k : str) (d : list (str * V)) : option V :=
  match d with
  | [] => None
  | (k', v) :: t => if str_eqb k' k then Some v else dict_get k t
  end.

(** [d[k] = f(d[k])] on a key that is present. *)
Fixpoint dict_update {V} (k : str) (f : V -> V) (d : list (str * V)) : list (str * V) :=
  match d with
  | [] => []
  | (k', v) :: t => if str_eqb k' k then (k', f v) :: t else (k', v) :: dict_update k f t
  end.

(** [int(str(a) + str(b))] for [b] not negative. *)
Definition int_concat (a b : Z) : Z :=
  let shift := 10 ^ Z.of_nat (List.length (str_of_Z b)) in
  if a <? 0 then a * shift - b else a * shift + b.

Definition ese_state := (Z * url_dict * list ese_visit_tuple)%type.

Definition ese_step (self : BrowsingHistory) (container_id : Z)
    (st : ese_state) (rec : ese_record) : result ese_state :=
  let '(g, urls, visits) := st in
  date <- _convert_timestamp (inject_Z (r_timestamp rec)) (_browser_name self) (lit "utc") ;;
  match re_search webcache_pattern (r_url rec) with
  | Some url =>
      if _min_date self <=? date then
        match dict_get url urls with
        | None =>
            let unique_id := g in
            let accessed_time := date in
            let unique_entry_id := int_concat container_id unique_id in
            Ok (g + 1,
                urls ++ [(url, {| unique_id := unique_id;
                                  access_count := r_access_count rec;
                                  redirect_urls := r_redirect rec |})],
                visits ++ [(accessed_time, unique_entry_id, unique_id)])
        | Some _ =>
            let access_count' := r_access_count rec in
            if 0 <? access_count' then
              Ok (g,
                  dict_update url
                    (fun e => {| unique_id := unique_id e;
                                 access_count := access_count e + access_count';
                                 redirect_urls := redirect_urls e |}) urls,
                  visits)
            else Ok st
        end
      else Ok st
  | None => Ok st
  end.

Definition ese_container_step (self : BrowsingHistory)
    (st : ese_state) (c : container) : result ese_state :=
  if str_eqb (c_name c) (lit "History")
  then foldM (ese_step self (c_id c)) (c_records c) st
  else Ok st.

Definition _extract_webcachev01_dat (self : BrowsingHistory) (containers : list container)
  : result (list ese_url_tuple * list ese_visit_tuple) :=
  st <- foldM (ese_container_step self) containers (1, [], []) ;;
  let '(_, urls, visits) := st in
  Ok (List.map (fun kv => (access_count (snd kv), redirect_urls (snd kv),
                           unique_id (snd kv), fst kv)) urls,
      visits).

(** ** [_import_data] *)

Inductive content :=
| Sqlite (src_urls : list src_url) (src_visits : list src_visit)
| Plist (items : list plist_item)
| Ese (containers : list container).

Record file := {
  file_name : str;
  file_content : content
}.

Definition starts_with (p u : str) : bool :=
  match strip_prefix p u with
  | Some _ => true
  | None => false
  end.

(** [u.endswith(suffix)] *)
Definition ends_with (suffix u : str) : bool := starts_with (rev suffix) (rev u).

(** [_regexp(p, s)] for [p] the pattern [^] followed by the literal
    [prefix]: [re.match] looks at the start of [s] only. *)
Definition _regexp (prefix s : str) : bool := starts_with prefix s.

(** The cutoff clause of the two queries, by browser. *)
Definition cutoff_clause (b : browser) (t : sqlnum) (min_date : Z) : result bool :=
  match b with
  | Chrome => Ok (sql_ge (sql_add (sql_div t 1000000) (-11644473600)) min_date)
  | Firefox => Ok (sql_ge (sql_div t 1000000) min_date)
  | Safari => Ok (sql_ge (sql_add t 978307200) min_date)
  | _ => Raise ValueError
  end.

Definition file_clause (b : browser) (url : str) : bool :=
  match b with
  | Firefox => _regexp (lit "file:///") url
  | _ => _regexp (lit "file:") url
  end.

Fixpoint filterM {A} (f : A -> result bool) (l : list A) : result (list A) :=
  match l with
  | [] => Ok []
  | a :: t => b <- f a ;; r <- filterM f t ;; Ok (if b then a :: r else r)
  end.

(** [SELECT ... FROM visits WHERE <cutoff>] *)
Definition query_visits (self : BrowsingHistory) (vs : list src_visit)
  : result (list src_visit) :=
  filterM (fun v => cutoff_clause (_browser_name self) (sv_time v) (_min_date self)) vs.

(** [SELECT ... FROM urls, visits WHERE urls.id = visits.url AND <cutoff>
    AND NOT REGEXP('^file:', urls.url)].  The rows of a join come in the
    engine's order: SQLite walks the visits and looks the URL row of
    each up by its key, so they come visit by visit. *)
Definition query_urls (self : BrowsingHistory) (us : list src_url) (vs : list src_visit)
  : result (list (src_url * src_visit)) :=
  recent <- query_visits self vs ;;
  Ok (flat_map
        (fun v =>
           List.map (fun u => (u, v))
             (filter (fun u => (su_id u =? sv_url v)
                               && negb (file_clause (_browser_name self) (su_url u)))
                us))
        recent).

(** The two record streams of a source, mapped to canonical columns. *)
Definition extract (self : BrowsingHistory) (f : file)
  : result (list (option Z * url_row) * list (option Z * visit_row)) :=
  let spec := _browser_specs self in
  let relational :=
    match file_content f with
    | Sqlite us vs =>
        ru <- query_urls self us vs ;;
        rv <- query_visits self vs ;;
        Ok (List.map (fun p => cols_urls_sql spec (fst p) (snd p)) ru,
            List.map (cols_visits_sql spec) rv)
    | _ => Raise DatabaseError
    end in
  match _browser_name self with
  | Safari =>
      if str_eqb (file_name f) (lit "History.db") then relational
      else match file_content f with
           | Plist items =>
               r <- _extract_history_plist self items ;;
               Ok (List.map (cols_urls_plist spec) (fst r),
                   List.map (cols_visits_plist spec) (snd r))
           | _ => Raise ValueError
           end
  | IE11 =>
      match file_content f with
      | Ese cs =>
          r <- _extract_webcachev01_dat self cs ;;
          Ok (List.map (cols_urls_ese spec) (fst r),
              List.map (cols_visits_ese spec) (snd r))
      | _ => Raise OSError
      end
  | Chrome | Firefox => relational
  | OtherBrowser => Raise NameError
  end.

(** [_import_data(file_path)] on the store [db]; [None] is a path that
    [_build_path] did not find. *)
Definition _import_data (self : BrowsingHistory) (db : store) (file_path : option file)
  : result (bool * store) :=
  match file_path with
  | None => Ok (false, db)
  | Some f =>
      r <- extract self f ;;
      Ok (true,
          {| tbl_urls := executemany u_id set_u_id (tbl_urls db) (fst r);
             tbl_visits := executemany v_id set_v_id (tbl_visits db) (snd r) |})
  end.

(** ** [visits] *)

(** [visit_date >= t AND visit_date < tk], when a date is given; [date]
    holds the two bounds on the scale of the stored dates. *)
Definition in_date (date : option (Z * Z)) (v : visit_row) : bool :=
  match date with
  | Some (t, tk) => (t <=? v_visit_date v) && (v_visit_date v <? tk)
  | None => true
  end.

(** The visits that the join [urls.id = visits.url_id] gives the URL row
    [u], with the date clauses. *)
Definition joined_visits (db : store) (date : option (Z * Z)) (u : url_row)
  : list visit_row :=
  filter (fun v => (u_id u =? v_url_id v) && in_date date v) (tbl_visits db).

Definition url_query_row (u : url_row) : str * Z * Z := (u_url u, u_visit_count u, u_id u).

(** [SELECT url, visit_count, urls.id FROM urls, visits WHERE urls.id =
    visits.url_id], with the date clauses when a date is given.  The
    rows of a join come in the engine's order: SQLite walks the table
    [visits] and looks the URL row of each visit up by its key, so the
    rows come visit by visit. *)
Definition visits_query (db : store) (date : option (Z * Z)) : list (str * Z * Z) :=
  flat_map
    (fun v => List.map url_query_row (filter (fun u => u_id u =? v_url_id v) (tbl_urls db)))
    (filter (in_date date) (tbl_visits db)).

Definition mem (x : Z) (l : list Z) : bool := existsb (Z.eqb x) l.

(** One turn of the loop over the rows; the state is the dict [d] and the
    set [unique_id]. *)
Definition visits_step (st : list (str * Z) * list Z) (visit : str * Z * Z)
  : list (str * Z) * list Z :=
  let '(d, seen) := st in
  let domain := _stem_url (fst (fst visit)) in
  let count := snd (fst visit) in
  let d := match dict_get domain d with
           | None => d ++ [(domain, 0)]
           | Some _ => d
           end in
  if mem (snd visit) seen then (d, seen)
  else (dict_update domain (fun c => c + count) d, snd visit :: seen).

Definition visit_totals (rows : list (str * Z * Z)) : list (str * Z) :=
  fst (fold_left visits_step rows ([], [])).

(** The rows that carry a URL identifier for the first time: the ones
    whose count the loop adds. *)
Fixpoint first_sightings (seen : list Z) (rows : list (str * Z * Z)) : list (str * Z * Z) :=
  match rows with
  | [] => []
  | r :: t => if mem (snd r) seen then first_sightings seen t
              else r :: first_sightings (snd r :: seen) t
  end.

(** [sorted(l, key=...)] with the order [le] on the items: stable. *)
Fixpoint insert_sorted {A} (le : A -> A -> bool) (x : A) (l : list A) : list A :=
  match l with
  | [] => [x]
  | y :: t => if le x y then x :: l else y :: insert_sorted le x t
  end.

Definition sorted {A} (le : A -> A -> bool) (l : list A) : list A :=
  fold_right (insert_sorted le) [] l.

(** [l[k:]] and [l[:k]] *)
Definition slice_from {A} (k : Z) (l : list A) : list A :=
  if k <? 0 then skipn (Z.to_nat (Z.of_nat (List.length l) + k)) l
  else skipn (Z.to_nat k) l.

Definition slice_to {A} (k : Z) (l : list A) : list A :=
  if k <? 0 then firstn (Z.to_nat (Z.of_nat (List.length l) + k)) l
  else firstn (Z.to_nat k) l.

Definition sum (l : list Z) : Z := fold_left Z.add l 0.

(** [v / total_n] *)
Definition truediv (v total_n : Z) : result Q :=
  if total_n =? 0 then Raise ZeroDivisionError else Ok (inject_Z v / inject_Z total_n)%Q.

(** [round(x, 2)] *)
Definition round2 (x : Q) : Q := round_half_even (x * 100)%Q # 100.

Fixpoint mapM {A B} (f : A -> result B) (l : list A) : result (list B) :=
  match l with
  | [] => Ok []
  | a :: t => b <- f a ;; r <- mapM f t ;; Ok (b :: r)
  end.

(** [visits(date, n, ascending, plot=False)] *)
Definition visits (db : store) (date : option (Z * Z)) (n : option Z) (ascending : bool)
  : result (list (str * Z)) :=
  let d := visit_totals (visits_query db date) in
  let total_n := sum (List.map snd d) in
  let n := match n with
           | None => total_n
           | Some n => n
           end in
  let by_count := sorted (fun a b : str * Z => snd a <=? snd b) d in
  let od := if ascending then slice_to n by_count else slice_from (- n) by_count in
  perc <- mapM (fun v => q <- truediv v total_n ;; Ok (round2 (q * 100)%Q)) (List.map snd od) ;;
  Ok od.

(** ** [select_domains], without a search term *)

Fixpoint str_leb (a b : str) : bool :=
  match a, b with
  | [], _ => true
  | _ :: _, [] => false
  | x :: a', y :: b' => if (x <? y)%N then true else if (y <? x)%N then false else str_leb a' b'
  end.

Definition select_step (stem_urls : bool) (d : list (str * (list Z * Z)))
    (visit : Z * str * Z) : list (str * (list Z * Z)) :=
  let domain := if stem_urls then _stem_url (snd (fst visit)) else snd (fst visit) in
  let count := snd visit in
  let d := match dict_get domain d with
           | Some _ => dict_update domain (fun e => (fst e ++ [fst (fst visit)], snd e)) d
           | None => d ++ [(domain, ([fst (fst visit)], 0))]
           end in
  dict_update domain (fun e => (fst e, snd e + count)) d.

Inductive sort_key := by_domains | by_frequency.

Definition select_domains (db : store) (sort_by : sort_key) (stem_urls : bool)
  : list (str * (list Z * Z)) :=
  let rows := List.map (fun u => (u_id u, u_url u, u_visit_count u)) (tbl_urls db) in
  let d := fold_left (select_step stem_urls) rows [] in
  match sort_by with
  | by_domains => sorted (fun a b => str_leb (fst a) (fst b)) d
  | by_frequency => sorted (fun a b => snd (snd b) <=? snd (snd a)) d
  end.

(** ** [_update_db] *)

Inductive pyval :=
| PyStr (s : str)
| PyList (l : list Z)
| PyInt (n : Z)
| PyNone.

Inductive kind := Kdomains | Kkeywords | Kurls | Kother.

(** [re.sub(pat, unique_id, url)] for the search-term pattern of the
    [keywords] policy; no property below depends on it. *)
Variable re_sub_keywords : str -> str -> str.

(** [d[k]['ids']] on a dict that may still be [None]. *)
Definition ids_of {V} (ids : V -> list Z) (d : option (list (str * V))) (k : str)
  : result (list Z) :=
  match d with
  | None => Raise TypeError
  | Some d => match dict_get k d with
              | Some v => Ok (ids v)
              | None => Raise KeyError
              end
  end.

(** [SELECT url, rev_host FROM urls WHERE id = ?] *)
Definition select_url (db : store) (i : Z) : list (str * option str) :=
  List.map (fun r => (u_url r, u_rev_host r)) (filter (fun r => u_id r =? i) (tbl_urls db)).

(** [UPDATE urls SET ... WHERE id = ?] *)
Definition update_urls (db : store) (i : Z) (f : url_row -> url_row) : store :=
  {| tbl_urls := List.map (fun r => if u_id r =? i then f r else r) (tbl_urls db);
     tbl_visits := tbl_visits db |}.

Definition stars : str := lit "***".

Definition set_keywords (new_entry : str) (r : url_row) : url_row :=
  {| u_id := u_id r; u_url := new_entry; u_title := Some stars;
     u_rev_host := u_rev_host r; u_visit_count := u_visit_count r; u_typed := u_typed r;
     u_last_visit_date := u_last_visit_date r; u_redirect_urls := u_redirect_urls r |}.

Definition set_urls (domain : str) (r : url_row) : url_row :=
  {| u_id := u_id r; u_url := domain; u_title := Some stars;
     u_rev_host := u_rev_host r; u_visit_count := u_visit_count r; u_typed := u_typed r;
     u_last_visit_date := u_last_visit_date r; u_redirect_urls := Some stars |}.

Definition set_domains (unique_id : str) (r : url_row) : url_row :=
  {| u_id := u_id r; u_url := unique_id; u_title := Some stars;
     u_rev_host := Some stars; u_visit_count := u_visit_count r; u_typed := u_typed r;
     u_last_visit_date := u_last_visit_date r; u_redirect_urls := Some stars |}.

(** ['{0}-{1}-{2}'.format('anonymisiert', hashed_url, i)] *)
Definition anonym_id (hashed_url : str) (i : Z) : str :=
  lit "anonymisiert" ++ lit "-" ++ hashed_url ++ lit "-" ++ str_of_Z i.

(** The loop over the ids.  Every update is committed at once, so an
    exception leaves the store as the turns before it made it. *)
Fixpoint update_loop (kind : kind) (ids : list Z) (db : store) (k : nat)
  : store * nat * option exn :=
  match ids with
  | [] => (db, k, None)
  | i :: rest =>
      match select_url db i with
      | [] => (db, k, Some IndexError)
      | (entry_url, _) :: _ =>
          match _is_url_r entry_url with
          | Some url =>
              let (hashed_url, k') := _hash_domain k url in
              let unique_id := anonym_id hashed_url i in
              match kind with
              | Kkeywords =>
                  let new_entry := re_sub_keywords unique_id entry_url in
                  update_loop kind rest (update_urls db i (set_keywords new_entry)) k'
              | Kurls =>
                  let domain := _stem_url entry_url ++ lit "/" ++ stars in
                  update_loop kind rest (update_urls db i (set_urls domain)) k'
              | Kdomains =>
                  update_loop kind rest (update_urls db i (set_domains unique_id)) k'
              | Kother => (db, k', Some ValueError)
              end
          | None => update_loop kind rest db k
          end
      end
  end.

(** [_update_db(x, kind)] on the database that [sqlite3.connect] has
    opened (lines 479 to 509), from the store and the state of the random
    source to what they are when the suite ends, and the exception it
    ends with, if any.  The method with its connection and its [finally]
    suite is [_update_db_call] below. *)
Definition _update_db (self : BrowsingHistory) (db : store) (k : nat)
    (x : pyval) (kind : kind) : store * nat * option exn :=
  let _ids :=
    match x with
    | PyStr s =>
        match kind with
        | Kkeywords => ids_of (fun v => v) (_keywords self) s
        | _ => ids_of fst (_domains self) s
        end
    | PyList l =>
        match kind with
        | Kurls => Ok l
        | _ => Raise ValueError
        end
    | _ => Raise ValueError
    end in
  match _ids with
  | Raise e => (db, k, Some e)
  | Ok ids => update_loop kind ids db k
  end.

(** ** [_copy_webcachev01_dat]

    Statements that may end by falling through, by [return] or by an
    exception, over the state of the shadow-copy service; [try] with
    [except BaseException] and with [finally] as Python runs them: the
    [finally] suite runs whatever the [try] part did, and when it ends by
    [return] or by an exception of its own, that replaces the pending
    result. *)

Inductive completion (A : Type) :=
| Normal
| Return (a : A)
| Throw (e : exn).

#[global] Arguments Normal {A}.
#[global] Arguments Return {A} a.
#[global] Arguments Throw {A} e.

(** A statement over a state [W]. *)
Definition stmt (W A : Type) := W -> completion A * W.

Definition then_ {W A} (s1 s2 : stmt W A) : stmt W A :=
  fun w => match s1 w with
           | (Normal, w') => s2 w'
           | stopped => stopped
           end.

Definition return_ {W A} (a : A) : stmt W A := fun w => (Return a, w).

Definition raise_ {W A} (e : exn) : stmt W A := fun w => (Throw e, w).

Definition try_except {W A} (body : stmt W A) (handler : exn -> stmt W A) : stmt W A :=
  fun w => match body w with
           | (Throw e, w') => handler e w'
           | other => other
           end.

Definition try_finally {W A} (body final : stmt W A) : stmt W A :=
  fun w => let (pending, w') := body w in
           match final w' with
           | (Normal, w'') => (pending, w'')
           | replaced => replaced
           end.

(** A call that returns or raises, as the host has it. *)
Definition call {W A} (ok : bool) : stmt W A :=
  fun w => (if ok then Normal else Throw OSError, w).

(** What was done so far: the calls of [sc.delete()] made, and whether
    [shutil.copy] put the file into the upload folder. *)
Record staging := {
  deletes : nat;
  copied : bool
}.

(** The host as the function meets it: whether [vss.ShadowCopy(drives)],
    [sc.shadow_path(file)] and [shutil.copy(path, uploads)] return or
    raise, and whether the [n]-th call of [sc.delete()] does. *)
Record shadow_host := {
  shadow_copy_ok : bool;
  shadow_path_ok : bool;
  copy_ok : bool;
  delete_ok : nat -> bool
}.

Definition shutil_copy {A} (h : shadow_host) : stmt staging A :=
  fun w => if copy_ok h
           then (Normal, {| deletes := deletes w; copied := true |})
           else (Throw OSError, w).

Definition sc_delete {A} (h : shadow_host) : stmt staging A :=
  fun w => (if delete_ok h (deletes w) then Normal else Throw OSError,
            {| deletes := S (deletes w); copied := copied w |}).

Definition _copy_webcachev01_dat (h : shadow_host) (file_path : str) : stmt staging bool :=
  match file_path with
  | [] => raise_ IndexError
  | drv :: _ =>
      try_except
        (then_ (call (shadow_copy_ok h))
        (then_ (call (shadow_path_ok h))
               (try_finally
                  (try_except (shutil_copy h)
                     (fun e => then_ (sc_delete h) (return_ false)))
                  (then_ (sc_delete h) (return_ true)))))
        (fun _ => return_ false)
  end.

(** ** The head of [_extract_webcachev01_dat]: which file it opens

    [listdir] is [os.listdir(self._upload_dir)], [tail] is
    [os.path.split(file_path)[1]].  The third branch binds [file_path],
    so [file_name] has no value when the file is opened. *)

Inductive opening :=
| OpenFile (file_name : str)
| ReturnFalse.

Definition in_list (x : str) (l : list str) : bool := existsb (str_eqb x) l.

Definition webcache_file_name (h : shadow_host) (listdir : list str) (tail : str -> str)
    (file_path : str) : result opening * staging :=
  match _copy_webcachev01_dat h file_path {| deletes := 0; copied := false |} with
  | (Throw e, w) => (Raise e, w)
  | (Return true, w) => (Ok (OpenFile (tail file_path)), w)
  | (_, w) =>
      if in_list (lit "WebCacheV01.dat") listdir then (Ok (OpenFile (lit "WebCacheV01.dat")), w)
      else if in_list (lit "WebCacheV24.dat") listdir then (Raise NameError, w)
      else (Ok ReturnFalse, w)
  end.

(** ** The platform names *)

(** [\s] and [\d] on a [str] pattern: beyond ASCII, whatever the Unicode
    database calls white space and a decimal digit. *)
Variable unicode_space : N -> bool.
Variable unicode_digit : N -> bool.

Definition is_space (c : N) : bool :=
  if (c <? 128)%N
  then in_range 9 13 c || in_range 28 31 c || N.eqb c 32
  else unicode_space c.

Definition is_decimal (c : N) : bool :=
  if (c <? 128)%N then is_digit c else unicode_digit c.

(** [\d{1,2}] at the head of [u]: greedy. *)
Definition one_or_two_digits (u : str) : option str :=
  match u with
  | d1 :: d2 :: _ => if is_decimal d1 then Some (if is_decimal d2 then [d1; d2] else [d1])
                     else None
  | [d1] => if is_decimal d1 then Some [d1] else None
  | [] => None
  end.

(** [Windows\s\d{1,2}] at the head of [u]. *)
Definition windows_pattern (u : str) : option str :=
  match strip_prefix (lit "Windows") u with
  | Some (s :: r) =>
      if is_space s
      then option_map (fun ds => lit "Windows" ++ s :: ds) (one_or_two_digits r)
      else None
  | _ => None
  end.

(** [(?<=Darwin\s)\d{1,2}] at the head of [u], the lookbehind read as
    the seven characters in front of the match. *)
Definition darwin_pattern (u : str) : option str :=
  match strip_prefix (lit "Darwin") u with
  | Some (s :: r) => if is_space s then one_or_two_digits r else None
  | _ => None
  end.

(** [' '.join([self.os, self.os_release])] *)
Definition os_full (os os_release : str) : str := os ++ lit " " ++ os_release.

(** [_handle_platform()] for [self.os] and [self.os_release]; [None] is
    Python's [None], returned by falling off the end. *)
Definition _handle_platform (os os_release : str) : option str :=
  if in_list os [lit "Linux"; lit "Darwin"] then Some os
  else if str_eqb os (lit "Windows")
       then re_search windows_pattern (os_full os os_release)
       else None.

(** [_os_name(_os_full)] *)
Definition _os_name (_os_full : str) : option str :=
  match re_search darwin_pattern _os_full with
  | Some m =>
      if str_eqb m (lit "10") then Some (lit "Mac OS X Snow Leopard")
      else if str_eqb m (lit "11") then Some (lit "Mac OS X Lion")
      else if str_eqb m (lit "12") then Some (lit "OS X Mountain Lion")
      else if str_eqb m (lit "13") then Some (lit "OS X Mavericks")
      else if str_eqb m (lit "14") then Some (lit "OS X Yosemite")
      else if str_eqb m (lit "15") then Some (lit "OS X El Capitan")
      else if str_eqb m (lit "16") then Some (lit "macOS Sierra")
      else if str_eqb m (lit "17") then Some (lit "macOS High Sierra")
      else None
  | None => Some _os_full
  end.

(** ** [allowed_file] *)

Definition ALLOWED_EXTENSIONS : list str :=
  [lit "sqlite"; lit "dat"; lit "plist"; lit "History"; lit "db"].

(** [s.lower()]: on an ASCII string the capital letters are moved to
    the small ones; what it does to a string with other characters stays
    a parameter. *)
Variable unicode_lower : str -> str.

Definition ascii_lower (c : N) : N := if is_upper c then (c + 32)%N else c.

Definition lower (u : str) : str :=
  if forallb (fun c => c <? 128)%N u then List.map ascii_lower u else unicode_lower u.

Definition dot : N := 46.

(** [u.rsplit('.', 1)]: [None] when [u] has no dot, else what is in front
    of the last dot and what is behind it. *)
Fixpoint rsplit_dot (u : str) : option (str * str) :=
  match u with
  | [] => None
  | c :: t =>
      match rsplit_dot t with
      | Some (a, b) => Some (c :: a, b)
      | None => if N.eqb c dot then Some ([], t) else None
      end
  end.

Definition allowed_file (filename : str) : bool :=
  match rsplit_dot filename with
  | Some (_, extension) => in_list (lower extension) ALLOWED_EXTENSIONS
  | None => in_list filename ALLOWED_EXTENSIONS
  end.

(** ** [_min_date] and [_date_conv] *)

(** The zone rules of the host: the offset from UTC, in seconds east,
    that [d.timestamp()] and [time.mktime] take off the local wall-clock
    time [d].  Where daylight saving time is kept it changes with the
    date; [utcoffset] is the offset that the rules give at the instant
    [fromtimestamp] is handed. *)
Variable offset_at : datetime -> Z.

(** [d.timestamp()] on a naive [d] of any date, in microseconds. *)
Definition timestamp_at (d : datetime) : Z :=
  d - datetime_ymd 1970 1 1 - offset_at d * us_per_second.

(** [_min_date(num_days)], the method; [now] is [time.time()], which
    [datetime.today()] reads.  (The field [_min_date] of the session
    holds what the method returned for 60 days.) *)
Definition _min_date_days (now : Q) (num_days : Z) : result Z :=
  today <- fromtimestamp now ;;
  days <- mk_timedelta (num_days * us_per_day) ;;
  min_date <- datetime_add today (- days) ;;
  Ok (timestamp_at min_date).

(** [datetime.strptime(s, "%Y-%m-%d")] *)
Variable strptime_ymd : str -> result datetime.

(** [time.mktime(d.timetuple())]: the time tuple has whole seconds and
    is read as local time, by the zone rules for its date. *)
Definition mktime_timetuple (d : datetime) : Z :=
  (d - datetime_ymd 1970 1 1) / us_per_second - offset_at d.

Inductive date_arg :=
| DateList (dates : list str)
| DateStr (date : str)
| DateOther.

(** [_date_conv(date)]: with neither a list nor a string no branch binds
    the names that are returned.  The three values are Python's: [t] and
    [tk] are the integers that the queries of [visits] and
    [select_domains] write into their text. *)
Definition _date_conv (date : date_arg) : result (Z * Z * str) :=
  match date with
  | DateList (d0 :: d1 :: _) =>
      let date_str := lit "between " ++ d0 ++ lit " and " ++ d1 in
      a <- strptime_ymd d0 ;;
      let t := mktime_timetuple a * 1000000 in
      b <- strptime_ymd d1 ;;
      let tk := mktime_timetuple b * 1000000 in
      Ok (t, tk, date_str)
  | DateList _ => Raise IndexError
  | DateStr s =>
      let date_str := lit "on " ++ s in
      a <- strptime_ymd s ;;
      let t := mktime_timetuple a in
      b <- strptime_ymd s ;;
      day <- mk_timedelta (1 * us_per_day) ;;
      tk <- datetime_add b day ;;
      let tk := mktime_timetuple tk * 1000000 in
      Ok (t, tk, date_str)
  | DateOther => Raise NameError
  end.

(** ** [search_terms], without a search term *)

(** [re.findall(pat, url)] for the search-term pattern, which has one
    group: the texts of the group, from the left; and
    [urllib.parse.unquote_plus]. *)
Variable findall_terms : str -> list str.
Variable unquote_plus : str -> str.

Record term_entry := {
  t_ids : list Z;
  t_count : Z;
  t_urls : list str;
  t_match : str
}.

(** One turn of the inner loop, for the match [m] in the URL of the row
    [id], whose stem is [domain]. *)
Definition term_step (id : Z) (domain : str) (d : list (str * term_entry)) (m : str)
  : list (str * term_entry) :=
  let term := unquote_plus m in
  match dict_get term d with
  | None =>
      d ++ [(term, {| t_ids := [] ++ [id]; t_count := 1; t_urls := [domain]; t_match := m |})]
  | Some _ =>
      dict_update term
        (fun e => {| t_ids := t_ids e ++ [id];
                     t_count := t_count e + 1;
                     t_urls := if in_list domain (t_urls e) then t_urls e
                               else t_urls e ++ [domain];
                     t_match := t_match e |}) d
  end.

Definition search_step (d : list (str * term_entry)) (entry : Z * str)
  : list (str * term_entry) :=
  let domain := _stem_url (snd entry) in
  let matches := findall_terms (snd entry) in
  fold_left (term_step (fst entry) domain) matches d.

Inductive term_sort := by_keywords | by_term_frequency.

Definition search_terms (db : store) (sort_by : term_sort) : list (str * term_entry) :=
  let entries := List.map (fun u => (u_id u, u_url u)) (tbl_urls db) in
  let d := fold_left search_step entries [] in
  match sort_by with
  | by_keywords => sorted (fun a b => str_leb (fst a) (fst b)) d
  | by_term_frequency => sorted (fun a b => t_count (snd b) <=? t_count (snd a)) d
  end.

(** What [_update_db] reads of [self._keywords]: the ids of each term. *)
Definition keyword_ids (od : list (str * term_entry)) : list (str * list Z) :=
  List.map (fun p => (fst p, t_ids (snd p))) od.

(** ** [_create_db]

    The state is whether the schema script has been run on the new
    database.  [connect_ok] says whether [sqlite3.connect] and
    [conn.cursor()] return, [schema_ok] whether the script is read and
    run and the commit goes through, [close_ok] whether the two [close]
    calls return.  When [connect] raises, [cur] has no value in the
    [finally] suite. *)

Record db_host := {
  connect_ok : bool;
  schema_ok : bool;
  close_ok : bool
}.

Definition run_schema {A} (h : db_host) : stmt bool A :=
  fun w => if schema_ok h then (Normal, true) else (Throw DatabaseError, w).

Definition _create_db (h : db_host) : stmt bool (option str) :=
  try_finally
    (try_except
       (then_ (call (connect_ok h)) (run_schema h))
       (fun _ => return_ None))
    (then_ (if connect_ok h then call (close_ok h) else raise_ NameError)
           (return_ (Some (lit "tmp/browsing_history.db")))).

(** ** [_update_db], with its connection

    [_update_db] above is the suite that works on the open database.
    The method opens the database first, inside the [try]: [opened] is
    what [sqlite3.connect(self._db)] gives, an exception when no database
    opens ([self._db] is [None] until [load] or [_state] has set it, and
    [connect] then raises the type error).  The state is the open
    database, if there is one, and the state of the random source.  When
    [connect] raises, [c] and [conn] have no value in the [finally]
    suite. *)

Definition update_state := (option store * nat)%type.

(** [conn = sqlite3.connect(self._db)] and [c = conn.cursor()] *)
Definition connect (opened : result store) : stmt update_state unit :=
  fun w => match opened with
           | Ok db => (Normal, (Some db, snd w))
           | Raise e => (Throw e, w)
           end.

(** Lines 479 to 509, once [conn] and [c] are bound. *)
Definition update_suite (self : BrowsingHistory) (x : pyval) (kind : kind)
  : stmt update_state unit :=
  fun w => match fst w with
           | Some db =>
               let '(db', k', e) := _update_db self db (snd w) x kind in
               (match e with
                | Some e => Throw e
                | None => Normal
                end, (Some db', k'))
           | None => (Throw NameError, w)
           end.

(** [print(e)] *)
Definition print_ {W A} : stmt W A := fun w => (Normal, w).

(** [c.close()] and [conn.close()] *)
Definition close_connection : stmt update_state unit :=
  fun w => match fst w with
           | Some _ => (Normal, w)
           | None => (Throw NameError, w)
           end.

Definition _update_db_call (self : BrowsingHistory) (opened : result store)
    (x : pyval) (kind : kind) : stmt update_state unit :=
  try_finally
    (try_except
       (then_ (connect opened) (update_suite self x kind))
       (fun e => match e with
                 | OperationalError => print_
                 | _ => raise_ e
                 end))
    close_connection.

(** ** [dashboard]: the mapping [top_10] handed to the template, once a
    history is loaded *)

Definition dashboard_top_10 (db : store) : result (list (str * Z)) :=
  top_10 <- visits db None (Some 10) false ;;
  Ok (sorted (fun a b : str * Z => snd b <=? snd a) top_10).

(** ** [_get_date], [_date_range] and [entries] *)

(** [date.strftime('%d.%m.%Y %H:%M:%S')] *)
Variable strftime_dmy : datetime -> str.

(** [_get_date(timestamp)] *)
Definition _get_date (timestamp : Q) : result str :=
  date <- fromtimestamp timestamp ;;
  Ok (strftime_dmy date).

(** A date of the store as the number of seconds it stands for: the
    store holds POSIX times as counts of microseconds. *)
Definition stored_seconds (z : Z) : Q := z # 1000000.

(** [SELECT min(visit_date), max(visit_date) FROM visits]: [None] is
    SQL's NULL, which an empty table gives. *)
Definition sql_min (l : list Z) : option Z :=
  match l with
  | [] => None
  | x :: t => Some (fold_left Z.min t x)
  end.

Definition sql_max (l : list Z) : option Z :=
  match l with
  | [] => None
  | x :: t => Some (fold_left Z.max t x)
  end.

(** The truth value of a number or [None]. *)
Definition truthy (o : option Z) : bool :=
  match o with
  | Some z => negb (z =? 0)
  | None => false
  end.

Definition _date_range (db : store) : result (str * str) :=
  let dates := List.map v_visit_date (tbl_visits db) in
  match sql_min dates, sql_max dates with
  | Some min_date, Some max_date =>
      if truthy (Some min_date) && truthy (Some max_date) then
        min_date <- _get_date (stored_seconds min_date) ;;
        max_date <- _get_date (stored_seconds max_date) ;;
        Ok (min_date, max_date)
      else Ok (lit " ", lit " ")
  | _, _ => Ok (lit " ", lit " ")
  end.

(** [SELECT urls.id, visit_date, url, visit_count FROM visits, urls WHERE
    visits.url_id = urls.id], visit by visit. *)
Definition entries_query (db : store) : list (Z * Z * str * Z) :=
  flat_map
    (fun v => List.map (fun u => (u_id u, v_visit_date v, u_url u, u_visit_count u))
                (filter (fun u => v_url_id v =? u_id u) (tbl_urls db)))
    (tbl_visits db).

Inductive entry_sort := sort_domains | sort_frequency | sort_date | sort_other.

Definition entry := (Z * str * str * Z * Z)%type.

Definition entry_url (t : entry) : str := snd (fst (fst t)).
Definition entry_count (t : entry) : Z := snd (fst t).
Definition entry_date (t : entry) : Z := snd t.

(** [entries(sort_by, q=None)]; [sort_domains] stands for ['domains'] and
    for [None], [sort_other] for any string that no branch names. *)
Definition entries (db : store) (sort_by : entry_sort) : result (list entry) :=
  visits <- mapM (fun e : Z * Z * str * Z =>
                    let '(id, visit_date, url, visit_count) := e in
                    date <- _get_date (stored_seconds visit_date) ;;
                    Ok (id, date, url, visit_count, visit_date))
              (entries_query db) ;;
  Ok (match sort_by with
      | sort_domains => sorted (fun a b => str_leb (entry_url a) (entry_url b)) visits
      | sort_frequency => sorted (fun a b => entry_count b <=? entry_count a) visits
      | sort_date => sorted (fun a b => entry_date b <=? entry_date a) visits
      | sort_other => visits
      end).

(** ** [_build_path] *)

(** The file system as the function asks it. *)
Record filesystem := {
  isdir : str -> bool;
  isfile : str -> bool;
  listdir : str -> list str
}.

(** [p.format(user)] and [os.path.join(a, b, ...)] *)
Variable format_user : str -> str -> str.
Variable path_join : list str -> str.

(** [\w+.default([\w\-\_\.]+)?] at the head of [u]: a run of word
    characters, of which the pattern may give some back, one character
    that is no line feed, and [default]; the optional group that follows
    decides nothing. *)
Fixpoint profile_pattern (u : str) : bool :=
  match u with
  | [] => false
  | c :: t =>
      is_word c
      && (profile_pattern t
          || match t with
             | a :: r => negb (N.eqb a 10) && starts_with (lit "default") r
             | [] => false
             end)
  end.

(** [re.findall(pat, item)], as a truth value. *)
Fixpoint has_profile_name (item : str) : bool :=
  profile_pattern item
  || match item with
     | [] => false
     | _ :: t => has_profile_name t
     end.

(** The inner loops: over the items of a profile folder, and over the
    file names of the BrowserSpec; [None] when the loop runs out. *)
Fixpoint find_profile (fs : filesystem) (dir : str) (file_name : list str) (items : list str)
  : result (option str) :=
  match items with
  | [] => Ok None
  | item :: rest =>
      if has_profile_name item then
        match file_name with
        | [] => Raise IndexError
        | f0 :: _ =>
            let path := path_join [dir; item; f0] in
            if isfile fs path then Ok (Some path) else find_profile fs dir file_name rest
        end
      else find_profile fs dir file_name rest
  end.

Fixpoint find_file (fs : filesystem) (dir : str) (names : list str) : option str :=
  match names with
  | [] => None
  | f :: rest =>
      let path := path_join [dir; f] in
      if isfile fs path then Some path else find_file fs dir rest
  end.

Fixpoint search_paths (browser_name : browser) (fs : filesystem) (user : str)
    (file_name : list str) (paths : list str) : result (option str) :=
  match paths with
  | [] => Ok None
  | p :: rest =>
      let dir := format_user p user in
      found <- (if isdir fs dir then
                  match browser_name with
                  | Firefox => find_profile fs dir file_name (listdir fs dir)
                  | _ => Ok (find_file fs dir file_name)
                  end
                else Ok None) ;;
      match found with
      | Some path => Ok (Some path)
      | None => search_paths browser_name fs user file_name rest
      end
  end.

(** [_build_path(_os)] for [self._browser_name], [self.os] and the
    entries [path] and [file_name] of the BrowserSpec; [getlogin] is
    [os.getlogin()], and [Ok None] stands for [False].  A JSON object
    has strings as keys, so [None] is none of them. *)
Definition _build_path (browser_name : browser) (os : str) (path : list (str * list str))
    (file_name : list str) (fs : filesystem) (getlogin : result str) (_os : option str)
  : result (option str) :=
  if match browser_name with
     | IE11 => in_list os [lit "Linux"; lit "Darwin"]
     | Safari => in_list os [lit "Linux"; lit "Windows"]
     | _ => false
     end
  then Ok None
  else
    user <- getlogin ;;
    paths <- match _os with
             | Some key => match dict_get key path with
                           | Some paths => Ok paths
                           | None => Raise KeyError
                           end
             | None => Raise KeyError
             end ;;
    search_paths browser_name fs user file_name paths.

(** ** Sample data

    Values for the parameters of the host and a few small sessions,
    sources and stores, on which the statements below are evaluated. *)

(** No character beyond ASCII counts as a word character. *)
Definition ascii_only (c : N) : bool := false.

(** A random source that returns zero bytes, and one that counts. *)
Definition zero_source (k : nat) : N := 0%N.
Definition counting_source (k : nat) : N := N.of_nat k.

Definition no_sub (replacement url : str) : str := url.

Definition sql_us (t : sqlnum) : Z :=
  match t with
  | SInt z => z
  | SReal q => Qfloor (q * 1000000)
  end.

(** Column maps that carry over every id a record has.  The visit
    tuples of a property list, [(url_id, visit_date)], have two values,
    which fill the columns [url_id] and [visit_date]: the statement names
    no [id] for them. *)
Definition direct_spec : BrowserSpec := {|
  cols_urls_sql := fun u v =>
    (Some (su_id u),
     {| u_id := su_id u; u_url := su_url u; u_title := su_title u;
        u_rev_host := su_rev_host u; u_visit_count := su_visit_count u;
        u_typed := su_typed u; u_last_visit_date := option_map sql_us (su_last_visit u);
        u_redirect_urls := None |});
  cols_visits_sql := fun v =>
    (Some (sv_id v),
     {| v_id := sv_id v; v_url_id := sv_url v; v_visit_date := sql_us (sv_time v);
        v_visit_type := sv_type v; v_referrer := sv_from v |});
  cols_urls_plist := fun t =>
    let '(_id, last_visit_date, redirect_urls, title, url, visit_count) := t in
    (Some _id,
     {| u_id := _id; u_url := url; u_title := Some title; u_rev_host := None;
        u_visit_count := visit_count; u_typed := 0;
        u_last_visit_date := Some last_visit_date; u_redirect_urls := redirect_urls |});
  cols_visits_plist := fun t =>
    let '(url_id, visit_date) := t in
    (None,
     {| v_id := 0; v_url_id := url_id; v_visit_date := visit_date;
        v_visit_type := None; v_referrer := None |});
  cols_urls_ese := fun t =>
    let '(access_count, redirect_urls, unique_id, url) := t in
    (Some unique_id,
     {| u_id := unique_id; u_url := url; u_title := None; u_rev_host := None;
        u_visit_count := access_count; u_typed := 0;
        u_last_visit_date := None; u_redirect_urls := redirect_urls |});
  cols_visits_ese := fun t =>
    let '(accessed_time, unique_entry_id, url_id) := t in
    (Some unique_entry_id,
     {| v_id := unique_entry_id; v_url_id := url_id; v_visit_date := accessed_time;
        v_visit_type := None; v_referrer := None |})
|}.

Definition session (b : browser) (spec : BrowserSpec) (min_date : Z)
    (domains : option (list (str * (list Z * Z)))) : BrowsingHistory :=
  {| _browser_name := b; _browser_specs := spec; _min_date := min_date;
     _domains := domains; _keywords := None |}.

(** 2010-01-01 and 2023-11-14 22:13:20 UTC. *)
Definition sample_cutoff : Z := 1262304000000000.
Definition sample_now : Z := 1700000000000000.

Definition sample_record (count : Z) (url : str) : ese_record :=
  {| r_entry_id := 1; r_access_count := count; r_timestamp := 130000000000000000;
     r_url := url; r_redirect := None |}.

(** Two records for one recovered URL, with access counts 3 and 5. *)
Definition sample_webcache : list container :=
  [ {| c_id := 4; c_name := lit "History";
       c_records := [ sample_record 3 (lit "Visited: bob@http://example.com/a");
                      sample_record 5 (lit "Visited: bob@http://example.com/a") ] |} ].

Definition sample_url (id : Z) (url : str) (count : Z) : url_row :=
  {| u_id := id; u_url := url; u_title := Some (lit "A page"); u_rev_host := None;
     u_visit_count := count; u_typed := 0; u_last_visit_date := None;
     u_redirect_urls := None |}.

Definition sample_visit (id url_id : Z) : visit_row :=
  {| v_id := id; v_url_id := url_id; v_visit_date := sample_now;
     v_visit_type := None; v_referrer := None |}.

Definition sample_db : store :=
  {| tbl_urls := [ sample_url 1 (lit "http://www.a.com/x") 4;
                   sample_url 2 (lit "http://a.com/y") 0;
                   sample_url 3 (lit "http://b.org/") 1 ];
     tbl_visits := [ sample_visit 1 1; sample_visit 2 1; sample_visit 3 2;
                     sample_visit 4 3; sample_visit 5 1 ] |}.

Definition sample_domains : list (str * (list Z * Z)) :=
  [ (lit "a.com", ([1; 2], 4)); (lit "b.org", ([3], 1)) ].

(** A store whose one URL has the host [a]. *)
Definition short_host_db : store :=
  {| tbl_urls := [ sample_url 1 (lit "http://a/") 1 ]; tbl_visits := [ sample_visit 1 1 ] |}.

(** A store whose one visited URL has the visit count 0, and one with the
    visit counts 1 and -1. *)
Definition zero_db : store :=
  {| tbl_urls := [ sample_url 1 (lit "http://example.com/") 0 ];
     tbl_visits := [ sample_visit 1 1 ] |}.

Definition cancelling_db : store :=
  {| tbl_urls := [ sample_url 1 (lit "http://example.com/") 1;
                   sample_url 2 (lit "http://example.org/") (-1) ];
     tbl_visits := [ sample_visit 1 1; sample_visit 2 2 ] |}.

Definition sample_src_url (id : Z) (url : str) : src_url :=
  {| su_id := id; su_url := url; su_title := None; su_rev_host := None;
     su_visit_count := 1; su_typed := 0; su_last_visit := None |}.

Definition chrome_visit (id url_id t : Z) : src_visit :=
  {| sv_id := id; sv_url := url_id; sv_time := SInt (t + 11644473600000000);
     sv_type := None; sv_from := None |}.

(** A Chrome history with one visit 10 days before [sample_now] and one
    90 days before it. *)
Definition chrome_history : file :=
  {| file_name := lit "History";
     file_content :=
       Sqlite [ sample_src_url 1 (lit "https://example.com/") ]
              [ chrome_visit 1 1 (sample_now - 10 * 86400000000);
                chrome_visit 2 1 (sample_now - 90 * 86400000000) ] |}.

(** A Chrome history whose one URL is a local file, visited 10 days
    before [sample_now]. *)
Definition chrome_local_file : file :=
  {| file_name := lit "History";
     file_content :=
       Sqlite [ sample_src_url 1 (lit "file:///home/u/notes.html") ]
              [ chrome_visit 1 1 (sample_now - 10 * 86400000000) ] |}.

(** A property list whose one entry is a file URL with a host. *)
Definition plist_local_file : file :=
  {| file_name := lit "History.plist";
     file_content :=
       Plist [ {| pi_url := lit "file://localhost/Users/u/notes.html";
                  pi_lastVisitedDate := 700000000;
                  pi_title := lit "Notes"; pi_visitCount := 1;
                  pi_redirectURLs := None |} ] |}.

(** A WebCacheV01.dat with the records of [sample_webcache], and the
    store that the import of a file into the empty store leaves. *)
Definition webcache_file : file :=
  {| file_name := lit "WebCacheV01.dat"; file_content := Ese sample_webcache |}.

Definition imported (self : BrowsingHistory) (f : file) : store :=
  match _import_data self empty_store (Some f) with
  | Ok (_, db) => db
  | Raise _ => empty_store
  end.

(** Two entries of a property list, the second without a host part. *)
Definition sample_plist : list plist_item :=
  [ {| pi_url := lit "https://www.example.com/news"; pi_lastVisitedDate := 700000000;
       pi_title := lit "News"; pi_visitCount := 3; pi_redirectURLs := None |};
    {| pi_url := lit "about:blank"; pi_lastVisitedDate := 700000100;
       pi_title := lit ""; pi_visitCount := 1; pi_redirectURLs := None |} ].

(** A store whose two URLs are both visited and counted. *)
Definition counted_db : store :=
  {| tbl_urls := [ sample_url 1 (lit "http://www.a.com/x") 4;
                   sample_url 3 (lit "http://b.org/") 1 ];
     tbl_visits := [ sample_visit 1 1; sample_visit 4 3 ] |}.

(** A store whose two domains have the same total, the second URL
    visited first. *)
Definition tie_db : store :=
  {| tbl_urls := [ sample_url 1 (lit "http://a.com/") 1;
                   sample_url 2 (lit "http://b.org/") 1 ];
     tbl_visits := [ sample_visit 1 2; sample_visit 2 1 ] |}.



(** [lower] and [unquote_plus] that leave a string as it is, a
    [strptime] that reads every string as 2016-10-15, and a search-term
    finder that knows the term [rocq]. *)
Definition as_is (u : str) : str := u.

Definition strptime_sample (s : str) : result datetime := Ok (datetime_ymd 2016 10 15).

(** The rules of a zone an hour east of UTC that keeps daylight saving
    time, for the years 2016 and 2023: two hours east from 02:00 on the
    last Sunday of March to 03:00 on the last Sunday of October.  And a
    [strptime] that reads every string as 2016-10-30, the day the clocks
    go back. *)
Definition hours (h : Z) : Z := h * 3600 * us_per_second.

Definition summer_time (d : datetime) : bool :=
  ((datetime_ymd 2016 3 27 + hours 2 <=? d) && (d <? datetime_ymd 2016 10 30 + hours 3))
  || ((datetime_ymd 2023 3 26 + hours 2 <=? d) && (d <? datetime_ymd 2023 10 29 + hours 3)).

Definition central_european (d : datetime) : Z :=
  if summer_time d then 7200 else 3600.

Definition strptime_clock_change (s : str) : result datetime := Ok (datetime_ymd 2016 10 30).

Definition findall_sample (url : str) : list str :=
  if contains (lit "?q=rocq") url then [lit "rocq"] else [].

Definition search_db : store :=
  {| tbl_urls := [ sample_url 1 (lit "http://www.a.com/search?q=rocq") 2;
                   sample_url 2 (lit "http://b.org/") 1 ];
     tbl_visits := [ sample_visit 1 1; sample_visit 2 2 ] |}.

Definition search_session : BrowsingHistory :=
  {| _browser_name := Chrome; _browser_specs := direct_spec; _min_date := sample_cutoff;
     _domains := None;
     _keywords := Some (keyword_ids (search_terms search_db by_keywords)) |}.

(** A [strftime] that writes the count of microseconds, and the entries
    of [sample_db] by date. *)
Definition strftime_sample (d : datetime) : str := str_of_Z d.

Definition sample_entries : list entry :=
  match entries sample_db sort_date with
  | Ok l => l
  | Raise _ => []
  end.

(** A file system with one folder and one file in it, a [format] that
    leaves the path as it is, and [os.path.join] on a POSIX host. *)
Definition sample_fs : filesystem :=
  {| isdir := fun d => str_eqb d (lit "/home/ada/chrome");
     isfile := fun p => str_eqb p (lit "/home/ada/chrome/History");
     listdir := fun _ => [] |}.

Definition format_sample (p user : str) : str := p.

Definition join_sample (parts : list str) : str := join (lit "/") parts.

(** ** Notions the properties are stated with *)

Definition slash : N := 47.

Definition no_slash (u : str) : Prop := ~ In slash u.

(** What a match of the token pattern looks like. *)
Definition token_shape (y : str) : Prop :=
  exists w1 w2,
    y = lit "anonymisiert-" ++ w1 ++ lit "-" ++ w2
    /\ w1 <> [] /\ w2 <> []
    /\ Forall (fun c => is_word c = true) w1
    /\ Forall (fun c => is_word c = true) w2.

(** An instant, in microseconds of POSIX time, that a UTC [datetime] can
    hold. *)
Definition representable (t : Z) : Prop :=
  in_datetime_range (datetime_ymd 1970 1 1 + t) = true.

(** The native encodings of the instant [t]. *)
Definition chrome_time (t : Z) : Q := inject_Z (t + 11644473600000000).
Definition ie11_time (t : Z) : Q := inject_Z (10 * (t + 11644473600000000)).
Definition safari_time (t : Z) : Q := (t - 978307200000000) # 1000000.
Definition firefox_time (t : Z) : Q := inject_Z t.
Definition posix_time (t : Z) : Q := t # 1000000.

Definition nonempty {A} (l : list A) : bool :=
  match l with
  | [] => false
  | _ :: _ => true
  end.

(** The URLs of the store that have a visit the query joins them to, and
    those of them that stem to a domain. *)
Definition visited_urls (db : store) (date : option (Z * Z)) : list url_row :=
  filter (fun u => nonempty (joined_visits db date u)) (tbl_urls db).

Definition visited_urls_of (domain : str) (db : store) (date : option (Z * Z))
  : list url_row :=
  filter (fun u => str_eqb (_stem_url (u_url u)) domain) (visited_urls db date).

Definition row_domain (r : str * Z * Z) : str := _stem_url (fst (fst r)).
Definition row_count (r : str * Z * Z) : Z := snd (fst r).

Definition counted_for (domain : str) (seen : list Z) (rows : list (str * Z * Z)) : Z :=
  sum (List.map row_count
         (filter (fun r => str_eqb (row_domain r) domain) (first_sightings seen rows))).

(** The records of the [History] containers, in the order the loops
    visit them. *)
Definition history_records (cs : list container) : list ese_record :=
  flat_map (fun c => if str_eqb (c_name c) (lit "History") then c_records c else []) cs.

(** The URL recovered from a record that passes both filters. *)
Definition sighting (self : BrowsingHistory) (rec : ese_record) : option str :=
  match _convert_timestamp (inject_Z (r_timestamp rec)) (_browser_name self) (lit "utc") with
  | Ok date => if _min_date self <=? date then re_search webcache_pattern (r_url rec) else None
  | Raise _ => None
  end.

Definition sights (self : BrowsingHistory) (u : str) (rec : ese_record) : bool :=
  match sighting self rec with
  | Some u' => str_eqb u' u
  | None => false
  end.

Definition sightings (self : BrowsingHistory) (u : str) (recs : list ese_record)
  : list ese_record :=
  filter (sights self u) recs.

Definition positive_sum (recs : list ese_record) : Z :=
  sum (filter (Z.ltb 0) (List.map r_access_count recs)).

(** The count and redirect chain of an entry after further sightings. *)
Definition merged (o : option (Z * option str)) (ss : list ese_record)
  : option (Z * option str) :=
  match o with
  | Some (c, rd) => Some (c + positive_sum ss, rd)
  | None =>
      match ss with
      | [] => None
      | r0 :: rest => Some (r_access_count r0 + positive_sum rest, r_redirect r0)
      end
  end.

Definition view (e : ese_entry) : Z * option str := (access_count e, redirect_urls e).

(** The column maps of a BrowserSpec name the [id] column for every
    record stream whose records carry an id: the two tables of a
    relational source, the URL tuples of a property list, and the URL and
    visit tuples of WebCacheV01.dat. *)
Definition supplies_keys (spec : BrowserSpec) : Prop :=
  (forall u v, fst (cols_urls_sql spec u v) <> None)
  /\ (forall v, fst (cols_visits_sql spec v) <> None)
  /\ (forall t, fst (cols_urls_plist spec t) <> None)
  /\ (forall t, fst (cols_urls_ese spec t) <> None)
  /\ (forall t, fst (cols_visits_ese spec t) <> None).

(** The visit tuples of a property list, [(url_id, visit_date)], carry
    no id of their own, so their column map names no [id]. *)
Definition plist_visits_unkeyed (spec : BrowserSpec) : Prop :=
  forall t, fst (cols_visits_plist spec t) = None.

(** The source is one that [_extract_history_plist] reads: a file of
    Safari that is not called History.db. *)
Definition reads_plist (self : BrowsingHistory) (file_path : option file) : bool :=
  match file_path, _browser_name self with
  | Some f, Safari => negb (str_eqb (file_name f) (lit "History.db"))
  | _, _ => false
  end.

Definition plist_url_ok (self : BrowsingHistory) (t : plist_url_tuple) : Prop :=
  let '(_, last_visit_date, _, _, url, _) := t in
  _is_url url = true /\ _min_date self <= last_visit_date.

Definition plist_visit_ok (self : BrowsingHistory) (t : plist_visit_tuple) : Prop :=
  _min_date self <= snd t.

Definition ese_url_ok (t : ese_url_tuple) : Prop :=
  starts_with (lit "http") (snd t) = true.

Definition ese_visit_ok (self : BrowsingHistory) (t : ese_visit_tuple) : Prop :=
  _min_date self <= fst (fst t).

Definition ese_state_ok (self : BrowsingHistory) (d : url_dict) (v : list ese_visit_tuple)
  : Prop :=
  Forall (fun k => starts_with (lit "http") k = true) (List.map fst d)
  /\ Forall (ese_visit_ok self) v.

(** The POSIX time, in seconds, that a native timestamp of a relational
    source stands for. *)
Definition unix_seconds (b : browser) (t : sqlnum) : Q :=
  match b with
  | Chrome => sql_to_Q t / inject_Z 1000000 + inject_Z (-11644473600)
  | Firefox => sql_to_Q t / inject_Z 1000000
  | Safari => sql_to_Q t + inject_Z 978307200
  | _ => sql_to_Q t
  end.

Definition nonneg_time (t : sqlnum) : Prop :=
  match t with
  | SInt z => 0 <= z
  | SReal _ => True
  end.

(** The native encodings of the instant [t] in the relational sources,
    and what the cutoff clause answers on them when [t] is a second or
    more away from the cutoff. *)
Definition native_time (b : browser) (t : Z) : sqlnum :=
  match b with
  | Chrome => SInt (t + 11644473600000000)
  | Safari => SReal ((t - 978307200000000) # 1000000)
  | _ => SInt t
  end.

Definition relational (b : browser) : Prop := b = Chrome \/ b = Firefox \/ b = Safari.

(** [[0-9a-f]] *)
Definition is_hex (c : N) : bool := is_digit c || in_range 97 102 c.

Definition hash_char (c : N) : bool := is_hex c || N.eqb c 45.

(** The characters a token is made of: digits, lower-case letters and
    the hyphen. *)
Definition token_char (c : N) : bool := is_digit c || is_lower c || N.eqb c 45.

(** What the [domains] policy leaves of the row [r] when the ids [ids]
    are worked through with the random source going from state [k] to
    [k']: the token of the host found in the URL, which contains no
    string [d] (the host, the stemmed domain) that has a character no
    token has. *)
Definition domain_policy_applied (k k' : nat) (ids : list Z) (r r' : url_row) : Prop :=
  if mem (u_id r) ids && _is_url (u_url r)
  then exists host j,
         _is_url_r (u_url r) = Some host
         /\ (k <= j < k')%nat
         /\ r' = set_domains (anonym_id (fst (_hash_domain j host)) (u_id r)) r
         /\ (forall d c, In c d -> token_char c = false ->
                         contains d (u_url r') = false)
  else r' = r.

(** What any update leaves of a row: its id and its counters; the row
    is untouched or carries the placeholder title. *)
Definition row_kept (r r' : url_row) : Prop :=
  u_id r' = u_id r
  /\ u_visit_count r' = u_visit_count r
  /\ u_typed r' = u_typed r
  /\ u_last_visit_date r' = u_last_visit_date r
  /\ (r' = r \/ u_title r' = Some stars).

(** What the [urls] policy leaves of the row [r] when the ids [ids] are
    worked through. *)
Definition urls_policy_applied (ids : list Z) (r r' : url_row) : Prop :=
  if mem (u_id r) ids && _is_url (u_url r)
  then r' = set_urls (_stem_url (u_url r) ++ lit "/" ++ stars) r
  else r' = r.

(** The row that [SELECT url, rev_host FROM urls WHERE id = ?] finds
    first has no host part. *)
Definition settled (db : store) (i : Z) : Prop :=
  match select_url db i with
  | (entry_url, _) :: _ => _is_url_r entry_url = None
  | [] => False
  end.

(** The key [select_domains] files a row under, and the rows of a key. *)
Definition domain_of (stem_urls : bool) (u : url_row) : str :=
  if stem_urls then _stem_url (u_url u) else u_url u.

Definition rows_of (stem_urls : bool) (domain : str) (db : store) : list url_row :=
  filter (fun u => str_eqb (domain_of stem_urls u) domain) (tbl_urls db).

(** No host part of a stored URL holds an anonymised token. *)
Definition token_free (db : store) : Prop :=
  forall r host, In r (tbl_urls db) -> _is_url_r (u_url r) = Some host ->
                 re_search anonym_pattern host = None.

(** The values the id generator yields from [g] on. *)
Definition ids_from (g : Z) (n : nat) : list Z :=
  List.map (fun j => g + Z.of_nat j) (seq 0 n).

(** The fields of the tuples the extractors build. *)
Definition plist_tuple_id (t : plist_url_tuple) : Z :=
  let '(_id, _, _, _, _, _) := t in _id.

Definition plist_tuple_date (t : plist_url_tuple) : Z :=
  let '(_, last_visit_date, _, _, _, _) := t in last_visit_date.

Definition plist_tuple_url (t : plist_url_tuple) : str :=
  let '(_, _, _, _, url, _) := t in url.

Definition ese_tuple_id (t : ese_url_tuple) : Z := snd (fst t).

(** The entries of a property list that pass the URL test and the
    cutoff. *)
Definition plist_kept (self : BrowsingHistory) (item : plist_item) : bool :=
  match _convert_timestamp (pi_lastVisitedDate item) (_browser_name self) (lit "utc") with
  | Ok date => _is_url (pi_url item) && (_min_date self <=? date)
  | Raise _ => false
  end.

(** What the loop over the records of WebCacheV01.dat keeps true of its
    state. *)
Definition ese_numbered (st : ese_state) : Prop :=
  let '(g, d, v) := st in
  g = 1 + Z.of_nat (List.length d)
  /\ NoDup (List.map fst d)
  /\ List.map (fun kv => unique_id (snd kv)) d = ids_from 1 (List.length d)
  /\ List.map snd v = ids_from 1 (List.length d).

(** What holds of an item of the dict of search terms, built from the
    rows [us]: the count is the number of ids, the domains are listed
    once each, the stored match decodes to the term, and every id is
    that of a row whose URL has a match that decodes to the term and
    whose stem is among the domains. *)
Definition term_entry_ok (us : list url_row) (p : str * term_entry) : Prop :=
  t_count (snd p) = Z.of_nat (List.length (t_ids (snd p)))
  /\ t_ids (snd p) <> []
  /\ NoDup (t_urls (snd p))
  /\ unquote_plus (t_match (snd p)) = fst p
  /\ forall i, In i (t_ids (snd p)) ->
       exists u, In u us /\ u_id u = i
                 /\ In (_stem_url (u_url u)) (t_urls (snd p))
                 /\ In (fst p) (List.map unquote_plus (findall_terms (u_url u))).

(** The row of the query that an entry was made of, and the text of its
    date. *)
Definition entry_row (t : entry) : Z * Z * str * Z :=
  (fst (fst (fst (fst t))), entry_date t, entry_url t, entry_count t).

Definition entry_text (t : entry) : str := snd (fst (fst (fst t))).

Definition database_path : str := lit "tmp/browsing_history.db".

(** * Properties *)

(** ** Strings and searches *)

Lemma str_eqb_eq (a b : str) : str_eqb a b = true <-> a = b.
Proof.
  revert b; induction a as [|x a IH]; intros [|y b]; simpl; split; intro H;
    try reflexivity; try discriminate.
  - apply andb_true_iff in H as [H1 H2].
    apply N.eqb_eq in H1; apply IH in H2; congruence.
  - injection H as -> ->.
    rewrite N.eqb_refl; simpl; now apply IH.
Qed.

Lemma str_eqb_refl (a : str) : str_eqb a a = true.
Proof. now apply str_eqb_eq. Qed.

Lemma str_eqb_neq (a b : str) : str_eqb a b = false <-> a <> b.
Proof.
  split.
  - intros H E; apply str_eqb_eq in E; congruence.
  - intro H; destruct (str_eqb a b) eqn:E; [apply str_eqb_eq in E; contradiction | reflexivity].
Qed.

Lemma strip_prefix_Some (p u r : str) : strip_prefix p u = Some r <-> u = p ++ r.
Proof.
  revert u; induction p as [|x p IH]; intros u; simpl.
  - split; congruence.
  - destruct u as [|y u]; [split; discriminate|].
    destruct (N.eqb_spec x y) as [->|N].
    + rewrite IH; split; congruence.
    + split; [discriminate | congruence].
Qed.

Lemma strip_prefix_app (p r : str) : strip_prefix p (p ++ r) = Some r.
Proof. now apply strip_prefix_Some. Qed.

Lemma take_while_Forall (f : N -> bool) (u : str) :
  Forall (fun c => f c = true) (take_while f u).
Proof.
  induction u as [|c u IH]; simpl; [constructor|].
  destruct (f c) eqn:E; constructor; assumption.
Qed.

Lemma take_drop_while (f : N -> bool) (u : str) :
  take_while f u ++ drop_while f u = u.
Proof.
  induction u as [|c u IH]; simpl; [reflexivity|].
  destruct (f c); simpl; congruence.
Qed.

Lemma take_while_all (f : N -> bool) (u r : str) :
  Forall (fun c => f c = true) u ->
  match r with [] => True | c :: _ => f c = false end ->
  take_while f (u ++ r) = u /\ drop_while f (u ++ r) = r.
Proof.
  intros Hu Hr; induction Hu as [|c u Hc _ IH]; simpl.
  - destruct r as [|c r]; simpl; [auto|]. now rewrite Hr.
  - rewrite Hc. destruct IH as [-> ->]; auto.
Qed.

Lemma re_search_Some (m : str -> option str) (u a : str) :
  re_search m u = Some a -> exists n, m (skipn n u) = Some a.
Proof.
  induction u as [|c u IH]; simpl.
  - destruct (m []) eqn:E; [|discriminate]. intros [= <-]; now exists 0%nat.
  - destruct (m (c :: u)) eqn:E.
    + intros [= <-]; now exists 0%nat.
    + intros H; destruct (IH H) as [n Hn]; now exists (S n).
Qed.

Lemma re_search_None (m : str -> option str) (u : str) :
  re_search m u = None <-> forall n, m (skipn n u) = None.
Proof.
  induction u as [|c u IH]; simpl.
  - destruct (m []) eqn:E; split; try discriminate; auto.
    + intros H; specialize (H 0%nat); simpl in H; congruence.
    + intros _ n; now rewrite skipn_nil.
  - destruct (m (c :: u)) eqn:E; split; try discriminate.
    + intros H; specialize (H 0%nat); simpl in H; congruence.
    + intros H [|n]; simpl; [assumption | now apply IH].
    + intros H; apply IH; intros n; exact (H (S n)).
Qed.

Lemma re_search_head (m : str -> option str) (u a : str) :
  m u = Some a -> re_search m u = Some a.
Proof. intros H; destruct u; simpl; now rewrite H. Qed.

(** A pattern that matches in a prefix of [u] at some place matches in [u]
    at that place; so a search that fails in [u] fails in every prefix. *)
Lemma re_search_prefix (m : str -> option str) :
  (forall k u, m u = None -> m (firstn k u) = None) ->
  forall k u, re_search m u = None -> re_search m (firstn k u) = None.
Proof.
  intros Hm k u H; rewrite re_search_None in *; intros n.
  destruct (Nat.le_gt_cases k n) as [L|L].
  - rewrite skipn_all2 by (rewrite length_firstn; lia).
    specialize (H (List.length u)); rewrite skipn_all in H.
    specialize (Hm 0%nat _ H); now rewrite firstn_O in Hm.
  - rewrite skipn_firstn_comm. apply Hm, H.
Qed.

Lemma re_search_suffix (m : str -> option str) (k : nat) (u : str) :
  re_search m u = None -> re_search m (skipn k u) = None.
Proof.
  rewrite !re_search_None; intros H n.
  rewrite skipn_skipn; apply H.
Qed.

(** ** Domain stemming *)

Lemma host_char_no_slash (c : N) : host_char c = true -> c <> slash.
Proof. intros H ->; discriminate H. Qed.

Lemma is_word_no_slash (c : N) : is_word c = true -> c <> slash.
Proof. intros H ->; discriminate H. Qed.

Lemma is_word_hyphen : is_word 45 = false.
Proof. reflexivity. Qed.

Lemma Forall_no_slash (f : N -> bool) (u : str) :
  (forall c, f c = true -> c <> slash) ->
  Forall (fun c => f c = true) u -> no_slash u.
Proof.
  intros Hf Hu Hin. rewrite Forall_forall in Hu.
  exact (Hf _ (Hu _ Hin) eq_refl).
Qed.

Lemma no_slash_app (u v : str) : no_slash (u ++ v) <-> no_slash u /\ no_slash v.
Proof.
  unfold no_slash; rewrite in_app_iff. split.
  - intros H; split; intros I; apply H; [now left | now right].
  - intros [H1 H2] [I | I]; [now apply H1 | now apply H2].
Qed.

Lemma no_slash_skipn (n : nat) (u : str) : no_slash u -> no_slash (skipn n u).
Proof.
  intros H Hin. apply H. rewrite <- (firstn_skipn n u). apply in_or_app; now right.
Qed.

Lemma url_pattern_slash (u m : str) : url_pattern u = Some m -> In slash u.
Proof.
  unfold url_pattern. destruct (strip_prefix (lit "://") u) as [r|] eqn:E; [|discriminate].
  intros _. apply strip_prefix_Some in E; subst u. simpl; auto.
Qed.

Lemma no_slash_no_url (u : str) : no_slash u -> _is_url_r u = None.
Proof.
  intros H. apply re_search_None. intros n.
  destruct (url_pattern (skipn n u)) as [m|] eqn:E; [|reflexivity].
  apply url_pattern_slash in E. now apply no_slash_skipn with (n := n) in H.
Qed.

Lemma url_pattern_host (u m : str) :
  url_pattern u = Some m -> m <> [] /\ Forall (fun c => host_char c = true) m.
Proof.
  unfold url_pattern. destruct (strip_prefix (lit "://") u) as [r|]; [|discriminate].
  pose proof (take_while_Forall host_char r) as F.
  destruct (take_while host_char r) as [|c w]; [discriminate|].
  intros [= <-]; split; [discriminate | assumption].
Qed.

Lemma is_url_r_host (u m : str) :
  _is_url_r u = Some m -> m <> [] /\ Forall (fun c => host_char c = true) m.
Proof.
  intros H. apply re_search_Some in H as [n Hn]. now apply url_pattern_host in Hn.
Qed.

Lemma take_while_app_nonempty (f : N -> bool) (r t : str) :
  take_while f r <> [] -> take_while f (r ++ t) <> [].
Proof.
  destruct r as [|c r]; simpl; [congruence|].
  destruct (f c); [discriminate | congruence].
Qed.

Lemma url_pattern_prefix (k : nat) (u : str) :
  url_pattern u = None -> url_pattern (firstn k u) = None.
Proof.
  intros H. destruct (url_pattern (firstn k u)) as [m|] eqn:E; [exfalso|reflexivity].
  unfold url_pattern in E, H.
  destruct (strip_prefix (lit "://") (firstn k u)) as [r|] eqn:P; [|discriminate].
  apply strip_prefix_Some in P.
  rewrite <- (firstn_skipn k u), P, <- app_assoc, strip_prefix_app in H.
  assert (N : take_while host_char r <> []) by (destruct (take_while host_char r); congruence).
  apply take_while_app_nonempty with (t := skipn k u) in N.
  destruct (take_while host_char (r ++ skipn k u)); congruence.
Qed.

Lemma anonym_pattern_shape (u y : str) : anonym_pattern u = Some y -> token_shape y.
Proof.
  unfold anonym_pattern.
  destruct (strip_prefix (lit "anonymisiert-") u) as [r|]; [|discriminate].
  pose proof (take_while_Forall is_word r) as F1.
  destruct (take_while is_word r) as [|c w1]; [discriminate|].
  destruct (strip_prefix (lit "-") (drop_while is_word r)) as [r2|]; [|discriminate].
  pose proof (take_while_Forall is_word r2) as F2.
  destruct (take_while is_word r2) as [|c2 w2]; [discriminate|].
  intros [= <-]. exists (c :: w1), (c2 :: w2); repeat split; auto; discriminate.
Qed.

Lemma anonym_pattern_app (p t y : str) :
  anonym_pattern p = Some y -> exists y', anonym_pattern (p ++ t) = Some y'.
Proof.
  unfold anonym_pattern.
  destruct (strip_prefix (lit "anonymisiert-") p) as [r|] eqn:P; [|discriminate].
  apply strip_prefix_Some in P; subst p.
  rewrite <- app_assoc, strip_prefix_app.
  pose proof (take_while_Forall is_word r) as F1.
  pose proof (take_drop_while is_word r) as TD.
  destruct (take_while is_word r) as [|c w1]; [discriminate|].
  destruct (strip_prefix (lit "-") (drop_while is_word r)) as [r2|] eqn:P2; [|discriminate].
  apply strip_prefix_Some in P2. rewrite P2 in TD.
  destruct (take_while is_word r2) as [|c2 w2] eqn:T2; [discriminate|].
  intros _. rewrite <- TD, <- app_assoc.
  destruct (take_while_all is_word (c :: w1) ((lit "-" ++ r2) ++ t) F1 is_word_hyphen)
    as [-> ->].
  rewrite <- app_assoc, strip_prefix_app.
  assert (N : take_while is_word (r2 ++ t) <> []).
  { apply take_while_app_nonempty; rewrite T2; discriminate. }
  destruct (take_while is_word (r2 ++ t)); [congruence | eauto].
Qed.

Lemma anonym_pattern_prefix (k : nat) (u : str) :
  anonym_pattern u = None -> anonym_pattern (firstn k u) = None.
Proof.
  intros H. destruct (anonym_pattern (firstn k u)) as [y|] eqn:E; [exfalso|reflexivity].
  destruct (anonym_pattern_app _ (skipn k u) _ E) as [y' E'].
  rewrite firstn_skipn in E'. congruence.
Qed.

(** A token is the match of the pattern on itself. *)
Lemma token_self_match (y : str) : token_shape y -> re_search anonym_pattern y = Some y.
Proof.
  intros (w1 & w2 & -> & N1 & N2 & F1 & F2).
  apply re_search_head. unfold anonym_pattern. rewrite strip_prefix_app.
  destruct (take_while_all is_word w1 (lit "-" ++ w2) F1 is_word_hyphen) as [-> ->].
  destruct w1 as [|c w1]; [congruence|].
  rewrite strip_prefix_app.
  destruct (take_while_all is_word w2 [] F2 I) as [T _]. rewrite app_nil_r in T. rewrite T.
  destruct w2; [congruence | reflexivity].
Qed.

Lemma token_no_slash (y : str) : token_shape y -> no_slash y.
Proof.
  intros (w1 & w2 & -> & _ & _ & F1 & F2).
  rewrite !no_slash_app; repeat split.
  - intros H; simpl in H; unfold slash in H.
    repeat (destruct H as [H|H]; [discriminate H|]); exact H.
  - exact (Forall_no_slash _ _ is_word_no_slash F1).
  - intros H; simpl in H; unfold slash in H.
    repeat (destruct H as [H|H]; [discriminate H|]); exact H.
  - exact (Forall_no_slash _ _ is_word_no_slash F2).
Qed.

Lemma no_slash_last4 (u : str) : no_slash u -> str_eqb (last4_reversed u) (lit "***/") = false.
Proof.
  intros H. apply str_eqb_neq. intros E. apply H.
  apply in_rev. rewrite <- (firstn_skipn 4 (rev u)). apply in_or_app; left.
  unfold last4_reversed in E; rewrite E. simpl; unfold slash; auto.
Qed.

Lemma last4_split (u : str) :
  str_eqb (last4_reversed u) (lit "***/") = true -> u = drop_last4 u ++ lit "/***".
Proof.
  intros E. apply str_eqb_eq in E. unfold last4_reversed in E.
  pose proof (firstn_skipn 4 (rev u)) as S. rewrite E in S.
  apply (f_equal (@rev N)) in S. rewrite rev_involutive, rev_app_distr in S.
  unfold drop_last4. rewrite <- S at 2 3.
  rewrite length_app. change (List.length (rev (lit "***/"))) with 4%nat.
  rewrite Nat.add_sub, firstn_app, firstn_all, Nat.sub_diag, firstn_O, app_nil_r.
  rewrite <- S at 1. reflexivity.
Qed.

Lemma ends_with_twice (u : str) :
  str_eqb (last4_reversed u) (lit "***/") = true ->
  str_eqb (last4_reversed (drop_last4 u)) (lit "***/") = true ->
  ends_with (lit "/***/***") u = true.
Proof.
  intros E1 E2. apply last4_split in E1. apply last4_split in E2.
  rewrite E2 in E1. rewrite E1. unfold ends_with, starts_with.
  rewrite <- app_assoc, rev_app_distr.
  change (rev (lit "/***" ++ lit "/***")) with (rev (lit "/***/***")).
  now rewrite strip_prefix_app.
Qed.

Lemma twice_ends_with (u : str) :
  ends_with (lit "/***/***") u = true ->
  str_eqb (last4_reversed u) (lit "***/") = true
  /\ str_eqb (last4_reversed (drop_last4 u)) (lit "***/") = true.
Proof.
  unfold ends_with, starts_with.
  destruct (strip_prefix (rev (lit "/***/***")) (rev u)) as [r|] eqn:P; [|discriminate].
  intros _. apply strip_prefix_Some in P.
  apply (f_equal (@rev N)) in P. rewrite rev_involutive, rev_app_distr, rev_involutive in P.
  subst u. change (lit "/***/***") with (lit "/***" ++ lit "/***").
  assert (L : forall a : str, last4_reversed (a ++ lit "/***") = lit "***/").
  { intros a. unfold last4_reversed. now rewrite rev_app_distr. }
  assert (D : forall a : str, drop_last4 (a ++ lit "/***") = a).
  { intros a. unfold drop_last4. rewrite length_app.
    change (List.length (lit "/***")) with 4%nat.
    now rewrite Nat.add_sub, firstn_app, firstn_all, Nat.sub_diag, firstn_O, app_nil_r. }
  rewrite app_assoc, L, D, L. split; reflexivity.
Qed.

Lemma stem_unfold_no_url (y : str) :
  _is_url_r y = None ->
  _stem_url y = match re_search anonym_pattern y with
                | Some m => m
                | None => if str_eqb (last4_reversed y) (lit "***/") then drop_last4 y else y
                end.
Proof. intros H; unfold _stem_url; now rewrite H. Qed.

(** The stem of a string never has a host part of its own. *)
Lemma stem_no_url (x : str) : _is_url_r (_stem_url x) = None.
Proof.
  unfold _stem_url. destruct (_is_url_r x) as [m|] eqn:U.
  - apply is_url_r_host in U as [_ F].
    pose proof (Forall_no_slash _ _ host_char_no_slash F) as NS.
    destruct (str_eqb (firstn 4 m) (lit "www."));
      apply no_slash_no_url; [now apply no_slash_skipn | assumption].
  - destruct (re_search anonym_pattern x) as [t|] eqn:A.
    + apply re_search_Some in A as [n A]. apply anonym_pattern_shape in A.
      now apply no_slash_no_url, token_no_slash.
    + destruct (str_eqb (last4_reversed x) (lit "***/")); [|assumption].
      apply (re_search_prefix url_pattern (fun k u => url_pattern_prefix k u)), U.
Qed.

(** The supporting cases: a string with a token in it and no host, and a
    string with a host that holds no token. *)
Lemma stem_idempotent_token (x t : str) :
  _is_url_r x = None -> re_search anonym_pattern x = Some t ->
  _stem_url x = t /\ _stem_url t = t.
Proof.
  intros U A. rewrite (stem_unfold_no_url x U), A. split; [reflexivity|].
  apply re_search_Some in A as [n A]. apply anonym_pattern_shape in A.
  rewrite stem_unfold_no_url by now apply no_slash_no_url, token_no_slash.
  now rewrite token_self_match.
Qed.

Lemma stem_of_host (x m : str) :
  _is_url_r x = Some m ->
  _stem_url (_stem_url x)
  = match re_search anonym_pattern (_stem_url x) with
    | Some t => t
    | None => _stem_url x
    end.
Proof.
  intros U.
  assert (S : _stem_url x = m \/ _stem_url x = skipn 4 m).
  { unfold _stem_url; rewrite U. destruct (str_eqb (firstn 4 m) (lit "www.")); auto. }
  apply is_url_r_host in U as [_ F].
  pose proof (Forall_no_slash _ _ host_char_no_slash F) as NS.
  assert (NS' : no_slash (_stem_url x)).
  { destruct S as [-> | ->]; [assumption | now apply no_slash_skipn]. }
  rewrite (stem_unfold_no_url _ (no_slash_no_url _ NS')), no_slash_last4 by assumption.
  reflexivity.
Qed.

Lemma stem_idempotent_host (x m : str) :
  _is_url_r x = Some m -> re_search anonym_pattern m = None ->
  _stem_url (_stem_url x) = _stem_url x.
Proof.
  intros U A. rewrite (stem_of_host x m U).
  assert (S : _stem_url x = m \/ _stem_url x = skipn 4 m).
  { unfold _stem_url; rewrite U. destruct (str_eqb (firstn 4 m) (lit "www.")); auto. }
  assert (A' : re_search anonym_pattern (_stem_url x) = None).
  { destruct S as [-> | ->]; [assumption | now apply re_search_suffix]. }
  now rewrite A'.
Qed.

Lemma drop_last4_shorter (y : str) :
  str_eqb (last4_reversed y) (lit "***/") = true -> drop_last4 y <> y.
Proof.
  intros E H. apply last4_split in E. rewrite H in E.
  apply (f_equal (@List.length N)) in E. rewrite length_app in E.
  change (List.length (lit "/***")) with 4%nat in E. lia.
Qed.

(** C4, amended: stemming twice is stemming once for every string whose
    stemmed host, when the string has a host part, holds no anonymised
    token besides itself, and which, when it has neither host part nor
    token, does not end in [/***/***]. *)
Theorem stem_url_idempotent (x : str) :
  (forall m t, _is_url_r x = Some m ->
               re_search anonym_pattern (_stem_url x) = Some t -> t = _stem_url x) ->
  (_is_url_r x = None -> re_search anonym_pattern x = None ->
   ends_with (lit "/***/***") x = false) ->
  _stem_url (_stem_url x) = _stem_url x.
Proof.
  intros H1 H2. destruct (_is_url_r x) as [m|] eqn:U.
  - rewrite (stem_of_host x m U).
    destruct (re_search anonym_pattern (_stem_url x)) as [t|] eqn:A; [|reflexivity].
    exact (H1 m t eq_refl eq_refl).
  - destruct (re_search anonym_pattern x) as [t|] eqn:A.
    + destruct (stem_idempotent_token x t U A) as [-> ->]. reflexivity.
    + specialize (H2 eq_refl eq_refl).
      rewrite (stem_unfold_no_url x U), A.
      destruct (str_eqb (last4_reversed x) (lit "***/")) eqn:E1.
      * assert (U' : _is_url_r (drop_last4 x) = None)
          by apply (re_search_prefix url_pattern (fun k u => url_pattern_prefix k u)), U.
        assert (A' : re_search anonym_pattern (drop_last4 x) = None)
          by apply (re_search_prefix anonym_pattern (fun k u => anonym_pattern_prefix k u)), A.
        rewrite (stem_unfold_no_url _ U'), A'.
        destruct (str_eqb (last4_reversed (drop_last4 x)) (lit "***/")) eqn:E2; [|reflexivity].
        rewrite (ends_with_twice x E1 E2) in H2. discriminate.
      * now rewrite (stem_unfold_no_url x U), A, E1.
Qed.

(** The two conditions are the only ones under which it is. *)
Lemma stem_url_idempotent_only_if (x : str) :
  _stem_url (_stem_url x) = _stem_url x ->
  (forall m t, _is_url_r x = Some m ->
               re_search anonym_pattern (_stem_url x) = Some t -> t = _stem_url x)
  /\ (_is_url_r x = None -> re_search anonym_pattern x = None ->
      ends_with (lit "/***/***") x = false).
Proof.
  intros I. split.
  - intros m t U A. rewrite (stem_of_host x m U), A in I. exact I.
  - intros U A. destruct (ends_with (lit "/***/***") x) eqn:E; [exfalso|reflexivity].
    apply twice_ends_with in E as [E1 E2].
    assert (S : _stem_url x = drop_last4 x) by now rewrite (stem_unfold_no_url x U), A, E1.
    rewrite S in I.
    assert (U' : _is_url_r (drop_last4 x) = None)
      by apply (re_search_prefix url_pattern (fun k u => url_pattern_prefix k u)), U.
    assert (A' : re_search anonym_pattern (drop_last4 x) = None)
      by apply (re_search_prefix anonym_pattern (fun k u => anonym_pattern_prefix k u)), A.
    rewrite (stem_unfold_no_url _ U'), A', E2 in I.
    exact (drop_last4_shorter _ E2 I).
Qed.

(** ** Timestamps *)

Lemma round_half_even_Z (q : Q) (n : Z) : q == inject_Z n -> round_half_even q = n.
Proof.
  intros H. unfold round_half_even.
  assert (F : Qfloor q = n) by (rewrite H; apply Qfloor_Z).
  rewrite F.
  assert (C : Qcompare (q - inject_Z n) (1 # 2) = Lt).
  { rewrite H. unfold Qcompare, Qminus, Qplus, Qopp, inject_Z; simpl.
    apply Z.compare_lt_iff. lia. }
  now rewrite C.
Qed.

Lemma ymd_1601 : datetime_ymd 1601 1 1 = 50491209600000000.
Proof. reflexivity. Qed.

Lemma ymd_1970 : datetime_ymd 1970 1 1 = 62135683200000000.
Proof. reflexivity. Qed.

Lemma ymd_2001 : datetime_ymd 2001 1 1 = 63113990400000000.
Proof. reflexivity. Qed.

Lemma representable_bounds (t : Z) :
  representable t <-> -62135596800000000 <= t < 253402300800000000.
Proof.
  unfold representable, in_datetime_range. rewrite andb_true_iff, Z.leb_le, Z.ltb_lt.
  rewrite ymd_1970. change datetime_min with 86400000000.
  change datetime_end with 315537984000000000. lia.
Qed.

Lemma mk_timedelta_ok (us : Z) :
  -400000000000000000 <= us <= 400000000000000000 -> mk_timedelta us = Ok us.
Proof.
  intros H. unfold mk_timedelta.
  replace (Z.abs (us / us_per_day) <=? 999999999) with true; [reflexivity|].
  symmetry. apply Z.leb_le. change us_per_day with 86400000000.
  apply Z.abs_le. split.
  - apply Z.div_le_lower_bound; lia.
  - apply Z.div_le_upper_bound; lia.
Qed.

Lemma from_origin (origin delta d : Z) :
  in_datetime_range d = true ->
  d = origin + delta ->
  -400000000000000000 <= delta <= 400000000000000000 ->
  (td <- mk_timedelta delta ;; datetime_add origin td) = Ok d.
Proof.
  intros R -> B. rewrite (mk_timedelta_ok _ B). cbn [bind].
  unfold datetime_add. now rewrite R.
Qed.

(** What the three conversions from an origin return for the native
    encoding of [t]: the instant moved back by the host's UTC offset. *)
Lemma convert_timestamp_chrome (t : Z) (tz : str) :
  representable t ->
  _convert_timestamp (chrome_time t) Chrome tz = Ok (t - utcoffset * us_per_second).
Proof.
  intros R. pose proof (proj1 (representable_bounds t) R) as B.
  unfold _convert_timestamp, timedelta_microseconds, chrome_time.
  rewrite (round_half_even_Z _ (t + 11644473600000000)) by reflexivity.
  rewrite (from_origin _ _ (datetime_ymd 1970 1 1 + t)); try assumption.
  - cbn [bind]. unfold timestamp_of. f_equal. lia.
  - rewrite ymd_1601, ymd_1970. lia.
  - lia.
Qed.

Lemma convert_timestamp_ie11 (t : Z) (tz : str) :
  representable t ->
  _convert_timestamp (ie11_time t) IE11 tz = Ok (t - utcoffset * us_per_second).
Proof.
  intros R. pose proof (proj1 (representable_bounds t) R) as B.
  unfold _convert_timestamp, timedelta_microseconds, ie11_time.
  rewrite (round_half_even_Z _ (t + 11644473600000000)).
  - rewrite (from_origin _ _ (datetime_ymd 1970 1 1 + t)); try assumption.
    + cbn [bind]. unfold timestamp_of. f_equal. lia.
    + rewrite ymd_1601, ymd_1970. lia.
    + lia.
  - unfold Qeq, Qmult, inject_Z; cbn [Qnum Qden]. lia.
Qed.

Lemma convert_timestamp_safari (t : Z) (tz : str) :
  representable t ->
  _convert_timestamp (safari_time t) Safari tz = Ok (t - utcoffset * us_per_second).
Proof.
  intros R. pose proof (proj1 (representable_bounds t) R) as B.
  unfold _convert_timestamp, timedelta_seconds, safari_time.
  rewrite (round_half_even_Z _ (t - 978307200000000)).
  - rewrite (from_origin _ _ (datetime_ymd 1970 1 1 + t)); try assumption.
    + cbn [bind]. unfold timestamp_of. f_equal. lia.
    + rewrite ymd_2001, ymd_1970. lia.
    + lia.
  - unfold Qeq, Qmult, inject_Z, us_per_second; cbn [Qnum Qden]. lia.
Qed.

(** The two conversions through [fromtimestamp] return the instant, as
    long as its local time is a [datetime]. *)
Lemma convert_timestamp_firefox (t : Z) (tz : str) :
  representable (t + utcoffset * us_per_second) ->
  _convert_timestamp (firefox_time t) Firefox tz = Ok t.
Proof.
  intros R. unfold _convert_timestamp, fromtimestamp, firefox_time.
  rewrite (round_half_even_Z _ t).
  - unfold representable in R. rewrite <- Z.add_assoc, R. cbn [bind].
    unfold timestamp_of. f_equal. lia.
  - unfold Qdiv, us_per_second. change (/ 1000000)%Q with (1 # 1000000)%Q.
    unfold Qeq, Qmult, inject_Z. cbn [Qnum Qden]. lia.
Qed.

Lemma convert_timestamp_other (t : Z) (tz : str) :
  representable (t + utcoffset * us_per_second) ->
  _convert_timestamp (posix_time t) OtherBrowser tz = Ok t.
Proof.
  intros R. unfold _convert_timestamp, fromtimestamp, posix_time.
  rewrite (round_half_even_Z _ t).
  - unfold representable in R. rewrite <- Z.add_assoc, R. cbn [bind].
    unfold timestamp_of. f_equal. lia.
  - unfold Qeq, Qmult, inject_Z, us_per_second; cbn [Qnum Qden]. lia.
Qed.

(** ** Visit aggregation *)

Lemma dict_get_app {V} (k k' : str) (v : V) (d : list (str * V)) :
  dict_get k (d ++ [(k', v)]) =
  match dict_get k d with
  | Some x => Some x
  | None => if str_eqb k' k then Some v else None
  end.
Proof.
  induction d as [|[k0 v0] d IH]; simpl; [reflexivity|].
  destruct (str_eqb k0 k); [reflexivity | exact IH].
Qed.

Lemma dict_get_update {V} (k k' : str) (f : V -> V) (d : list (str * V)) :
  dict_get k (dict_update k' f d) =
  if str_eqb k' k then option_map f (dict_get k d) else dict_get k d.
Proof.
  induction d as [|[k0 v0] d IH]; simpl.
  - now destruct (str_eqb k' k).
  - destruct (str_eqb k0 k') eqn:E0; simpl.
    + apply str_eqb_eq in E0; subst k0.
      destruct (str_eqb k' k); reflexivity.
    + destruct (str_eqb k0 k) eqn:E1; [|exact IH].
      apply str_eqb_eq in E1; subst k0.
      destruct (str_eqb k' k) eqn:E2; [|reflexivity].
      apply str_eqb_eq in E2; subst k'. rewrite str_eqb_refl in E0; discriminate.
Qed.

Lemma fold_add (l : list Z) (a : Z) : fold_left Z.add l a = a + sum l.
Proof.
  unfold sum. revert a; induction l as [|x l IH]; intros a; simpl; [lia|].
  rewrite IH, (IH x). lia.
Qed.

Lemma sum_cons (x : Z) (l : list Z) : sum (x :: l) = x + sum l.
Proof. unfold sum at 1; simpl. rewrite fold_add. lia. Qed.

Lemma sum_app (l l' : list Z) : sum (l ++ l') = sum l + sum l'.
Proof. induction l as [|x l IH]; [reflexivity|]. simpl. rewrite !sum_cons, IH. lia. Qed.

Lemma sum_update (k : str) (x : Z) (d : list (str * Z)) :
  dict_get k d <> None ->
  sum (List.map snd (dict_update k (fun c => c + x) d)) = sum (List.map snd d) + x.
Proof.
  induction d as [|[k0 v0] d IH]; simpl; [congruence|].
  destruct (str_eqb k0 k); simpl; intros H; rewrite !sum_cons; [lia|].
  rewrite IH by assumption. lia.
Qed.

Lemma visits_step_get (domain : str) (d : list (str * Z)) (seen : list Z) (r : str * Z * Z) :
  dict_get domain (fst (visits_step (d, seen) r)) =
  match dict_get domain d with
  | Some c =>
      Some (if str_eqb (row_domain r) domain && negb (mem (snd r) seen)
            then c + row_count r else c)
  | None =>
      if str_eqb (row_domain r) domain
      then Some (if mem (snd r) seen then 0 else row_count r)
      else None
  end.
Proof.
  unfold visits_step, row_domain, row_count.
  set (dom := _stem_url (fst (fst r))).
  destruct (str_eqb dom domain) eqn:E.
  - apply str_eqb_eq in E; subst domain.
    destruct (dict_get dom d) as [c|] eqn:G; destruct (mem (snd r) seen); simpl;
      rewrite ?dict_get_update, ?dict_get_app, ?G, ?str_eqb_refl; reflexivity.
  - destruct (dict_get dom d) as [c0|] eqn:G0; destruct (mem (snd r) seen); simpl;
      rewrite ?dict_get_update, ?dict_get_app, ?E; destruct (dict_get domain d); reflexivity.
Qed.

Lemma visits_step_seen (d : list (str * Z)) (seen : list Z) (r : str * Z * Z) :
  snd (visits_step (d, seen) r) = if mem (snd r) seen then seen else snd r :: seen.
Proof. unfold visits_step. now destruct (mem (snd r) seen). Qed.

Lemma visit_totals_get (domain : str) (rows : list (str * Z * Z)) :
  forall d seen,
    dict_get domain (fst (fold_left visits_step rows (d, seen))) =
    match dict_get domain d with
    | Some c => Some (c + counted_for domain seen rows)
    | None =>
        if existsb (fun r => str_eqb (row_domain r) domain) rows
        then Some (counted_for domain seen rows)
        else None
    end.
Proof.
  induction rows as [|r rows IH]; intros d seen.
  - simpl. destruct (dict_get domain d); [|reflexivity].
    f_equal. unfold counted_for, sum; simpl. lia.
  - cbn [fold_left]. rewrite (surjective_pairing (visits_step (d, seen) r)).
    rewrite IH, visits_step_get, visits_step_seen.
    unfold counted_for. cbn [first_sightings existsb].
    destruct (dict_get domain d) as [c|];
      destruct (str_eqb (row_domain r) domain) eqn:E;
      destruct (mem (snd r) seen); cbn [andb negb orb filter List.map];
      rewrite ?E, ?sum_cons; cbn [List.map]; rewrite ?sum_cons;
      try reflexivity; try (f_equal; lia).
    all: destruct (existsb _ rows); reflexivity.
Qed.

Lemma visit_totals_repeat (url : str) (count id : Z) (n : nat) :
  visit_totals (repeat (url, count, id) (S n)) = [(_stem_url url, count)].
Proof.
  unfold visit_totals. cbn [repeat fold_left].
  assert (S1 : visits_step ([], []) (url, count, id) = ([(_stem_url url, count)], [id])).
  { unfold visits_step; simpl. now rewrite str_eqb_refl. }
  rewrite S1. induction n as [|n IH]; [reflexivity|].
  cbn [repeat fold_left].
  assert (S2 : visits_step ([(_stem_url url, count)], [id]) (url, count, id)
               = ([(_stem_url url, count)], [id])).
  { unfold visits_step; simpl. now rewrite str_eqb_refl, Z.eqb_refl. }
  now rewrite S2.
Qed.

Lemma mem_cons_other (x i : Z) (ids : list Z) : x <> i -> mem x (i :: ids) = mem x ids.
Proof. intros N. unfold mem; cbn [existsb]. now rewrite (proj2 (Z.eqb_neq x i) N). Qed.

Lemma mem_cons_same (i : Z) (ids : list Z) : mem i (i :: ids) = true.
Proof. unfold mem; cbn [existsb]. now rewrite Z.eqb_refl. Qed.

(** The first sightings carry every id once, none that was seen. *)
Lemma first_sightings_ids (rows : list (str * Z * Z)) :
  forall seen,
    NoDup (List.map snd (first_sightings seen rows))
    /\ forall r, In r (first_sightings seen rows) -> In r rows /\ mem (snd r) seen = false.
Proof.
  induction rows as [|r0 rows IH]; intros seen; cbn [first_sightings].
  - split; [constructor | contradiction].
  - destruct (mem (snd r0) seen) eqn:M.
    + destruct (IH seen) as [ND I]. split; [exact ND|].
      intros r Ir. destruct (I r Ir). split; [now right | assumption].
    + destruct (IH (snd r0 :: seen)) as [ND I]. split.
      * cbn [List.map]. constructor; [|exact ND].
        intros Ir. apply in_map_iff in Ir as (r & E & Ir).
        destruct (I r Ir) as [_ Mr]. rewrite E, mem_cons_same in Mr. discriminate.
      * intros r [<- | Ir]; [split; [now left | exact M]|].
        destruct (I r Ir) as [Ir' Mr]. split; [now right|].
        unfold mem in Mr |- *. cbn [existsb] in Mr. now apply orb_false_iff in Mr as [_ Mr].
Qed.

Lemma first_sightings_covers (rows : list (str * Z * Z)) :
  forall seen r, In r rows -> mem (snd r) seen = false ->
    exists r', In r' (first_sightings seen rows) /\ snd r' = snd r.
Proof.
  induction rows as [|r0 rows IH]; intros seen r I M; [contradiction|].
  cbn [first_sightings]. destruct I as [-> | I].
  - rewrite M. exists r. split; [now left | reflexivity].
  - destruct (mem (snd r0) seen) eqn:M0; [now apply IH|].
    destruct (Z.eq_dec (snd r) (snd r0)) as [E|N].
    + exists r0. split; [now left | now symmetry].
    + destruct (IH (snd r0 :: seen) r I) as (r' & I' & E').
      { now rewrite (mem_cons_other _ _ _ N). }
      exists r'. split; [now right | exact E'].
Qed.

(** When the id decides the row, the first sightings are the rows, each
    taken once. *)
Lemma first_sightings_perm (rows l : list (str * Z * Z)) :
  (forall r r', In r rows -> In r' rows -> snd r = snd r' -> r = r') ->
  NoDup l ->
  (forall r, In r l <-> In r rows) ->
  Permutation (first_sightings [] rows) l.
Proof.
  intros Same ND Iff. destruct (first_sightings_ids rows []) as [NF IF].
  apply NoDup_Permutation; [now apply NoDup_map_inv in NF | exact ND|].
  intros r. split.
  - intros I. apply Iff. now apply IF.
  - intros I. apply Iff in I.
    destruct (first_sightings_covers rows [] r I eq_refl) as (r' & I' & E).
    now rewrite <- (Same r' r (proj1 (IF r' I')) I E).
Qed.

Lemma filter_map_comm {A B} (f : B -> bool) (g : A -> B) (l : list A) :
  filter f (List.map g l) = List.map g (filter (fun a => f (g a)) l).
Proof.
  induction l as [|a l IH]; simpl; [reflexivity|].
  destruct (f (g a)); simpl; now rewrite IH.
Qed.

Lemma nonempty_filter {A} (f : A -> bool) (l : list A) :
  nonempty (filter f l) = true <-> exists x, In x l /\ f x = true.
Proof.
  split.
  - destruct (filter f l) as [|x t] eqn:E; [discriminate|]. intros _.
    exists x. apply filter_In. rewrite E. now left.
  - intros (x & I & F). assert (I' : In x (filter f l)) by now apply filter_In.
    now destruct (filter f l).
Qed.

Lemma NoDup_map_injective {A B} (f : A -> B) (l : list A) (x y : A) :
  NoDup (List.map f l) -> In x l -> In y l -> f x = f y -> x = y.
Proof.
  induction l as [|a l IH]; intros ND Ix Iy E; [contradiction|].
  cbn [List.map] in ND. apply NoDup_cons_iff in ND as [NI ND].
  destruct Ix as [<- | Ix], Iy as [<- | Iy]; try reflexivity.
  - exfalso. apply NI. rewrite E. now apply in_map.
  - exfalso. apply NI. rewrite <- E. now apply in_map.
  - now apply IH.
Qed.

Lemma NoDup_map_filter {A B} (f : A -> B) (p : A -> bool) (l : list A) :
  NoDup (List.map f l) -> NoDup (List.map f (filter p l)).
Proof.
  induction l as [|a l IH]; intros ND; [constructor|].
  cbn [List.map] in ND. apply NoDup_cons_iff in ND as [NI ND].
  cbn [filter]. destruct (p a); [|now apply IH].
  cbn [List.map]. constructor; [|now apply IH].
  intros I. apply NI. apply in_map_iff in I as (x & E & I).
  apply filter_In in I as [I _]. rewrite <- E. now apply in_map.
Qed.

Lemma perm_filter {A} (p : A -> bool) (l l' : list A) :
  Permutation l l' -> Permutation (filter p l) (filter p l').
Proof.
  induction 1 as [|x l l' _ IH|x y l|l l' l'' _ IH1 _ IH2]; cbn [filter].
  - constructor.
  - destruct (p x); [now constructor | exact IH].
  - destruct (p x), (p y); try apply Permutation_refl. apply perm_swap.
  - now transitivity (filter p l').
Qed.

Lemma sum_perm (l l' : list Z) : Permutation l l' -> sum l = sum l'.
Proof.
  induction 1 as [|x l l' _ IH|x y l|l l' l'' _ IH1 _ IH2].
  - reflexivity.
  - rewrite !sum_cons. lia.
  - rewrite !sum_cons. lia.
  - congruence.
Qed.

(** The rows of the query are those of the visited URLs. *)
Lemma visits_query_In (db : store) (date : option (Z * Z)) (r : str * Z * Z) :
  In r (visits_query db date) <-> In r (List.map url_query_row (visited_urls db date)).
Proof.
  unfold visits_query, visited_urls, joined_visits. rewrite in_flat_map, in_map_iff. split.
  - intros (v & Iv & Ir). apply filter_In in Iv as [Iv D].
    apply in_map_iff in Ir as (u & <- & Iu). apply filter_In in Iu as [Iu E].
    exists u. split; [reflexivity|]. apply filter_In. split; [exact Iu|].
    apply nonempty_filter. exists v. split; [exact Iv | now rewrite E, D].
  - intros (u & <- & Iu). apply filter_In in Iu as [Iu N].
    apply nonempty_filter in N as (v & Iv & C). apply andb_true_iff in C as [E D].
    exists v. split; [now apply filter_In|].
    apply in_map. now apply filter_In.
Qed.

Lemma first_sightings_store (db : store) (date : option (Z * Z)) :
  NoDup (List.map u_id (tbl_urls db)) ->
  Permutation (first_sightings [] (visits_query db date))
    (List.map url_query_row (visited_urls db date)).
Proof.
  intros ND. apply first_sightings_perm.
  - intros r r' I I' E.
    apply visits_query_In, in_map_iff in I as (u & <- & Iu).
    apply visits_query_In, in_map_iff in I' as (u' & <- & Iu').
    unfold visited_urls in Iu, Iu'. apply filter_In in Iu as [Iu _].
    apply filter_In in Iu' as [Iu' _]. cbn [url_query_row snd] in E.
    now rewrite (NoDup_map_injective u_id (tbl_urls db) u u' ND Iu Iu' E).
  - apply NoDup_map_inv with (f := snd). rewrite map_map. cbn [url_query_row snd].
    unfold visited_urls. now apply NoDup_map_filter.
  - intros r. symmetry. apply visits_query_In.
Qed.

Lemma visit_totals_store (db : store) (date : option (Z * Z)) (domain : str) :
  NoDup (List.map u_id (tbl_urls db)) ->
  dict_get domain (visit_totals (visits_query db date)) =
  match visited_urls_of domain db date with
  | [] => None
  | here => Some (sum (List.map u_visit_count here))
  end.
Proof.
  intros ND. unfold visit_totals. rewrite visit_totals_get. cbn [dict_get].
  unfold counted_for.
  pose proof (perm_filter (fun r => str_eqb (row_domain r) domain) _ _
                (first_sightings_store db date ND)) as P.
  rewrite filter_map_comm in P.
  change (fun u => str_eqb (row_domain (url_query_row u)) domain)
    with (fun u => str_eqb (_stem_url (u_url u)) domain) in P.
  fold (visited_urls_of domain db date) in P.
  rewrite (sum_perm _ _ (Permutation_map row_count P)), map_map.
  change (fun u => row_count (url_query_row u)) with u_visit_count.
  assert (E : existsb (fun r => str_eqb (row_domain r) domain) (visits_query db date)
              = nonempty (visited_urls_of domain db date)).
  { apply eq_true_iff_eq. rewrite existsb_exists. unfold visited_urls_of.
    rewrite nonempty_filter. split.
    - intros (r & I & D). apply visits_query_In, in_map_iff in I as (u & <- & Iu). eauto.
    - intros (u & Iu & D). exists (url_query_row u). split; [|exact D].
      apply visits_query_In. now apply in_map. }
  rewrite E. now destruct (visited_urls_of domain db date).
Qed.

(** C3: the total the aggregation holds for a domain is the sum of the
    visit counts of the rows that carry a URL identifier for the first
    time and stem to that domain, whatever the number of further rows
    with the same identifier; [N] rows for one identifier give the
    domain that URL's count once; and over a store, where the identifier
    is a key, the total of a domain is the sum of the visit counts of the
    visited URLs that stem to it, each taken once. *)
Theorem visits_counts_each_url_once :
  (forall (rows : list (str * Z * Z)) (domain : str),
      dict_get domain (visit_totals rows) =
      if existsb (fun r => str_eqb (row_domain r) domain) rows
      then Some (counted_for domain [] rows)
      else None)
  /\ (forall (url : str) (count id : Z) (n : nat),
         visit_totals (repeat (url, count, id) (S n)) = [(_stem_url url, count)])
  /\ (forall (db : store) (date : option (Z * Z)) (domain : str),
         NoDup (List.map u_id (tbl_urls db)) ->
         dict_get domain (visit_totals (visits_query db date)) =
         match visited_urls_of domain db date with
         | [] => None
         | here => Some (sum (List.map u_visit_count here))
         end).
Proof.
  split; [|split].
  - intros rows domain. unfold visit_totals. now rewrite visit_totals_get.
  - exact visit_totals_repeat.
  - exact visit_totals_store.
Qed.

Lemma visits_step_sum (d : list (str * Z)) (seen : list Z) (r : str * Z * Z) :
  sum (List.map snd (fst (visits_step (d, seen) r))) =
  sum (List.map snd d) + (if mem (snd r) seen then 0 else row_count r).
Proof.
  unfold visits_step, row_count.
  set (dom := _stem_url (fst (fst r))).
  assert (A : forall d' : list (str * Z), sum (List.map snd (d' ++ [(dom, 0)])) = sum (List.map snd d')).
  { intros d'. rewrite map_app, sum_app. unfold sum at 2; simpl. lia. }
  destruct (dict_get dom d) as [c|] eqn:G; destruct (mem (snd r) seen); cbn [fst].
  - lia.
  - rewrite sum_update; [reflexivity | congruence].
  - rewrite A. lia.
  - rewrite sum_update, A; [reflexivity|].
    rewrite dict_get_app, G, str_eqb_refl. discriminate.
Qed.

Lemma visit_totals_sum (rows : list (str * Z * Z)) :
  forall d seen,
    sum (List.map snd (fst (fold_left visits_step rows (d, seen)))) =
    sum (List.map snd d) + sum (List.map row_count (first_sightings seen rows)).
Proof.
  induction rows as [|r rows IH]; intros d seen.
  - simpl. unfold sum at 3; simpl. lia.
  - cbn [fold_left first_sightings]. rewrite (surjective_pairing (visits_step (d, seen) r)).
    rewrite IH, visits_step_sum, visits_step_seen.
    destruct (mem (snd r) seen); cbn [List.map]; rewrite ?sum_cons; lia.
Qed.

Lemma length_dict_update {V} (k : str) (f : V -> V) (d : list (str * V)) :
  List.length (dict_update k f d) = List.length d.
Proof.
  induction d as [|[k0 v0] d IH]; simpl; [reflexivity|].
  destruct (str_eqb k0 k); simpl; congruence.
Qed.

Lemma visits_step_length (d : list (str * Z)) (seen : list Z) (r : str * Z * Z) :
  (1 <= List.length (fst (visits_step (d, seen) r)))%nat
  /\ (List.length d <= List.length (fst (visits_step (d, seen) r)))%nat.
Proof.
  unfold visits_step.
  destruct (dict_get _ d) eqn:G; destruct (mem (snd r) seen); cbn [fst];
    rewrite ?length_dict_update, ?length_app; simpl; try lia.
  all: destruct d; simpl in *; [discriminate | lia].
Qed.

Lemma visit_totals_length (rows : list (str * Z * Z)) :
  forall d seen,
    (List.length d <= List.length (fst (fold_left visits_step rows (d, seen))))%nat.
Proof.
  induction rows as [|r rows IH]; intros d seen; [simpl; lia|].
  cbn [fold_left]. rewrite (surjective_pairing (visits_step (d, seen) r)).
  pose proof (visits_step_length d seen r) as [_ L].
  etransitivity; [exact L | apply IH].
Qed.

Lemma visit_totals_nonempty (rows : list (str * Z * Z)) :
  rows <> [] -> visit_totals rows <> [].
Proof.
  destruct rows as [|r rows]; [congruence|]. intros _ E.
  unfold visit_totals in E. cbn [fold_left] in E.
  rewrite (surjective_pairing (visits_step ([], []) r)) in E.
  pose proof (visit_totals_length rows (fst (visits_step ([], []) r))
                (snd (visits_step ([], []) r))) as L.
  pose proof (visits_step_length [] [] r) as [L1 _].
  rewrite E in L. cbn [List.length] in L. lia.
Qed.

Lemma length_insert_sorted {A} (le : A -> A -> bool) (x : A) (l : list A) :
  List.length (insert_sorted le x l) = S (List.length l).
Proof.
  induction l as [|y l IH]; simpl; [reflexivity|].
  destruct (le x y); simpl; congruence.
Qed.

Lemma length_sorted {A} (le : A -> A -> bool) (l : list A) :
  List.length (sorted le l) = List.length l.
Proof.
  induction l as [|x l IH]; simpl; [reflexivity|].
  now rewrite length_insert_sorted, IH.
Qed.

Lemma mapM_ok {A B} (f : A -> result B) (g : A -> B) (l : list A) :
  (forall a, f a = Ok (g a)) -> mapM f l = Ok (List.map g l).
Proof.
  intros H; induction l as [|a l IH]; simpl; [reflexivity|].
  now rewrite H, IH.
Qed.

(** The parts of [visits] after the aggregation, on its totals [d]. *)
Lemma visits_zero_total (db : store) (date : option (Z * Z)) (n : option Z) (ascending : bool) :
  visits_query db date <> [] ->
  sum (List.map row_count (first_sightings [] (visits_query db date))) = 0 ->
  match n with
  | None => True
  | Some k => 0 <= k
  end ->
  visits db date n ascending =
  if ascending && match n with
                  | None => true
                  | Some k => k =? 0
                  end
  then Ok [] else Raise ZeroDivisionError.
Proof.
  intros NE Z0 Hn. unfold visits.
  pose proof (visit_totals_nonempty _ NE) as DN.
  pose proof (visit_totals_sum (visits_query db date) [] []) as T.
  fold (visit_totals (visits_query db date)) in T.
  change (sum (List.map snd [])) with 0 in T. rewrite Z0 in T. simpl in T.
  set (d := visit_totals (visits_query db date)) in *.
  rewrite T.
  set (l := sorted (fun a b : str * Z => snd a <=? snd b) d).
  assert (L : (0 < List.length l)%nat).
  { unfold l. rewrite length_sorted. destruct d; [congruence | simpl; lia]. }
  assert (R : forall od : list (str * Z), od <> [] ->
              (perc <- mapM (fun v => q <- truediv v 0 ;; Ok (round2 (q * 100)%Q))
                         (List.map snd od) ;; Ok od) = Raise ZeroDivisionError).
  { intros [|x od] Hod; [congruence | reflexivity]. }
  assert (K : forall k, 0 <= k ->
            (perc <- mapM (fun v => q <- truediv v 0 ;; Ok (round2 (q * 100)%Q))
                       (List.map snd (if ascending then slice_to k l else slice_from (- k) l)) ;;
             Ok (if ascending then slice_to k l else slice_from (- k) l))
            = if ascending && (k =? 0) then Ok [] else Raise ZeroDivisionError).
  { intros k Hk. destruct (Z.eqb_spec k 0) as [->|Nk].
    - destruct ascending; cbn [andb]; [reflexivity|].
      apply R. unfold slice_from; simpl. destruct l; [simpl in L; lia | discriminate].
    - rewrite andb_false_r. apply R. destruct ascending.
      + unfold slice_to. replace (k <? 0) with false by (symmetry; apply Z.ltb_ge; lia).
        destruct l as [|x l']; [simpl in L; lia|].
        destruct (Z.to_nat k) eqn:E; [lia | discriminate].
      + unfold slice_from. replace (- k <? 0) with true by (symmetry; apply Z.ltb_lt; lia).
        intros E. apply (f_equal (@List.length _)) in E.
        rewrite length_skipn in E. simpl in E. lia. }
  destruct n as [k|]; [exact (K k Hn)|].
  rewrite (K 0 (Z.le_refl 0)). now rewrite Z.eqb_refl.
Qed.

Lemma visits_positive_total (db : store) (date : option (Z * Z)) (n : option Z) (ascending : bool) :
  0 < sum (List.map row_count (first_sightings [] (visits_query db date))) ->
  exists od, visits db date n ascending = Ok od.
Proof.
  intros P. unfold visits.
  pose proof (visit_totals_sum (visits_query db date) [] []) as T.
  fold (visit_totals (visits_query db date)) in T.
  change (sum (List.map snd [])) with 0 in T. simpl in T.
  set (d := visit_totals (visits_query db date)) in *.
  set (total_n := sum (List.map snd d)) in *.
  eexists. rewrite (mapM_ok _ (fun v => round2 ((inject_Z v / inject_Z total_n) * 100)%Q)).
  - reflexivity.
  - intros v. unfold truediv.
    replace (total_n =? 0) with false by (symmetry; apply Z.eqb_neq; lia). reflexivity.
Qed.

Lemma sum_nonneg (l : list Z) : Forall (fun x => 0 <= x) l -> 0 <= sum l.
Proof. induction 1 as [|x l Hx _ IH]; [now vm_compute | rewrite sum_cons; lia]. Qed.

Lemma sum_zero (l : list Z) : Forall (fun x => x = 0) l -> sum l = 0.
Proof. induction 1 as [|x l Hx _ IH]; [reflexivity | rewrite sum_cons; lia]. Qed.

Lemma sum_positive (l : list Z) :
  Forall (fun x => 0 <= x) l -> Exists (fun x => 0 < x) l -> 0 < sum l.
Proof.
  intros F E; induction E as [x l Hx | x l _ IH]; inversion_clear F as [|? ? H0 F'];
    rewrite sum_cons.
  - pose proof (sum_nonneg l F'). lia.
  - specialize (IH F'). lia.
Qed.

(** C10, amended: with at least one joined row and every counted visit
    count 0 the grand total is 0, and [visits], asked for no negative
    number of domains, raises the division error whenever it keeps a
    domain at all; in ascending order with [n] absent or 0 it keeps none
    and returns the empty mapping.  When the counted visit counts are not
    negative and one of them is positive, [visits] returns. *)
Theorem visits_division_by_total (db : store) (date : option (Z * Z)) (n : option Z)
    (ascending : bool) :
  let counted := List.map row_count (first_sightings [] (visits_query db date)) in
  (visits_query db date <> [] ->
   Forall (fun c => c = 0) counted ->
   match n with
   | None => True
   | Some k => 0 <= k
   end ->
   sum counted = 0
   /\ visits db date n ascending =
      if ascending && match n with
                      | None => true
                      | Some k => k =? 0
                      end
      then Ok [] else Raise ZeroDivisionError)
  /\ (Forall (fun c => 0 <= c) counted ->
      Exists (fun c => 0 < c) counted ->
      exists od, visits db date n ascending = Ok od).
Proof.
  intros counted; split.
  - intros NE Z0 Hn. pose proof (sum_zero _ Z0) as S0. split; [exact S0|].
    now apply visits_zero_total.
  - intros F E. apply visits_positive_total. now apply sum_positive.
Qed.

(** ** The extractor of WebCacheV01.dat *)

Lemma positive_sum_nil : positive_sum [] = 0.
Proof. reflexivity. Qed.

Lemma positive_sum_cons (r : ese_record) (l : list ese_record) :
  positive_sum (r :: l) = (if 0 <? r_access_count r then r_access_count r else 0) + positive_sum l.
Proof.
  unfold positive_sum; simpl. destruct (0 <? r_access_count r); [apply sum_cons | lia].
Qed.

Lemma positive_sum_app (l l' : list ese_record) :
  positive_sum (l ++ l') = positive_sum l + positive_sum l'.
Proof.
  induction l as [|r l IH]; cbn [app]; [rewrite positive_sum_nil; lia|].
  rewrite !positive_sum_cons, IH. lia.
Qed.

Lemma merged_app (o : option (Z * option str)) (s1 s2 : list ese_record) :
  merged (merged o s1) s2 = merged o (s1 ++ s2).
Proof.
  destruct o as [[c rd]|]; simpl.
  - rewrite positive_sum_app. do 2 f_equal. lia.
  - destruct s1 as [|r0 rest]; simpl; [reflexivity|].
    rewrite positive_sum_app. do 2 f_equal. lia.
Qed.

Lemma merged_nil (o : option (Z * option str)) : merged o [] = o.
Proof.
  destruct o as [[c rd]|]; simpl; [|reflexivity].
  rewrite positive_sum_nil. do 2 f_equal. lia.
Qed.

Lemma dict_get_None {V} (k : str) (d : list (str * V)) :
  dict_get k d = None <-> ~ In k (List.map fst d).
Proof.
  induction d as [|[k0 v0] d IH]; simpl; [split; [intros _ [] | reflexivity]|].
  destruct (str_eqb k0 k) eqn:E.
  - apply str_eqb_eq in E. split; [discriminate | intros H; exfalso; apply H; now left].
  - apply str_eqb_neq in E. rewrite IH. split.
    + intros H [H1 | H1]; [now apply E | now apply H].
    + intros H I. apply H. now right.
Qed.

Lemma keys_dict_update {V} (k : str) (f : V -> V) (d : list (str * V)) :
  List.map fst (dict_update k f d) = List.map fst d.
Proof.
  induction d as [|[k0 v0] d IH]; simpl; [reflexivity|].
  destruct (str_eqb k0 k); simpl; congruence.
Qed.

Lemma NoDup_snoc {A} (l : list A) (x : A) : NoDup l -> ~ In x l -> NoDup (l ++ [x]).
Proof.
  intros N H. induction N as [|a l Ha N IH]; simpl.
  - constructor; [intros [] | constructor].
  - constructor.
    + rewrite in_app_iff. intros [I | [-> | []]]; [contradiction | apply H; now left].
    + apply IH. intros I; apply H; now right.
Qed.

Lemma ese_step_inv (self : BrowsingHistory) (cid g : Z) (d : url_dict)
    (v : list ese_visit_tuple) (rec : ese_record) :
  NoDup (List.map fst d) ->
  (exists date, _convert_timestamp (inject_Z (r_timestamp rec)) (_browser_name self)
                  (lit "utc") = Ok date) ->
  exists g' d' v',
    ese_step self cid (g, d, v) rec = Ok (g', d', v')
    /\ NoDup (List.map fst d')
    /\ forall u, option_map view (dict_get u d')
                 = merged (option_map view (dict_get u d)) (sightings self u [rec]).
Proof.
  intros ND [date C].
  assert (Hs : forall u, sightings self u [rec] =
                         if match (if _min_date self <=? date
                                   then re_search webcache_pattern (r_url rec) else None) with
                            | Some u' => str_eqb u' u
                            | None => false
                            end
                         then [rec] else []).
  { intros u. unfold sightings. cbn [filter]. unfold sights, sighting. now rewrite C. }
  unfold ese_step. rewrite C. cbn [bind].
  destruct (re_search webcache_pattern (r_url rec)) as [url|] eqn:W.
  2:{ exists g, d, v. repeat split; [assumption|].
      intros u. rewrite Hs. destruct (_min_date self <=? date); now rewrite merged_nil. }
  destruct (_min_date self <=? date).
  2:{ exists g, d, v. repeat split; [assumption | intros u; rewrite Hs; now rewrite merged_nil]. }
  destruct (dict_get url d) as [e|] eqn:G.
  - destruct (0 <? r_access_count rec) eqn:P.
    + eexists _, _, _. split; [reflexivity|]. split; [now rewrite keys_dict_update|].
      intros u. rewrite dict_get_update, Hs.
      destruct (str_eqb url u) eqn:E.
      * apply str_eqb_eq in E; subst u. rewrite G. cbn [option_map merged]. unfold view. cbn [access_count redirect_urls].
        rewrite positive_sum_cons, P, positive_sum_nil. cbn [access_count redirect_urls].
        do 2 f_equal.
        lia.
      * now rewrite merged_nil.
    + exists g, d, v. repeat split; [assumption|].
      intros u. rewrite Hs. destruct (str_eqb url u) eqn:E; [|now rewrite merged_nil].
      apply str_eqb_eq in E; subst u. rewrite G. cbn [option_map merged]. unfold view. cbn [access_count redirect_urls].
      rewrite positive_sum_cons, P, positive_sum_nil. do 2 f_equal. lia.
  - eexists _, _, _. split; [reflexivity|]. split.
    + rewrite map_app. apply NoDup_snoc; [assumption | now apply dict_get_None].
    + intros u. rewrite dict_get_app, Hs.
      destruct (str_eqb url u) eqn:E.
      * apply str_eqb_eq in E; subst u. rewrite G. cbn [option_map merged]. unfold view. cbn [access_count redirect_urls].
        rewrite positive_sum_nil. cbn [access_count redirect_urls]. do 2 f_equal. lia.
      * destruct (dict_get u d); now rewrite merged_nil.
Qed.

Lemma ese_records_inv (self : BrowsingHistory) (cid : Z) (recs : list ese_record) :
  forall (g : Z) (d : url_dict) (v : list ese_visit_tuple),
    NoDup (List.map fst d) ->
    (forall r, In r recs ->
       exists date, _convert_timestamp (inject_Z (r_timestamp r)) (_browser_name self)
                      (lit "utc") = Ok date) ->
    exists g' d' v',
      foldM (ese_step self cid) recs (g, d, v) = Ok (g', d', v')
      /\ NoDup (List.map fst d')
      /\ forall u, option_map view (dict_get u d')
                   = merged (option_map view (dict_get u d)) (sightings self u recs).
Proof.
  induction recs as [|r recs IH]; intros g d v ND H.
  - exists g, d, v. repeat split; [assumption | intros u; now rewrite merged_nil].
  - destruct (ese_step_inv self cid g d v r ND (H r (or_introl eq_refl)))
      as (g1 & d1 & v1 & S1 & ND1 & M1).
    destruct (IH g1 d1 v1 ND1 (fun r' Hr' => H r' (or_intror Hr')))
      as (g2 & d2 & v2 & S2 & ND2 & M2).
    exists g2, d2, v2. cbn [foldM].
    rewrite S1. cbn [bind]. repeat split; try assumption.
    intros u. rewrite M2, M1, merged_app. unfold sightings. cbn [filter].
    now destruct (sights self u r).
Qed.

Lemma ese_containers_inv (self : BrowsingHistory) (cs : list container) :
  forall (g : Z) (d : url_dict) (v : list ese_visit_tuple),
    NoDup (List.map fst d) ->
    (forall r, In r (history_records cs) ->
       exists date, _convert_timestamp (inject_Z (r_timestamp r)) (_browser_name self)
                      (lit "utc") = Ok date) ->
    exists g' d' v',
      foldM (ese_container_step self) cs (g, d, v) = Ok (g', d', v')
      /\ NoDup (List.map fst d')
      /\ forall u, option_map view (dict_get u d')
                   = merged (option_map view (dict_get u d))
                       (sightings self u (history_records cs)).
Proof.
  induction cs as [|c cs IH]; intros g d v ND H.
  - exists g, d, v. repeat split; [assumption | intros u; now rewrite merged_nil].
  - cbn [history_records flat_map] in H. cbn [foldM]. unfold ese_container_step at 1.
    cbn [history_records flat_map].
    destruct (str_eqb (c_name c) (lit "History")).
    + destruct (ese_records_inv self (c_id c) (c_records c) g d v ND
                  (fun r Hr => H r (in_or_app _ _ _ (or_introl Hr))))
        as (g1 & d1 & v1 & S1 & ND1 & M1).
      destruct (IH g1 d1 v1 ND1 (fun r Hr => H r (in_or_app _ _ _ (or_intror Hr))))
        as (g2 & d2 & v2 & S2 & ND2 & M2).
      exists g2, d2, v2. rewrite S1. cbn [bind]. repeat split; try assumption.
      intros u. unfold sightings. rewrite filter_app. fold (sightings self u (c_records c)).
      fold (sightings self u (history_records cs)). rewrite <- merged_app, <- M1. apply M2.
    + cbn [bind app]. apply IH; assumption.
Qed.

Lemma filter_by_key (u : str) (d : url_dict) :
  NoDup (List.map fst d) ->
  filter (fun t : ese_url_tuple => str_eqb (snd t) u)
    (List.map (fun kv => (access_count (snd kv), redirect_urls (snd kv),
                          unique_id (snd kv), fst kv)) d)
  = match dict_get u d with
    | Some e => [(access_count e, redirect_urls e, unique_id e, u)]
    | None => []
    end.
Proof.
  induction d as [|[k e] d IH]; intros ND; simpl; [reflexivity|].
  inversion_clear ND as [|? ? NI ND'].
  destruct (str_eqb k u) eqn:E.
  - apply str_eqb_eq in E; subst k. f_equal.
    rewrite IH by assumption.
    now rewrite (proj2 (dict_get_None u d) NI).
  - now apply IH.
Qed.

(** C2: the extractor returns, and the records that pass its filters and
    share one recovered URL leave one URL tuple, whose access count is
    that of the first of them plus every later one that is positive. *)
Theorem webcache_access_counts_merge (self : BrowsingHistory) (cs : list container) :
  (forall r, In r (history_records cs) ->
     exists date, _convert_timestamp (inject_Z (r_timestamp r)) (_browser_name self)
                    (lit "utc") = Ok date) ->
  exists urls visits,
    _extract_webcachev01_dat self cs = Ok (urls, visits)
    /\ forall u,
        match sightings self u (history_records cs) with
        | [] => filter (fun t : ese_url_tuple => str_eqb (snd t) u) urls = []
        | first :: later =>
            exists unique_id,
              filter (fun t : ese_url_tuple => str_eqb (snd t) u) urls
              = [(r_access_count first + positive_sum later, r_redirect first, unique_id, u)]
        end.
Proof.
  intros H.
  destruct (ese_containers_inv self cs 1 [] [] (NoDup_nil _) H) as (g & d & v & S & ND & M).
  unfold _extract_webcachev01_dat.
  replace (foldM (ese_container_step self) cs (1, [], [])) with (Ok (g, d, v))
    by (symmetry; exact S).
  cbn [bind].
  eexists _, _. split; [reflexivity|].
  intros u. rewrite (filter_by_key u d ND). specialize (M u). simpl in M.
  destruct (sightings self u (history_records cs)) as [|r0 rest];
    destruct (dict_get u d) as [e|]; simpl in M; try discriminate; [reflexivity|].
  injection M as M1 M2. exists (unique_id e). now rewrite M1, M2.
Qed.

(** ** The canonical store writer *)

Lemma has_key_app {A} (key : A -> Z) (k : Z) (t t' : list A) :
  has_key key k (t ++ t') = has_key key k t || has_key key k t'.
Proof. apply existsb_app. Qed.

Lemma insert_keeps_keys {A} (key : A -> Z) (set_key : A -> Z -> A)
    (tbl : list A) (ins : option Z * A) (k : Z) :
  has_key key k tbl = true -> has_key key k (insert_or_ignore key set_key tbl ins) = true.
Proof.
  intros H. unfold insert_or_ignore. destruct (fst ins) as [k'|].
  - destruct (has_key key k' tbl); [assumption|]. now rewrite has_key_app, H.
  - now rewrite has_key_app, H.
Qed.

Lemma executemany_keeps_keys {A} (key : A -> Z) (set_key : A -> Z -> A)
    (rows : list (option Z * A)) (k : Z) :
  forall tbl, has_key key k tbl = true -> has_key key k (executemany key set_key tbl rows) = true.
Proof.
  induction rows as [|ins rows IH]; intros tbl H; [assumption|].
  change (executemany key set_key tbl (ins :: rows))
    with (executemany key set_key (insert_or_ignore key set_key tbl ins) rows).
  apply IH. now apply insert_keeps_keys.
Qed.

Lemma insert_has_key {A} (key : A -> Z) (set_key : A -> Z -> A) (tbl : list A)
    (ins : option Z * A) (k : Z) :
  (forall r i, key (set_key r i) = i) ->
  fst ins = Some k ->
  has_key key k (insert_or_ignore key set_key tbl ins) = true.
Proof.
  intros Hset E. unfold insert_or_ignore. rewrite E.
  destruct (has_key key k tbl) eqn:H; [assumption|].
  rewrite has_key_app. simpl. now rewrite Hset, Z.eqb_refl, orb_true_r.
Qed.

Lemma executemany_has_keys {A} (key : A -> Z) (set_key : A -> Z -> A)
    (rows : list (option Z * A)) (ins : option Z * A) (k : Z) :
  (forall r i, key (set_key r i) = i) ->
  In ins rows -> fst ins = Some k ->
  forall tbl, has_key key k (executemany key set_key tbl rows) = true.
Proof.
  intros Hset I E. induction rows as [|ins' rows IH]; intros tbl; [contradiction|].
  change (executemany key set_key tbl (ins' :: rows))
    with (executemany key set_key (insert_or_ignore key set_key tbl ins') rows).
  destruct I as [-> | I].
  - apply executemany_keeps_keys. now apply insert_has_key.
  - now apply IH.
Qed.

(** Rows whose keys are all in the table leave it as it is. *)
Lemma executemany_ignored {A} (key : A -> Z) (set_key : A -> Z -> A)
    (rows : list (option Z * A)) (tbl : list A) :
  (forall ins, In ins rows -> exists k, fst ins = Some k /\ has_key key k tbl = true) ->
  executemany key set_key tbl rows = tbl.
Proof.
  induction rows as [|ins rows IH]; intros H; [reflexivity|].
  destruct (H ins (or_introl eq_refl)) as (k & E & K).
  unfold executemany; cbn [fold_left]. unfold insert_or_ignore at 2. rewrite E, K.
  apply IH. intros ins' I. apply H. now right.
Qed.

Lemma executemany_twice {A} (key : A -> Z) (set_key : A -> Z -> A)
    (rows : list (option Z * A)) (tbl : list A) :
  (forall r i, key (set_key r i) = i) ->
  (forall ins, In ins rows -> fst ins <> None) ->
  executemany key set_key (executemany key set_key tbl rows) rows
  = executemany key set_key tbl rows.
Proof.
  intros Hset H. apply executemany_ignored. intros ins I.
  destruct (fst ins) as [k|] eqn:E; [|now apply H in I].
  exists k. split; [reflexivity|]. now apply (executemany_has_keys key set_key rows ins).
Qed.

Lemma keyed_map {A B} (f : A -> option Z * B) (l : list A) :
  (forall a, fst (f a) <> None) ->
  forall ins, In ins (List.map f l) -> fst ins <> None.
Proof. intros H ins I. apply in_map_iff in I as (a & <- & _). apply H. Qed.

Lemma extract_relational_keyed (self : BrowsingHistory) (f : file)
    (x : list (option Z * url_row) * list (option Z * visit_row)) :
  supplies_keys (_browser_specs self) ->
  match file_content f with
  | Sqlite us vs =>
      ru <- query_urls self us vs ;;
      rv <- query_visits self vs ;;
      Ok (List.map (fun p => cols_urls_sql (_browser_specs self) (fst p) (snd p)) ru,
          List.map (cols_visits_sql (_browser_specs self)) rv)
  | _ => Raise DatabaseError
  end = Ok x ->
  (forall ins, In ins (fst x) -> fst ins <> None)
  /\ (forall ins, In ins (snd x) -> fst ins <> None).
Proof.
  intros (K1 & K2 & _). destruct (file_content f) as [us vs | |]; try discriminate.
  destruct (query_urls self us vs) as [ru|]; [|discriminate].
  destruct (query_visits self vs) as [rv|]; [|discriminate].
  intros [= <-]. split; apply keyed_map; auto.
Qed.

(** Every row of a source that is no property list carries its key. *)
Lemma extract_keyed (self : BrowsingHistory) (f : file)
    (r : list (option Z * url_row) * list (option Z * visit_row)) :
  supplies_keys (_browser_specs self) ->
  reads_plist self (Some f) = false ->
  extract self f = Ok r ->
  (forall ins, In ins (fst r) -> fst ins <> None)
  /\ (forall ins, In ins (snd r) -> fst ins <> None).
Proof.
  intros K P. pose proof (extract_relational_keyed self f r K) as R.
  destruct K as (_ & _ & _ & K5 & K6).
  unfold reads_plist in P. unfold extract.
  destruct (_browser_name self); try discriminate; try exact R.
  - destruct (file_content f) as [| |cs]; try discriminate.
    destruct (_extract_webcachev01_dat self cs) as [x|]; [|discriminate].
    intros [= <-]. split; apply keyed_map; auto.
  - destruct (str_eqb (file_name f) (lit "History.db")); [exact R | discriminate].
Qed.

(** Of a property list the URL rows carry their key, the visit rows
    none. *)
Lemma extract_plist_keys (self : BrowsingHistory) (f : file)
    (r : list (option Z * url_row) * list (option Z * visit_row)) :
  supplies_keys (_browser_specs self) ->
  plist_visits_unkeyed (_browser_specs self) ->
  reads_plist self (Some f) = true ->
  extract self f = Ok r ->
  (forall ins, In ins (fst r) -> fst ins <> None)
  /\ (forall ins, In ins (snd r) -> fst ins = None).
Proof.
  intros (_ & _ & K3 & _) U P. unfold reads_plist in P. unfold extract.
  destruct (_browser_name self); try discriminate.
  destruct (str_eqb (file_name f) (lit "History.db")); [discriminate|].
  destruct (file_content f) as [|items|]; try discriminate.
  destruct (_extract_history_plist self items) as [x|]; [|discriminate].
  intros [= <-]. split; [apply keyed_map; auto|].
  intros ins I. apply in_map_iff in I as (t & <- & _). apply U.
Qed.

(** Rows without a key are all appended. *)
Lemma executemany_unkeyed {A} (key : A -> Z) (set_key : A -> Z -> A)
    (rows : list (option Z * A)) :
  (forall ins, In ins rows -> fst ins = None) ->
  forall tbl, exists new,
    executemany key set_key tbl rows = tbl ++ new
    /\ List.length new = List.length rows.
Proof.
  unfold executemany. induction rows as [|ins rows IH]; intros H tbl; cbn [fold_left].
  - exists []. now rewrite app_nil_r.
  - assert (S : insert_or_ignore key set_key tbl ins
               = tbl ++ [set_key (snd ins) (next_rowid (List.map key tbl))]).
    { unfold insert_or_ignore. now rewrite (H ins (or_introl eq_refl)). }
    rewrite S.
    destruct (IH (fun i I => H i (or_intror I))
                (tbl ++ [set_key (snd ins) (next_rowid (List.map key tbl))]))
      as (new & E & L).
    eexists (_ :: new). rewrite E, <- app_assoc. split; [reflexivity|].
    cbn [List.length]. now rewrite L.
Qed.

(** C8, amended: with column maps that name the key column for the
    records that carry an id, importing a source that is no property
    list into the store that an import of the same source has just
    filled returns the same status and leaves both tables, and so their
    row counts, as they were.  The visit tuples of a property list carry
    no id: a second import of a property list leaves the URL table as it
    was and appends every visit again, as many rows as the first import
    added. *)
Theorem import_twice_adds_unkeyed_only (self : BrowsingHistory) (db db1 : store)
    (file_path : option file) (status : bool) :
  supplies_keys (_browser_specs self) ->
  _import_data self db file_path = Ok (status, db1) ->
  (reads_plist self file_path = false ->
   _import_data self db1 file_path = Ok (status, db1))
  /\ (reads_plist self file_path = true ->
      plist_visits_unkeyed (_browser_specs self) ->
      exists db2 again,
        _import_data self db1 file_path = Ok (status, db2)
        /\ tbl_urls db2 = tbl_urls db1
        /\ tbl_visits db2 = tbl_visits db1 ++ again
        /\ List.length (tbl_visits db1)
           = (List.length (tbl_visits db) + List.length again)%nat).
Proof.
  intros K H. unfold _import_data in *. destruct file_path as [f|].
  - destruct (extract self f) as [r|] eqn:E; [|discriminate].
    cbn [bind] in *. injection H as <- <-. cbn [tbl_urls tbl_visits]. split.
    + intros P. destruct (extract_keyed self f r K P E) as [Ku Kv].
      rewrite (executemany_twice u_id set_u_id) by (auto || reflexivity).
      rewrite (executemany_twice v_id set_v_id) by (auto || reflexivity).
      reflexivity.
    + intros P U. destruct (extract_plist_keys self f r K U P E) as [Ku Kv].
      destruct (executemany_unkeyed v_id set_v_id (snd r) Kv (tbl_visits db))
        as (first & E1 & L1).
      destruct (executemany_unkeyed v_id set_v_id (snd r) Kv
                  (executemany v_id set_v_id (tbl_visits db) (snd r)))
        as (again & E2 & L2).
      eexists _, again. split; [reflexivity|]. cbn [tbl_urls tbl_visits].
      split; [|split].
      * apply executemany_twice; [reflexivity | exact Ku].
      * exact E2.
      * rewrite E1, length_app. lia.
  - injection H as <- <-. split; [reflexivity | discriminate].
Qed.

(** ** Rejected arguments of [_update_db] *)

(** The call on a store that opens ends as the suite does, an
    operational error of the engine apart, which is printed. *)
Lemma update_db_call_opened (self : BrowsingHistory) (db : store) (k : nat)
    (x : pyval) (kind : kind) :
  _update_db_call self (Ok db) x kind (None, k)
  = let '(db', k', e) := _update_db self db k x kind in
    (match e with
     | Some OperationalError | None => Normal
     | Some e => Throw e
     end, (Some db', k')).
Proof.
  unfold _update_db_call, try_finally, try_except, then_, connect, update_suite,
    close_connection, print_, raise_.
  cbn [fst snd]. destruct (_update_db self db k x kind) as [[db' k'] [e|]]; [|reflexivity].
  destruct e; reflexivity.
Qed.

(** On a session that has no store to open, the call ends in the
    [finally] suite, where [c] has no value, whatever the argument. *)
Lemma update_db_call_unopened (self : BrowsingHistory) (e : exn) (k : nat)
    (x : pyval) (kind : kind) :
  _update_db_call self (Raise e) x kind (None, k) = (Throw NameError, (None, k)).
Proof. destruct e; reflexivity. Qed.

(** C9: on a session whose store opens, an argument that is neither a
    string nor a list given with the kind [urls] makes [_update_db] end
    with the value error before a row is looked up: the suite stops with
    the store and the random source as they were, and the call ends with
    that error, the store it opened unchanged. *)
Theorem update_db_rejects_argument (self : BrowsingHistory) (opened : result store)
    (db : store) (k : nat) (x : pyval) (kind : kind) :
  opened = Ok db ->
  (forall s, x <> PyStr s) ->
  (forall l, x = PyList l -> kind <> Kurls) ->
  _update_db self db k x kind = (db, k, Some ValueError)
  /\ _update_db_call self opened x kind (None, k) = (Throw ValueError, (Some db, k)).
Proof.
  intros -> H1 H2.
  assert (S : _update_db self db k x kind = (db, k, Some ValueError)).
  { unfold _update_db. destruct x as [s | l | n |]; try reflexivity.
    - now specialize (H1 s).
    - specialize (H2 l eq_refl). destruct kind; try reflexivity. contradiction. }
  split; [exact S|]. now rewrite update_db_call_opened, S.
Qed.

(** ** The cutoff and the file filter of the extractors *)

Lemma Forall_snoc {A} (P : A -> Prop) (l : list A) (x : A) :
  Forall P l -> P x -> Forall P (l ++ [x]).
Proof. intros F H. apply Forall_app; split; [assumption | now constructor]. Qed.

Lemma plist_inv (self : BrowsingHistory) (items : list plist_item) :
  forall (g : Z) (urls : list plist_url_tuple) (visits : list plist_visit_tuple) st',
    Forall (plist_url_ok self) urls -> Forall (plist_visit_ok self) visits ->
    foldM (plist_step self) items (g, urls, visits) = Ok st' ->
    Forall (plist_url_ok self) (snd (fst st')) /\ Forall (plist_visit_ok self) (snd st').
Proof.
  induction items as [|item items IH]; intros g urls visits st' Fu Fv H.
  - injection H as <-. now split.
  - cbn [foldM] in H. unfold plist_step at 1 in H.
    destruct (_convert_timestamp _ _ _) as [date|]; [|discriminate].
    cbn [bind] in H.
    destruct (_is_url (pi_url item)) eqn:U; cbn [andb] in H;
      [destruct (_min_date self <=? date) eqn:M|]; cbn [bind] in H.
    + apply Z.leb_le in M.
      eapply IH; [| |exact H]; apply Forall_snoc; try assumption.
      split; assumption.
    + exact (IH _ _ _ _ Fu Fv H).
    + exact (IH _ _ _ _ Fu Fv H).
Qed.

Lemma webcache_match_http (u m : str) :
  re_search webcache_pattern u = Some m -> starts_with (lit "http") m = true.
Proof.
  intros H. apply re_search_Some in H as [n H]. unfold webcache_pattern in H.
  destruct (strip_prefix (lit "@http") (skipn n u)) as [r|]; [|discriminate].
  destruct (take_while webcache_char r) as [|c w]; [discriminate|].
  injection H as <-. reflexivity.
Qed.

Lemma ese_step_ok (self : BrowsingHistory) (cid g : Z) (d : url_dict)
    (v : list ese_visit_tuple) (rec : ese_record) (g' : Z) (d' : url_dict)
    (v' : list ese_visit_tuple) :
  ese_state_ok self d v ->
  ese_step self cid (g, d, v) rec = Ok (g', d', v') ->
  ese_state_ok self d' v'.
Proof.
  intros [Fd Fv] H. unfold ese_step in H.
  destruct (_convert_timestamp _ _ _) as [date|]; [|discriminate]. cbn [bind] in H.
  destruct (re_search webcache_pattern (r_url rec)) as [url|] eqn:W.
  2:{ injection H as <- <- <-. now split. }
  destruct (_min_date self <=? date) eqn:M.
  2:{ injection H as <- <- <-. now split. }
  apply Z.leb_le in M. apply webcache_match_http in W.
  destruct (dict_get url d).
  - destruct (0 <? r_access_count rec); injection H as <- <- <-; split; auto.
    now rewrite keys_dict_update.
  - injection H as <- <- <-. split.
    + rewrite map_app. now apply Forall_snoc.
    + now apply Forall_snoc.
Qed.

Lemma ese_records_ok (self : BrowsingHistory) (cid : Z) (recs : list ese_record) :
  forall (g : Z) (d : url_dict) (v : list ese_visit_tuple) g' d' v',
    ese_state_ok self d v ->
    foldM (ese_step self cid) recs (g, d, v) = Ok (g', d', v') ->
    ese_state_ok self d' v'.
Proof.
  induction recs as [|r recs IH]; intros g d v g' d' v' K H.
  - now injection H as <- <- <-.
  - cbn [foldM] in H.
    destruct (ese_step self cid (g, d, v) r) as [[[g1 d1] v1]|] eqn:S; [|discriminate].
    cbn [bind] in H. exact (IH _ _ _ _ _ _ (ese_step_ok _ _ _ _ _ _ _ _ _ K S) H).
Qed.

Lemma ese_containers_ok (self : BrowsingHistory) (cs : list container) :
  forall (g : Z) (d : url_dict) (v : list ese_visit_tuple) g' d' v',
    ese_state_ok self d v ->
    foldM (ese_container_step self) cs (g, d, v) = Ok (g', d', v') ->
    ese_state_ok self d' v'.
Proof.
  induction cs as [|c cs IH]; intros g d v g' d' v' K H.
  - now injection H as <- <- <-.
  - cbn [foldM] in H. unfold ese_container_step at 1 in H.
    destruct (str_eqb (c_name c) (lit "History")).
    + destruct (foldM (ese_step self (c_id c)) (c_records c) (g, d, v))
        as [[[g1 d1] v1]|] eqn:S; [|discriminate].
      cbn [bind] in H. exact (IH _ _ _ _ _ _ (ese_records_ok _ _ _ _ _ _ _ _ _ K S) H).
    + cbn [bind] in H. exact (IH _ _ _ _ _ _ K H).
Qed.

Lemma filterM_In {A} (f : A -> result bool) (l r : list A) :
  filterM f l = Ok r -> forall x, In x r -> In x l /\ f x = Ok true.
Proof.
  revert r; induction l as [|a l IH]; intros r H x I.
  - injection H as <-. contradiction.
  - cbn [filterM] in H. destruct (f a) as [b|] eqn:E; [|discriminate].
    destruct (filterM f l) as [r'|]; [|discriminate]. cbn [bind] in H.
    injection H as <-. destruct b.
    + destruct I as [<- | I]; [split; [now left | assumption]|].
      destruct (IH r' eq_refl x I); split; [now right | assumption].
    + destruct (IH r' eq_refl x I); split; [now right | assumption].
Qed.

Lemma quot_le_div (z : Z) :
  0 <= z -> (inject_Z (Z.quot z 1000000) <= inject_Z z / inject_Z 1000000)%Q.
Proof.
  intros H. apply Qle_shift_div_l; [reflexivity|].
  rewrite <- inject_Z_mult, <- Zle_Qle.
  rewrite Z.mul_comm. apply Z.mul_quot_le; lia.
Qed.

Lemma cutoff_sound (b : browser) (t : sqlnum) (m : Z) :
  cutoff_clause b t m = Ok true -> nonneg_time t ->
  (m # 1000000 <= unix_seconds b t)%Q.
Proof.
  destruct b; try discriminate; destruct t as [z|q]; cbn [cutoff_clause];
    intros [= H] NN; unfold sql_ge in H; apply Qle_bool_iff in H;
    cbn [sql_to_Q sql_div sql_add unix_seconds] in *; try exact H.
  - eapply Qle_trans; [exact H|]. rewrite inject_Z_plus.
    apply Qplus_le_compat; [now apply quot_le_div | apply Qle_refl].
  - rewrite inject_Z_plus in H. exact H.
  - eapply Qle_trans; [exact H|]. now apply quot_le_div.
Qed.

Lemma cutoff_native (b : browser) (t m : Z) :
  relational b ->
  (m + 1000000 <= t -> cutoff_clause b (native_time b t) m = Ok true)
  /\ (t + 1000000 <= m -> cutoff_clause b (native_time b t) m = Ok false).
Proof.
  intros [-> | [-> | ->]]; cbn [cutoff_clause native_time sql_div sql_add]; unfold sql_ge;
    cbn [sql_to_Q]; unfold Qle_bool, inject_Z, Qplus; cbn [Qnum Qden].
  - pose proof (Z.quot_rem' (t + 11644473600000000) 1000000) as E.
    pose proof (Z.rem_bound_abs (t + 11644473600000000) 1000000 ltac:(lia)) as B.
    split; intros H; f_equal; [apply Z.leb_le | apply Z.leb_gt]; lia.
  - pose proof (Z.quot_rem' t 1000000) as E.
    pose proof (Z.rem_bound_abs t 1000000 ltac:(lia)) as B.
    split; intros H; f_equal; [apply Z.leb_le | apply Z.leb_gt]; lia.
  - split; intros H; f_equal; [apply Z.leb_le | apply Z.leb_gt]; lia.
Qed.

Lemma query_visits_scenario (self : BrowsingHistory) (v10 v90 : src_visit) (now : Z) :
  relational (_browser_name self) ->
  sv_time v10 = native_time (_browser_name self) (now - 10 * us_per_day) ->
  sv_time v90 = native_time (_browser_name self) (now - 90 * us_per_day) ->
  _min_date self = now - 60 * us_per_day ->
  query_visits self [v10; v90] = Ok [v10].
Proof.
  intros R T10 T90 M. unfold query_visits. cbn [filterM]. rewrite T10, T90, M.
  destruct (cutoff_native (_browser_name self) (now - 10 * us_per_day)
              (now - 60 * us_per_day) R) as [C10 _].
  destruct (cutoff_native (_browser_name self) (now - 90 * us_per_day)
              (now - 60 * us_per_day) R) as [_ C90].
  rewrite C10, C90 by (change us_per_day with 86400000000; lia).
  reflexivity.
Qed.

Lemma import_scenario_A (self : BrowsingHistory) (f : file) (us : list src_url)
    (v10 v90 : src_visit) (now : Z) :
  relational (_browser_name self) ->
  (_browser_name self = Safari -> file_name f = lit "History.db") ->
  file_content f = Sqlite us [v10; v90] ->
  sv_time v10 = native_time (_browser_name self) (now - 10 * us_per_day) ->
  sv_time v90 = native_time (_browser_name self) (now - 90 * us_per_day) ->
  _min_date self = now - 60 * us_per_day ->
  exists db, _import_data self empty_store (Some f) = Ok (true, db)
             /\ List.length (tbl_visits db) = 1%nat.
Proof.
  intros R N C T10 T90 M.
  pose proof (query_visits_scenario self v10 v90 now R T10 T90 M) as Q.
  assert (E : exists ru, extract self f
                = Ok (ru, [cols_visits_sql (_browser_specs self) v10])).
  { unfold extract. rewrite C. unfold query_urls. rewrite Q. cbn [bind List.map].
    destruct R as [B | [B | B]]; rewrite B in *; try (eexists; reflexivity).
    rewrite (N eq_refl), str_eqb_refl. eexists; reflexivity. }
  destruct E as [ru E]. unfold _import_data. rewrite E. cbn [bind fst snd].
  eexists. split; [reflexivity|]. cbn [tbl_visits empty_store].
  unfold executemany, insert_or_ignore. cbn [fold_left].
  destruct (fst (cols_visits_sql (_browser_specs self) v10)); reflexivity.
Qed.

(** The ids the two extractors hand out, and the visits they return. *)
Lemma ids_from_cons (g : Z) (n : nat) : ids_from g (S n) = g :: ids_from (g + 1) n.
Proof.
  unfold ids_from. cbn [seq List.map]. f_equal; [lia|].
  rewrite <- seq_shift, map_map. apply map_ext. intros j. lia.
Qed.

Lemma ids_from_snoc (g : Z) (n : nat) : ids_from g (S n) = ids_from g n ++ [g + Z.of_nat n].
Proof. unfold ids_from. rewrite seq_S, map_app. reflexivity. Qed.

Lemma plist_loop (self : BrowsingHistory) (items : list plist_item) :
  forall (g : Z) (urls : list plist_url_tuple) (visits : list plist_visit_tuple) st',
    foldM (plist_step self) items (g, urls, visits) = Ok st' ->
    exists new,
      snd (fst st') = urls ++ new
      /\ snd st' = visits ++ List.map (fun t => (plist_tuple_id t, plist_tuple_date t)) new
      /\ List.map plist_tuple_id new = ids_from g (List.length new)
      /\ List.map plist_tuple_url new = List.map pi_url (filter (plist_kept self) items).
Proof.
  induction items as [|item items IH]; intros g urls visits st'.
  - cbn [foldM]. intros E. injection E as <-. exists []. cbn. now rewrite !app_nil_r.
  - cbn [foldM filter]. unfold plist_step at 1, plist_kept at 1.
    destruct (_convert_timestamp (pi_lastVisitedDate item) (_browser_name self) (lit "utc"))
      as [date|e]; cbn [bind]; [|discriminate].
    destruct (_is_url (pi_url item) && (_min_date self <=? date)); cbn [bind].
    + intros H. apply IH in H as (new & H1 & H2 & H3 & H4).
      exists ((g, date, option_map (join (lit " ")) (pi_redirectURLs item), pi_title item,
               pi_url item, pi_visitCount item) :: new).
      rewrite <- app_assoc in H1, H2. split; [exact H1|]. split; [exact H2|].
      cbn [List.map List.length plist_tuple_id plist_tuple_url].
      rewrite ids_from_cons, H3, H4. split; reflexivity.
    + apply IH.
Qed.

Lemma uid_dict_update (k : str) (f : ese_entry -> ese_entry) (d : url_dict) :
  (forall e, unique_id (f e) = unique_id e) ->
  List.map (fun kv => unique_id (snd kv)) (dict_update k f d)
  = List.map (fun kv => unique_id (snd kv)) d.
Proof.
  intros U. induction d as [|[k' e] d IH]; [reflexivity|].
  cbn [dict_update]. destruct (str_eqb k' k); cbn [List.map snd]; [now rewrite U|].
  now rewrite IH.
Qed.

Lemma ese_step_numbered (self : BrowsingHistory) (cid : Z) (st st' : ese_state)
    (rec : ese_record) :
  ese_numbered st -> ese_step self cid st rec = Ok st' -> ese_numbered st'.
Proof.
  destruct st as [[g d] v]. unfold ese_step, ese_numbered.
  intros (G & ND & U & V).
  destruct (_convert_timestamp _ _ _) as [date|e]; cbn [bind]; [|discriminate].
  destruct (re_search webcache_pattern (r_url rec)) as [url|];
    [|intros E; injection E as <-; auto].
  destruct (_min_date self <=? date); [|intros E; injection E as <-; auto].
  destruct (dict_get url d) as [e0|] eqn:K.
  - destruct (0 <? r_access_count rec); intros E; injection E as <-; auto.
    rewrite length_dict_update, keys_dict_update, uid_dict_update by reflexivity. auto.
  - intros E. injection E as <-.
    rewrite length_app, !map_app. cbn [List.length List.map fst snd unique_id].
    replace (List.length d + 1)%nat with (S (List.length d)) by lia.
    rewrite ids_from_snoc, G. split; [lia|]. split; [|split].
    + apply NoDup_snoc; [exact ND | now apply dict_get_None].
    + f_equal. exact U.
    + f_equal. exact V.
Qed.

Lemma ese_loop_numbered (self : BrowsingHistory) (cs : list container) :
  forall st st', ese_numbered st -> foldM (ese_container_step self) cs st = Ok st' ->
                 ese_numbered st'.
Proof.
  assert (R : forall cid recs st st', ese_numbered st ->
                foldM (ese_step self cid) recs st = Ok st' -> ese_numbered st').
  { intros cid. induction recs as [|rec recs IH]; intros st st' I; cbn [foldM].
    - intros E. now injection E as <-.
    - destruct (ese_step self cid st rec) as [st1|e] eqn:S; cbn [bind]; [|discriminate].
      apply IH. exact (ese_step_numbered self cid st st1 rec I S). }
  induction cs as [|c cs IH]; intros st st' I; cbn [foldM].
  - intros E. now injection E as <-.
  - unfold ese_container_step at 1.
    destruct (str_eqb (c_name c) (lit "History")).
    + destruct (foldM (ese_step self (c_id c)) (c_records c) st) as [st1|e] eqn:S;
        cbn [bind]; [|discriminate].
      apply IH. exact (R _ _ _ _ I S).
    + cbn [bind]. now apply IH.
Qed.

Lemma quot_gt_div (z : Z) :
  (inject_Z (Z.quot z 1000000) - 1 < inject_Z z / inject_Z 1000000)%Q.
Proof.
  apply Qlt_shift_div_l; [reflexivity|].
  setoid_replace (inject_Z (Z.quot z 1000000) - 1)%Q
    with (inject_Z (Z.quot z 1000000 - 1)) by (unfold Z.sub; now rewrite inject_Z_plus).
  rewrite <- inject_Z_mult, <- Zlt_Qlt.
  pose proof (Z.quot_rem' z 1000000) as E.
  pose proof (Z.rem_bound_abs z 1000000 ltac:(lia)) as B. lia.
Qed.

(** A row that passes the cutoff clause is less than a second below the
    cutoff: the integer division of the clause truncates toward zero,
    which rounds the time of a negative timestamp up. *)
Lemma cutoff_within_second (b : browser) (t : sqlnum) (m : Z) :
  cutoff_clause b t m = Ok true ->
  ((m # 1000000) - 1 < unix_seconds b t)%Q.
Proof.
  destruct b; try discriminate; destruct t as [z|q]; cbn [cutoff_clause];
    intros [= H]; unfold sql_ge in H; apply Qle_bool_iff in H;
    cbn [sql_to_Q sql_div sql_add unix_seconds] in *;
    rewrite ?inject_Z_plus in H;
    try pose proof (quot_gt_div z) as G; lra.
Qed.

Lemma file_clause_prefix (b : browser) (url : str) :
  file_clause b url
  = starts_with match b with
                | Firefox => lit "file:///"
                | _ => lit "file:"
                end url.
Proof. now destruct b. Qed.

(** C7, amended: each extractor applies the cutoff itself.  The property
    list extractor keeps only entries that pass the URL test and the
    cutoff, and its visits are those of the URL tuples it returns, one
    each; the binary one keeps only records whose recovered URL starts
    with [http] and that pass the cutoff, and every visit it returns is
    that of a URL it returns.  Every row of the two queries of the
    relational extractor passes the cutoff clause, which puts it less
    than a second below the cutoff, and not below it when the native
    timestamp is not negative; the URL query, and it alone, leaves out
    the URLs that start with [file:] (with [file:///] for Firefox).  A
    relational source with one visit 10 days old and one 90 days old,
    imported with a cutoff of 60 days, leaves one visit. *)
Theorem extractors_apply_cutoff (self : BrowsingHistory) :
  (forall items urls visits,
      _extract_history_plist self items = Ok (urls, visits) ->
      Forall (plist_url_ok self) urls
      /\ Forall (plist_visit_ok self) visits
      /\ visits = List.map (fun t => (plist_tuple_id t, plist_tuple_date t)) urls)
  /\ (forall cs urls visits,
         _extract_webcachev01_dat self cs = Ok (urls, visits) ->
         Forall ese_url_ok urls
         /\ Forall (ese_visit_ok self) visits
         /\ List.map snd visits = List.map ese_tuple_id urls)
  /\ (forall vs rows,
         query_visits self vs = Ok rows ->
         forall v, In v rows ->
           In v vs
           /\ cutoff_clause (_browser_name self) (sv_time v) (_min_date self) = Ok true
           /\ ((_min_date self # 1000000) - 1
               < unix_seconds (_browser_name self) (sv_time v))%Q
           /\ (nonneg_time (sv_time v) ->
               (_min_date self # 1000000
                <= unix_seconds (_browser_name self) (sv_time v))%Q))
  /\ (forall us vs rows,
         query_urls self us vs = Ok rows ->
         forall u v, In (u, v) rows ->
           In u us /\ In v vs /\ su_id u = sv_url v
           /\ file_clause (_browser_name self) (su_url u) = false
           /\ starts_with match _browser_name self with
                          | Firefox => lit "file:///"
                          | _ => lit "file:"
                          end (su_url u) = false
           /\ ((_min_date self # 1000000) - 1
               < unix_seconds (_browser_name self) (sv_time v))%Q
           /\ (nonneg_time (sv_time v) ->
               (_min_date self # 1000000
                <= unix_seconds (_browser_name self) (sv_time v))%Q))
  /\ (forall f us v10 v90 now,
         relational (_browser_name self) ->
         (_browser_name self = Safari -> file_name f = lit "History.db") ->
         file_content f = Sqlite us [v10; v90] ->
         sv_time v10 = native_time (_browser_name self) (now - 10 * us_per_day) ->
         sv_time v90 = native_time (_browser_name self) (now - 90 * us_per_day) ->
         _min_date self = now - 60 * us_per_day ->
         exists db, _import_data self empty_store (Some f) = Ok (true, db)
                    /\ List.length (tbl_visits db) = 1%nat).
Proof.
  assert (QV : forall vs rows,
             query_visits self vs = Ok rows ->
             forall v, In v rows ->
               In v vs
               /\ cutoff_clause (_browser_name self) (sv_time v) (_min_date self) = Ok true
               /\ ((_min_date self # 1000000) - 1
                   < unix_seconds (_browser_name self) (sv_time v))%Q
               /\ (nonneg_time (sv_time v) ->
                   (_min_date self # 1000000
                    <= unix_seconds (_browser_name self) (sv_time v))%Q)).
  { intros vs rows H v I. destruct (filterM_In _ _ _ H v I) as [I' C].
    split; [assumption|]. split; [assumption|].
    split; [now apply cutoff_within_second | now apply cutoff_sound]. }
  assert (QU : forall us vs rows,
             query_urls self us vs = Ok rows ->
             forall u v, In (u, v) rows ->
               exists recent, query_visits self vs = Ok recent
                 /\ In u us /\ In v recent /\ su_id u = sv_url v
                 /\ file_clause (_browser_name self) (su_url u) = false).
  { intros us vs rows H u v I. unfold query_urls in H.
    destruct (query_visits self vs) as [recent|] eqn:Q; [|discriminate].
    cbn [bind] in H. injection H as <-. apply in_flat_map in I as (v' & Iv & I).
    apply in_map_iff in I as (u' & [= <- <-] & I). apply filter_In in I as [I E].
    apply andb_true_iff in E as [E FC]. apply negb_true_iff in FC.
    exists recent. repeat split; try assumption. now apply Z.eqb_eq. }
  split; [|split; [|split; [|split]]].
  - intros items urls visits H. unfold _extract_history_plist in H.
    destruct (foldM (plist_step self) items (1, [], [])) as [st|] eqn:F; [|discriminate].
    cbn [bind] in H. injection H as <- <-.
    destruct (plist_inv self items 1 [] [] st (Forall_nil _) (Forall_nil _) F) as [Fu Fv].
    split; [exact Fu|]. split; [exact Fv|].
    apply plist_loop in F as (new & H1 & H2 & _). cbn [app] in H1, H2.
    now rewrite H1, H2.
  - intros cs urls visits H. unfold _extract_webcachev01_dat in H.
    destruct (foldM (ese_container_step self) cs (1, [], [])) as [[[g d] v]|] eqn:F;
      [|discriminate].
    cbn [bind] in H. injection H as <- <-.
    destruct (ese_containers_ok self cs 1 [] [] g d v (conj (Forall_nil _) (Forall_nil _)) F)
      as [K Kv].
    split; [rewrite Forall_map in K; rewrite Forall_map; exact K|].
    split; [exact Kv|].
    assert (I0 : ese_numbered (1, [], [])).
    { unfold ese_numbered. cbn. repeat split. constructor. }
    destruct (ese_loop_numbered self cs _ _ I0 F) as (_ & _ & U & V).
    rewrite map_map. unfold ese_tuple_id. cbn [snd fst]. now rewrite V, U.
  - exact QV.
  - intros us vs rows H u v I.
    destruct (QU us vs rows H u v I) as (recent & Q & Iu & Iv & E & FC).
    destruct (QV vs recent Q v Iv) as (Iv' & _ & C1 & C2).
    repeat split; try assumption. now rewrite <- file_clause_prefix.
  - intros f us v10 v90 now. apply import_scenario_A.
Qed.

(** ** Hashing a domain *)

Lemma length_hex (n : nat) (x : N) : List.length (SHA256.hex n x) = n.
Proof. induction n as [|n IH]; simpl; congruence. Qed.

Lemma land_15_lt (x : N) : (N.land x 15 < 16)%N.
Proof.
  change 15%N with (N.ones 4). rewrite N.land_ones. now apply N.mod_lt.
Qed.

Lemma hex_digit_is_hex (d : N) : (d < 16)%N -> is_hex (SHA256.hex_digit d) = true.
Proof.
  intros H. unfold is_hex, is_digit, in_range, SHA256.hex_digit.
  destruct (N.ltb_spec d 10); apply orb_true_iff; rewrite !andb_true_iff, !N.leb_le; lia.
Qed.

Lemma hex_is_hex (n : nat) (x : N) : Forall (fun c => is_hex c = true) (SHA256.hex n x).
Proof.
  induction n as [|n IH]; simpl; constructor; [|assumption].
  apply hex_digit_is_hex, land_15_lt.
Qed.

Lemma hexdigest_shape (msg : list N) :
  List.length (SHA256.hexdigest msg) = 64%nat
  /\ Forall (fun c => is_hex c = true) (SHA256.hexdigest msg).
Proof.
  unfold SHA256.hexdigest.
  destruct (SHA256.blocks _ _ _) as [[[[[[[a b] c] d] e] f] g] h].
  split.
  - now rewrite !length_app, !length_hex.
  - repeat (apply Forall_app; split); apply hex_is_hex.
Qed.

Lemma app_eq_length {A} (a b x y : list A) :
  List.length a = List.length b -> a ++ x = b ++ y -> a = b /\ x = y.
Proof.
  revert b; induction a as [|c a IH]; intros [|c' b] L E; try discriminate.
  - now split.
  - injection L as L. injection E as -> E. destruct (IH b L E) as [-> ->]. now split.
Qed.

Lemma contains_split (needle hay : str) :
  contains needle hay = true -> exists pre post, hay = pre ++ needle ++ post.
Proof.
  induction hay as [|c hay IH]; simpl.
  - destruct (strip_prefix needle []) as [r|] eqn:P; [|discriminate].
    intros _. apply strip_prefix_Some in P. exists [], r. exact P.
  - destruct (strip_prefix needle (c :: hay)) as [r|] eqn:P.
    + intros _. apply strip_prefix_Some in P. exists [], r. exact P.
    + intros H. destruct (IH H) as (pre & post & ->). now exists (c :: pre), post.
Qed.

Lemma contains_In (needle hay : str) (c : N) :
  contains needle hay = true -> In c needle -> In c hay.
Proof.
  intros H I. destruct (contains_split _ _ H) as (pre & post & ->).
  apply in_or_app; right. apply in_or_app; now left.
Qed.

(** A string with a character that the other string lacks is no part of
    it. *)
Lemma not_contained (P : N -> bool) (needle hay : str) (c : N) :
  Forall (fun x => P x = true) hay -> In c needle -> P c = false ->
  contains needle hay = false.
Proof.
  intros F I N. destruct (contains needle hay) eqn:C; [|reflexivity].
  pose proof (contains_In _ _ c C I) as I'. rewrite Forall_forall in F.
  rewrite (F c I') in N. discriminate.
Qed.

Lemma hash_domain_chars (k : nat) (domain : str) :
  Forall (fun c => hash_char c = true) (fst (_hash_domain k domain)).
Proof.
  unfold _hash_domain, uuid4_hex; cbn [fst].
  destruct (hexdigest_shape (encode (SHA256.hex 32 (uuid4_int (urandom k))) ++ encode domain))
    as [_ F].
  repeat (apply Forall_app; split).
  - eapply Forall_impl; [|exact F]. intros c H. unfold hash_char. now rewrite H.
  - repeat constructor.
  - eapply Forall_impl; [|apply hex_is_hex]. intros c H. unfold hash_char. now rewrite H.
Qed.

Lemma hash_domain_salt (k1 k2 : nat) (d1 d2 : str) :
  fst (_hash_domain k1 d1) = fst (_hash_domain k2 d2) -> uuid4_hex k1 = uuid4_hex k2.
Proof.
  unfold _hash_domain; cbn [fst]. intros E.
  destruct (hexdigest_shape (encode (uuid4_hex k1) ++ encode d1)) as [L1 _].
  destruct (hexdigest_shape (encode (uuid4_hex k2) ++ encode d2)) as [L2 _].
  apply app_eq_length in E as [_ E]; [|now rewrite L1, L2].
  now apply app_inv_head in E.
Qed.

(** The version digit of a random UUID is in every salt. *)
Lemma hex_nibble (n : nat) (x : N) (i : nat) :
  (i < n)%nat ->
  In (SHA256.hex_digit (N.land (N.shiftr x (4 * N.of_nat i)) 15)) (SHA256.hex n x).
Proof.
  induction n as [|n IH]; intros L; [lia|]. cbn [SHA256.hex].
  destruct (Nat.eq_dec i n) as [->|N]; [now left | right; apply IH; lia].
Qed.

Lemma uuid4_version (r : N) : N.land (N.shiftr (uuid4_int r) 76) 15 = 4%N.
Proof.
  unfold uuid4_int. rewrite N.shiftr_lor, N.shiftr_ldiff, N.land_lor_distr_l.
  change (N.shiftr (N.shiftl 61440 64) 76) with 15%N.
  change (N.shiftr (N.shiftl 4 76) 76) with 4%N.
  match goal with
  | |- N.lor (N.land (N.ldiff ?y 15) 15) _ = _ =>
      replace (N.land (N.ldiff y 15) 15) with 0%N; [reflexivity|]
  end.
  symmetry. apply N.bits_inj. intros n.
  rewrite N.land_spec, N.ldiff_spec, N.bits_0.
  now destruct (N.testbit _ n), (N.testbit 15 n).
Qed.

Lemma salt_has_4 (k : nat) : In 52%N (uuid4_hex k).
Proof.
  unfold uuid4_hex.
  pose proof (hex_nibble 32 (uuid4_int (urandom k)) 19 ltac:(lia)) as H.
  change (4 * N.of_nat 19)%N with 76%N in H. now rewrite uuid4_version in H.
Qed.

(** C6, amended: every call draws the next salt of the random source and
    puts it into the token; two calls on one domain return different
    tokens whenever their salts differ; and a token does not contain the
    domain when the domain has a character other than a hexadecimal
    digit and the hyphen, such as a dot. *)
Theorem hash_domain_salted :
  (forall k domain,
      _hash_domain k domain
      = (SHA256.hexdigest (encode (uuid4_hex k) ++ encode domain) ++ lit "-" ++ uuid4_hex k,
         S k))
  /\ (forall k1 k2 domain,
         uuid4_hex k1 <> uuid4_hex k2 ->
         fst (_hash_domain k1 domain) <> fst (_hash_domain k2 domain))
  /\ (forall k domain c,
         In c domain -> hash_char c = false ->
         contains domain (fst (_hash_domain k domain)) = false).
Proof.
  split; [reflexivity|]. split.
  - intros k1 k2 domain N E. apply N. exact (hash_domain_salt _ _ _ _ E).
  - intros k domain c I N.
    exact (not_contained hash_char _ _ c (hash_domain_chars k domain) I N).
Qed.

(** ** Anonymising by domain *)

Lemma hash_char_token_char (c : N) : hash_char c = true -> token_char c = true.
Proof.
  unfold hash_char, token_char, is_hex, is_digit, is_lower, in_range.
  rewrite !orb_true_iff, !andb_true_iff, !N.leb_le, !N.eqb_eq.
  lia.
Qed.

Lemma token_char_no_slash (c : N) : token_char c = true -> c <> slash.
Proof. intros H ->; discriminate H. Qed.

Lemma digits_of_pos_digits (fuel : nat) :
  forall n acc, Forall (fun c => is_digit c = true) acc ->
                Forall (fun c => is_digit c = true) (digits_of_pos fuel n acc).
Proof.
  induction fuel as [|fuel IH]; intros n acc F; simpl; [assumption|].
  assert (D : is_digit (48 + n mod 10) = true).
  { unfold is_digit, in_range. pose proof (N.mod_lt n 10 ltac:(discriminate)).
    rewrite andb_true_iff, !N.leb_le. generalize dependent (n mod 10)%N. intros; lia. }
  destruct (n <? 10)%N; [|apply IH]; now constructor.
Qed.

Lemma str_of_Z_chars (z : Z) : Forall (fun c => token_char c = true) (str_of_Z z).
Proof.
  assert (D : forall n, Forall (fun c => token_char c = true) (str_of_N n)).
  { intros n. eapply Forall_impl; [|apply digits_of_pos_digits; constructor].
    intros c H. unfold token_char. now rewrite H. }
  unfold str_of_Z. destruct (z <? 0); [constructor; [reflexivity|]|]; apply D.
Qed.

Lemma anonym_id_chars (k : nat) (host : str) (i : Z) :
  Forall (fun c => token_char c = true) (anonym_id (fst (_hash_domain k host)) i).
Proof.
  unfold anonym_id.
  apply Forall_app; split; [repeat constructor|].
  apply Forall_app; split; [repeat constructor|].
  apply Forall_app; split.
  - eapply Forall_impl; [|apply hash_domain_chars]. exact hash_char_token_char.
  - apply Forall_app; split; [repeat constructor | apply str_of_Z_chars].
Qed.

Lemma anonym_id_no_url (k : nat) (host : str) (i : Z) :
  _is_url_r (anonym_id (fst (_hash_domain k host)) i) = None.
Proof.
  apply no_slash_no_url.
  exact (Forall_no_slash _ _ token_char_no_slash (anonym_id_chars k host i)).
Qed.

Lemma is_url_true (url : str) : _is_url url = true <-> exists host, _is_url_r url = Some host.
Proof.
  unfold _is_url. destruct (_is_url_r url) as [h|]; split; try discriminate; eauto.
  intros [h H]; discriminate.
Qed.

Lemma Forall2_refl_on {A} (R : A -> A -> Prop) (l : list A) :
  (forall a, R a a) -> Forall2 R l l.
Proof. intros H; induction l; constructor; auto. Qed.

Lemma Forall2_impl_In {A B} (R R' : A -> B -> Prop) (l : list A) (l' : list B) :
  (forall a b, In a l -> R a b -> R' a b) -> Forall2 R l l' -> Forall2 R' l l'.
Proof.
  intros H F. induction F as [|a b l l' Hab F IH]; constructor.
  - apply H; [now left | assumption].
  - apply IH. intros a' b' I. apply H. now right.
Qed.

Lemma Forall2_map_left {A B C} (R : B -> C -> Prop) (g : A -> B) (l : list A) :
  forall l', Forall2 R (List.map g l) l' -> Forall2 (fun a b => R (g a) b) l l'.
Proof.
  induction l as [|a l IH]; intros l' F; inversion F; subst; constructor; auto.
Qed.

Lemma has_key_In (i : Z) (tbl : list url_row) :
  has_key u_id i tbl = true <-> exists r, In r tbl /\ u_id r = i.
Proof.
  unfold has_key. rewrite existsb_exists. split; intros (r & I & E); exists r;
    (split; [assumption|]); now apply Z.eqb_eq.
Qed.

Lemma filter_none {A} (f : A -> bool) (l : list A) :
  (forall x, In x l -> f x = false) -> filter f l = [].
Proof.
  induction l as [|a l IH]; intros H; simpl; [reflexivity|].
  rewrite (H a (or_introl eq_refl)). apply IH. intros x I. apply H. now right.
Qed.

(** With [id] a key, the select finds the one row of that id. *)
Lemma select_url_unique (db : store) (i : Z) (r : url_row) :
  NoDup (List.map u_id (tbl_urls db)) -> In r (tbl_urls db) -> u_id r = i ->
  select_url db i = [(u_url r, u_rev_host r)].
Proof.
  unfold select_url. induction (tbl_urls db) as [|a l IH]; intros ND I E; [contradiction|].
  cbn [List.map] in ND. inversion_clear ND as [|? ? NI ND'].
  cbn [filter]. destruct I as [-> | I].
  - rewrite E, Z.eqb_refl. cbn [List.map]. f_equal.
    rewrite filter_none; [reflexivity|].
    intros x Ix. apply Z.eqb_neq. intros Ex.
    apply NI. rewrite E, <- Ex. now apply in_map.
  - destruct (Z.eqb_spec (u_id a) i) as [Ea|Na]; [|now apply IH].
    exfalso. apply NI. rewrite Ea, <- E. now apply in_map.
Qed.

Lemma update_urls_ids (db : store) (i : Z) (tok : str) :
  List.map u_id (tbl_urls (update_urls db i (set_domains tok))) = List.map u_id (tbl_urls db).
Proof.
  unfold update_urls; cbn [tbl_urls]. rewrite map_map. apply map_ext.
  intros r. now destruct (u_id r =? i).
Qed.

Lemma has_key_ids (i : Z) (t t' : list url_row) :
  List.map u_id t = List.map u_id t' -> has_key u_id i t = has_key u_id i t'.
Proof.
  revert t'; induction t as [|a t IH]; intros [|a' t'] E; try discriminate; [reflexivity|].
  injection E as Ea E. unfold has_key in *; simpl. now rewrite Ea, (IH t' E).
Qed.

Lemma update_loop_hit (db : store) (k : nat) (i : Z) (ids : list Z)
    (entry_url host : str) (rev_host : option str) (rest : list (str * option str)) :
  select_url db i = (entry_url, rev_host) :: rest ->
  _is_url_r entry_url = Some host ->
  update_loop Kdomains (i :: ids) db k
  = update_loop Kdomains ids
      (update_urls db i (set_domains (anonym_id (fst (_hash_domain k host)) i))) (S k).
Proof. intros S U. cbn [update_loop]. now rewrite S, U. Qed.

Lemma update_loop_skip (kind : kind) (db : store) (k : nat) (i : Z) (ids : list Z)
    (entry_url : str) (rev_host : option str) (rest : list (str * option str)) :
  select_url db i = (entry_url, rev_host) :: rest ->
  _is_url_r entry_url = None ->
  update_loop kind (i :: ids) db k = update_loop kind ids db k.
Proof. intros S U. cbn [update_loop]. now rewrite S, U. Qed.

Lemma update_loop_domains (ids : list Z) :
  forall (db : store) (k : nat),
    NoDup (List.map u_id (tbl_urls db)) ->
    (forall i, In i ids -> has_key u_id i (tbl_urls db) = true) ->
    exists db' k',
      update_loop Kdomains ids db k = (db', k', None)
      /\ (k <= k')%nat
      /\ tbl_visits db' = tbl_visits db
      /\ Forall2 (domain_policy_applied k k' ids) (tbl_urls db) (tbl_urls db').
Proof.
  induction ids as [|i ids IH]; intros db k ND HK.
  - exists db, k. repeat split; auto.
    apply Forall2_refl_on. intros a. reflexivity.
  - destruct (proj1 (has_key_In i _) (HK i (or_introl eq_refl))) as (r0 & I0 & E0).
    pose proof (select_url_unique db i r0 ND I0 E0) as S0.
    assert (Same : forall a, In a (tbl_urls db) -> u_id a = i -> u_url a = u_url r0).
    { intros a Ia Ea. pose proof (select_url_unique db i a ND Ia Ea) as Sa.
      rewrite S0 in Sa. now injection Sa. }
    destruct (_is_url_r (u_url r0)) as [host|] eqn:U.
    + rewrite (update_loop_hit db k i ids _ host _ _ S0 U).
      set (tok := anonym_id (fst (_hash_domain k host)) i).
      destruct (IH (update_urls db i (set_domains tok)) (S k)) as (db' & k' & L & Kle & V & F).
      { now rewrite update_urls_ids. }
      { intros i' I'. rewrite (has_key_ids i' _ (tbl_urls db)) by apply update_urls_ids.
        apply HK. now right. }
      exists db', k'. split; [exact L|]. split; [lia|]. split; [exact V|].
      unfold update_urls in F; cbn [tbl_urls] in F. apply Forall2_map_left in F.
      eapply Forall2_impl_In; [|exact F]. intros a b Ia P. cbv beta in P.
      unfold domain_policy_applied in *.
      destruct (Z.eqb_spec (u_id a) i) as [Ea|Na].
      * cbn [u_url set_domains] in P.
        assert (T : _is_url tok = false).
        { unfold _is_url, tok. now rewrite anonym_id_no_url. }
        rewrite T, andb_false_r in P.
        rewrite Ea, mem_cons_same, (Same a Ia Ea).
        rewrite (proj2 (is_url_true (u_url r0))) by eauto. cbn [andb].
        exists host, k. repeat split; try assumption; try lia.
        intros d c Ic Nc. subst b. cbn [u_url set_domains].
        exact (not_contained token_char d _ c (anonym_id_chars k host i) Ic Nc).
      * rewrite (mem_cons_other _ _ _ Na).
        destruct (mem (u_id a) ids && _is_url (u_url a)); [|exact P].
        destruct P as (h & j & P1 & P2 & P3 & P4). exists h, j.
        repeat split; try assumption; lia.
    + rewrite (update_loop_skip Kdomains db k i ids _ _ _ S0 U).
      destruct (IH db k ND (fun i' I' => HK i' (or_intror I'))) as (db' & k' & L & Kle & V & F).
      exists db', k'. repeat split; try assumption.
      eapply Forall2_impl_In; [|exact F]. intros a b Ia P.
      unfold domain_policy_applied in *.
      destruct (Z.eqb_spec (u_id a) i) as [Ea|Na].
      * assert (T : _is_url (u_url a) = false).
        { unfold _is_url. now rewrite (Same a Ia Ea), U. }
        rewrite T, andb_false_r in *. exact P.
      * now rewrite (mem_cons_other _ _ _ Na).
Qed.

(** C5, amended: for a key of the domain selection whose ids all have a
    row, [_update_db] with kind [domains] ends without an exception, and
    every row whose id is among them and whose URL has a host part gets,
    as its URL, the token built from the salted hash of that host and the
    salt, and the placeholder as title, reverse host and redirect chain;
    every other row is left as it is.  The token does not contain the
    host when the host has a character that no token has, a dot or a
    colon. *)
Theorem update_db_domains (self : BrowsingHistory) (db : store) (k : nat) (x : str)
    (ids : list Z) :
  ids_of fst (_domains self) x = Ok ids ->
  NoDup (List.map u_id (tbl_urls db)) ->
  (forall i, In i ids -> has_key u_id i (tbl_urls db) = true) ->
  exists db' k',
    _update_db self db k (PyStr x) Kdomains = (db', k', None)
    /\ tbl_visits db' = tbl_visits db
    /\ Forall2 (domain_policy_applied k k' ids) (tbl_urls db) (tbl_urls db').
Proof.
  intros D ND HK. unfold _update_db. rewrite D.
  destruct (update_loop_domains ids db k ND HK) as (db' & k' & L & _ & V & F).
  now exists db', k'.
Qed.

(** ** The host part of a URL *)

Lemma strip_prefix_stop (p t z : str) (c : N) :
  ~ In c p ->
  strip_prefix p (t ++ c :: z) = option_map (fun r => r ++ c :: z) (strip_prefix p t).
Proof.
  revert t; induction p as [|x p IH]; intros t NI; [reflexivity|].
  destruct t as [|y t]; cbn [strip_prefix app].
  - destruct (N.eqb_spec x c) as [->|_]; [|reflexivity].
    exfalso. apply NI. now left.
  - destruct (x =? y)%N; [|reflexivity]. apply IH. intros I. apply NI. now right.
Qed.

Lemma take_while_stop (f : N -> bool) (t z : str) (c : N) :
  f c = false -> take_while f (t ++ c :: z) = take_while f t.
Proof.
  intros F. induction t as [|y t IH]; cbn [take_while app].
  - now rewrite F.
  - destruct (f y); [now rewrite IH | reflexivity].
Qed.

Lemma drop_while_stop (f : N -> bool) (t z : str) (c : N) :
  f c = false -> drop_while f (t ++ c :: z) = drop_while f t ++ c :: z.
Proof.
  intros F. induction t as [|y t IH]; cbn [drop_while app].
  - now rewrite F.
  - destruct (f y); [exact IH | reflexivity].
Qed.

(** A search for the host pattern that starts in front of a [://]: the
    text before it, when it has no colon, holds no match. *)
Lemma re_search_url_scheme (scheme rest : str) :
  ~ In 58%N scheme ->
  re_search url_pattern (scheme ++ lit "://" ++ rest)
  = re_search url_pattern (lit "://" ++ rest).
Proof.
  induction scheme as [|c scheme IH]; intros NC; [reflexivity|].
  cbn [app re_search].
  assert (U : url_pattern (c :: scheme ++ lit "://" ++ rest) = None).
  { unfold url_pattern. cbn [lit String.list_ascii_of_string List.map strip_prefix].
    destruct (N.eqb_spec (N_of_ascii ":") c) as [E|_]; [|reflexivity].
    exfalso. apply NC. left. rewrite <- E. reflexivity. }
  rewrite U. apply IH. intros I. apply NC. now right.
Qed.

(** X1: [_is_url] and [_stem_url] on [scheme://host...]: the host is the run
    of characters of [[a-z0-9.:-]] that follows the first [://], up to
    the first character outside that class. *)
Theorem is_url_host_part (scheme host rest : str) :
  ~ In 58%N scheme ->
  host <> [] ->
  Forall (fun c => host_char c = true) host ->
  match rest with
  | [] => True
  | c :: _ => host_char c = false
  end ->
  _is_url_r (scheme ++ lit "://" ++ host ++ rest) = Some host
  /\ _is_url (scheme ++ lit "://" ++ host ++ rest) = true
  /\ _stem_url (scheme ++ lit "://" ++ host ++ rest)
     = if str_eqb (firstn 4 host) (lit "www.") then skipn 4 host else host.
Proof.
  intros NC NE F R.
  assert (U : _is_url_r (scheme ++ lit "://" ++ host ++ rest) = Some host).
  { unfold _is_url_r. rewrite re_search_url_scheme by exact NC.
    apply re_search_head. unfold url_pattern. rewrite strip_prefix_app.
    destruct (take_while_all host_char host rest F R) as [T _]. rewrite T.
    destruct host; [contradiction|reflexivity]. }
  split; [exact U|]. split.
  - unfold _is_url. now rewrite U.
  - unfold _stem_url. now rewrite U.
Qed.

(** ** What the statistics see of an anonymised row *)

Lemma hash_domain_parts (k : nat) (host : str) :
  exists sha salt,
    fst (_hash_domain k host) = sha ++ lit "-" ++ salt
    /\ sha <> [] /\ salt <> []
    /\ Forall (fun c => is_word c = true) sha
    /\ Forall (fun c => is_word c = true) salt.
Proof.
  assert (W : forall l, Forall (fun c => is_hex c = true) l ->
                        Forall (fun c => is_word c = true) l).
  { intros l. apply Forall_impl. intros c H.
    unfold is_hex, is_digit, in_range in H. unfold is_word, is_lower, is_upper, is_digit, in_range.
    rewrite orb_true_iff, !andb_true_iff, !N.leb_le in H.
    destruct (N.ltb_spec c 128) as [_|G]; [|lia].
    rewrite !orb_true_iff, !andb_true_iff, !N.leb_le. lia. }
  exists (SHA256.hexdigest (encode (uuid4_hex k) ++ encode host)), (uuid4_hex k).
  destruct (hexdigest_shape (encode (uuid4_hex k) ++ encode host)) as [L H].
  split; [reflexivity|]. split.
  - intros E. rewrite E in L. discriminate L.
  - split.
    + intros E. pose proof (length_hex 32 (uuid4_int (urandom k))) as L'.
      unfold uuid4_hex in E. rewrite E in L'. discriminate L'.
    + split; apply W; [exact H | apply hex_is_hex].
Qed.

Lemma stem_token (k : nat) (host : str) (i : Z) :
  _stem_url (anonym_id (fst (_hash_domain k host)) i)
  = lit "anonymisiert-" ++ fst (_hash_domain k host).
Proof.
  rewrite stem_unfold_no_url by apply anonym_id_no_url.
  destruct (hash_domain_parts k host) as (sha & salt & E & N1 & N2 & W1 & W2).
  rewrite E.
  assert (M : anonym_pattern (anonym_id (sha ++ lit "-" ++ salt) i)
              = Some (lit "anonymisiert-" ++ sha ++ lit "-" ++ salt)).
  { unfold anonym_pattern, anonym_id.
    change (lit "anonymisiert" ++ lit "-" ++ (sha ++ lit "-" ++ salt) ++ lit "-" ++ str_of_Z i)
      with (lit "anonymisiert-" ++ (sha ++ lit "-" ++ salt) ++ lit "-" ++ str_of_Z i).
    rewrite strip_prefix_app, <- !app_assoc.
    destruct (take_while_all is_word sha (lit "-" ++ salt ++ lit "-" ++ str_of_Z i) W1
                is_word_hyphen) as [T1 D1].
    rewrite T1, D1. rewrite strip_prefix_app.
    destruct (take_while_all is_word salt (lit "-" ++ str_of_Z i) W2 is_word_hyphen) as [T2 _].
    rewrite T2.
    destruct sha as [|c sha]; [contradiction|].
    destruct salt as [|c' salt]; [contradiction|]. reflexivity. }
  now rewrite (re_search_head _ _ _ M).
Qed.

(** X2: the stem of an anonymised URL is the token without the row id: the
    pattern [anonymisiert-[\w]+\-[\w]+] stops at the hyphen in front of
    the id.  In the statistics the row therefore goes under
    [anonymisiert-<hash>-<salt>]. *)
Theorem stem_of_token_drops_id (k : nat) (host : str) (i : Z) :
  _stem_url (anonym_id (fst (_hash_domain k host)) i)
  = lit "anonymisiert-" ++ fst (_hash_domain k host)
  /\ _stem_url (anonym_id (fst (_hash_domain k host)) i)
     <> anonym_id (fst (_hash_domain k host)) i.
Proof.
  split; [apply stem_token|]. rewrite stem_token. unfold anonym_id.
  change (lit "anonymisiert" ++ lit "-" ++ fst (_hash_domain k host) ++ lit "-" ++ str_of_Z i)
    with (lit "anonymisiert-" ++ fst (_hash_domain k host) ++ lit "-" ++ str_of_Z i).
  intros E. apply app_inv_head in E.
  rewrite <- (app_nil_r (fst (_hash_domain k host))) in E at 1.
  apply app_inv_head in E. discriminate E.
Qed.

(** ** Stemmed domains with the path placeholder *)

Lemma is_word_slash : is_word slash = false.
Proof. reflexivity. Qed.

(** The token pattern does not read past a slash. *)
Lemma anonym_pattern_slash (t z : str) :
  anonym_pattern (t ++ slash :: z) = anonym_pattern t.
Proof.
  unfold anonym_pattern.
  rewrite strip_prefix_stop
    by (cbn; unfold slash; intros H; repeat (destruct H as [H|H]; [discriminate H|]); exact H).
  destruct (strip_prefix (lit "anonymisiert-") t) as [r|]; [|reflexivity].
  cbn [option_map].
  rewrite (take_while_stop is_word r z slash is_word_slash).
  rewrite (drop_while_stop is_word r z slash is_word_slash).
  destruct (take_while is_word r) as [|c w1]; [reflexivity|].
  rewrite strip_prefix_stop
    by (cbn; unfold slash; intros [H|[]]; discriminate H).
  destruct (strip_prefix (lit "-") (drop_while is_word r)) as [r2|]; [|reflexivity].
  cbn [option_map].
  now rewrite (take_while_stop is_word r2 z slash is_word_slash).
Qed.

Lemma re_search_anonym_starred (t : str) :
  re_search anonym_pattern (t ++ lit "/***") = re_search anonym_pattern t.
Proof.
  induction t as [|c t IH]; [reflexivity|].
  cbn [app re_search].
  change (c :: t ++ lit "/***") with ((c :: t) ++ slash :: lit "***").
  rewrite anonym_pattern_slash, <- IH. reflexivity.
Qed.

Lemma starred_no_url (s : str) : no_slash s -> _is_url_r (s ++ lit "/***") = None.
Proof.
  unfold _is_url_r. induction s as [|c s IH]; intros NS; [reflexivity|].
  cbn [app re_search].
  assert (U : url_pattern (c :: s ++ lit "/***") = None).
  { unfold url_pattern.
    destruct (strip_prefix (lit "://") (c :: s ++ lit "/***")) as [r|] eqn:E; [|reflexivity].
    exfalso. apply strip_prefix_Some in E.
    destruct s as [|d s]; [discriminate E|].
    injection E as _ E _. apply NS. right. left. unfold slash. now rewrite E. }
  rewrite U. apply IH. intros I. apply NS. now right.
Qed.

Lemma last4_starred (s : str) :
  last4_reversed (s ++ lit "/***") = lit "***/" /\ drop_last4 (s ++ lit "/***") = s.
Proof.
  unfold last4_reversed, drop_last4. split.
  - rewrite rev_app_distr. reflexivity.
  - rewrite length_app. cbn [lit String.list_ascii_of_string List.map List.length].
    replace (List.length s + 4 - 4)%nat with (List.length s + 0)%nat by lia.
    rewrite firstn_app_2. cbn [firstn]. apply app_nil_r.
Qed.

(** A stem without a token, with [/***] put behind it, is stemmed back
    to itself. *)
Lemma stem_starred (s : str) :
  no_slash s -> re_search anonym_pattern s = None -> _stem_url (s ++ lit "/***") = s.
Proof.
  intros NS NT.
  rewrite stem_unfold_no_url by now apply starred_no_url.
  rewrite re_search_anonym_starred, NT.
  destruct (last4_starred s) as [L D]. rewrite L, D.
  now rewrite str_eqb_refl.
Qed.

Lemma stem_host_chars (x host : str) :
  _is_url_r x = Some host ->
  Forall (fun c => host_char c = true) (_stem_url x)
  /\ exists k, _stem_url x = skipn k host.
Proof.
  intros U. unfold _stem_url. rewrite U.
  destruct (is_url_r_host x host U) as [_ F].
  destruct (str_eqb (firstn 4 host) (lit "www.")).
  - split; [|now exists 4%nat].
    rewrite <- (firstn_skipn 4 host) in F. now apply Forall_app in F.
  - split; [exact F | now exists 0%nat].
Qed.

(** With no token in the host, the URL that the [urls] policy writes has
    the stem of the URL it replaces. *)
Lemma stem_of_starred_stem (x host : str) :
  _is_url_r x = Some host -> re_search anonym_pattern host = None ->
  _stem_url (_stem_url x ++ lit "/" ++ stars) = _stem_url x
  /\ _is_url_r (_stem_url x ++ lit "/" ++ stars) = None.
Proof.
  intros U NT. destruct (stem_host_chars x host U) as [F [k E]].
  assert (NS : no_slash (_stem_url x)) by exact (Forall_no_slash _ _ host_char_no_slash F).
  change (lit "/" ++ stars) with (lit "/***"). split.
  - apply stem_starred; [exact NS|]. rewrite E. now apply re_search_suffix.
  - now apply starred_no_url.
Qed.

(** ** What every anonymisation keeps *)

Lemma row_kept_refl (r : url_row) : row_kept r r.
Proof. unfold row_kept. repeat split; auto. Qed.

Lemma row_kept_trans (a b c : url_row) : row_kept a b -> row_kept b c -> row_kept a c.
Proof.
  unfold row_kept. intros (A1 & A2 & A3 & A4 & A5) (B1 & B2 & B3 & B4 & B5).
  repeat split; try congruence.
  destruct B5 as [-> | B5]; [exact A5 | now right].
Qed.

Lemma Forall2_compose {A} (R : A -> A -> Prop) (g : A -> A) (l l' : list A) :
  (forall a b c, R a b -> R b c -> R a c) ->
  (forall a, R a (g a)) ->
  Forall2 R (List.map g l) l' -> Forall2 R l l'.
Proof.
  intros T G F. apply Forall2_map_left in F.
  eapply Forall2_impl_In; [|exact F]. intros a b _ H. exact (T _ _ _ (G a) H).
Qed.

Lemma update_urls_kept (db : store) (i : Z) (f : url_row -> url_row) (l' : list url_row) :
  (forall r, row_kept r (f r)) ->
  Forall2 row_kept (tbl_urls (update_urls db i f)) l' ->
  Forall2 row_kept (tbl_urls db) l'.
Proof.
  intros K. unfold update_urls; cbn [tbl_urls].
  apply Forall2_compose; [exact row_kept_trans|].
  intros a. destruct (u_id a =? i); [apply K | apply row_kept_refl].
Qed.

Lemma set_keywords_kept (u : str) (r : url_row) : row_kept r (set_keywords u r).
Proof. unfold row_kept; cbn. repeat split; auto. Qed.

Lemma set_urls_kept (u : str) (r : url_row) : row_kept r (set_urls u r).
Proof. unfold row_kept; cbn. repeat split; auto. Qed.

Lemma set_domains_kept (u : str) (r : url_row) : row_kept r (set_domains u r).
Proof. unfold row_kept; cbn. repeat split; auto. Qed.

Lemma update_loop_kept (kind : kind) (ids : list Z) :
  forall (db : store) (k : nat),
    tbl_visits (fst (fst (update_loop kind ids db k))) = tbl_visits db
    /\ Forall2 row_kept (tbl_urls db) (tbl_urls (fst (fst (update_loop kind ids db k)))).
Proof.
  assert (R : forall db : store, Forall2 row_kept (tbl_urls db) (tbl_urls db)).
  { intros db. apply Forall2_refl_on. exact row_kept_refl. }
  induction ids as [|i ids IH]; intros db k; cbn [update_loop]; [split; [reflexivity|apply R]|].
  destruct (select_url db i) as [|[entry_url rh] rest]; [split; [reflexivity|apply R]|].
  destruct (_is_url_r entry_url) as [url|]; [|apply IH].
  unfold _hash_domain. cbv iota beta.
  destruct kind.
  - destruct (IH (update_urls db i (set_domains (anonym_id
        (SHA256.hexdigest (encode (uuid4_hex k) ++ encode url) ++ lit "-" ++ uuid4_hex k) i)))
        (S k)) as [V F].
    split; [exact V|]. eapply update_urls_kept; [|exact F]. intros r. apply set_domains_kept.
  - destruct (IH (update_urls db i (set_keywords (re_sub_keywords (anonym_id
        (SHA256.hexdigest (encode (uuid4_hex k) ++ encode url) ++ lit "-" ++ uuid4_hex k) i)
        entry_url))) (S k)) as [V F].
    split; [exact V|]. eapply update_urls_kept; [|exact F]. intros r. apply set_keywords_kept.
  - destruct (IH (update_urls db i (set_urls (_stem_url entry_url ++ lit "/" ++ stars)))
        (S k)) as [V F].
    split; [exact V|]. eapply update_urls_kept; [|exact F]. intros r. apply set_urls_kept.
  - split; [reflexivity|apply R].
Qed.

Lemma kept_ids (l l' : list url_row) :
  Forall2 row_kept l l' -> List.map u_id l' = List.map u_id l.
Proof.
  induction 1 as [|a b l l' H F IH]; [reflexivity|].
  cbn [List.map]. destruct H as [H _]. now rewrite H, IH.
Qed.

(** X3: whatever its arguments and however it ends, [_update_db] leaves the
    visits table as it is, and of every URL row the id, the visit count,
    the typed count and the date of the last visit; a row is untouched
    or carries the placeholder title. *)
Theorem update_db_keeps_counters (self : BrowsingHistory) (db : store) (k : nat)
    (x : pyval) (kind : kind) :
  exists db' k' e,
    _update_db self db k x kind = (db', k', e)
    /\ tbl_visits db' = tbl_visits db
    /\ Forall2 row_kept (tbl_urls db) (tbl_urls db')
    /\ List.map u_id (tbl_urls db') = List.map u_id (tbl_urls db)
    /\ sum (List.map u_visit_count (tbl_urls db'))
       = sum (List.map u_visit_count (tbl_urls db)).
Proof.
  destruct (_update_db self db k x kind) as [[db' k'] ex] eqn:Q.
  exists db', k', ex. split; [reflexivity|].
  replace db' with (fst (fst (_update_db self db k x kind))) by now rewrite Q.
  clear Q.
  assert (G : tbl_visits (fst (fst (_update_db self db k x kind))) = tbl_visits db
              /\ Forall2 row_kept (tbl_urls db)
                   (tbl_urls (fst (fst (_update_db self db k x kind))))).
  { unfold _update_db.
    destruct (match x with
              | PyStr s => match kind with
                           | Kkeywords => ids_of (fun v => v) (_keywords self) s
                           | _ => ids_of fst (_domains self) s
                           end
              | PyList l => match kind with
                            | Kurls => Ok l
                            | _ => Raise ValueError
                            end
              | _ => Raise ValueError
              end) as [ids|e].
    - apply update_loop_kept.
    - split; [reflexivity|]. apply Forall2_refl_on. exact row_kept_refl. }
  destruct G as [V F]. split; [exact V|]. split; [exact F|]. split; [now apply kept_ids|].
  f_equal. clear V. induction F as [|a b l l' H F IH]; [reflexivity|].
  cbn [List.map]. destruct H as (_ & H & _). now rewrite H, IH.
Qed.

(** ** Lists of ids worked through in pieces *)

Lemma update_loop_app (kind : kind) (ids1 ids2 : list Z) :
  forall (db : store) (k : nat),
    update_loop kind (ids1 ++ ids2) db k
    = match update_loop kind ids1 db k with
      | (db1, k1, None) => update_loop kind ids2 db1 k1
      | stopped => stopped
      end.
Proof.
  induction ids1 as [|i ids1 IH]; intros db k; [reflexivity|].
  cbn [app update_loop].
  destruct (select_url db i) as [|[entry_url rh] rest]; [reflexivity|].
  destruct (_is_url_r entry_url) as [url|]; [|apply IH].
  unfold _hash_domain. cbv iota beta.
  destruct kind; try apply IH. reflexivity.
Qed.

Lemma select_url_missing (db : store) (i : Z) :
  has_key u_id i (tbl_urls db) = false -> select_url db i = [].
Proof.
  intros H. unfold select_url. rewrite filter_none; [reflexivity|].
  intros r I. destruct (Z.eqb_spec (u_id r) i) as [E|]; [|reflexivity].
  assert (T : has_key u_id i (tbl_urls db) = true) by (apply has_key_In; eauto).
  congruence.
Qed.

(** X4: an id without a row ends [_update_db] with [IndexError], and the
    updates made for the ids in front of it stay: the store is the one a
    call with those ids alone leaves. *)
Theorem update_db_stops_at_missing_row (self : BrowsingHistory) (db db1 : store)
    (k k1 : nat) (done rest : list Z) (i : Z) :
  _update_db self db k (PyList done) Kurls = (db1, k1, None) ->
  has_key u_id i (tbl_urls db) = false ->
  _update_db self db k (PyList (done ++ i :: rest)) Kurls = (db1, k1, Some IndexError).
Proof.
  unfold _update_db. intros L H. rewrite update_loop_app, L.
  cbn [update_loop]. rewrite select_url_missing; [reflexivity|].
  rewrite <- H. apply has_key_ids.
  destruct (update_loop_kept Kurls done db k) as [_ F]. rewrite L in F.
  now apply kept_ids.
Qed.

(** ** A second pass *)

Lemma filter_id_map (i : Z) (g : url_row -> url_row) (l : list url_row) :
  (forall r, u_id (g r) = u_id r) ->
  filter (fun r => u_id r =? i) (List.map g l)
  = List.map g (filter (fun r => u_id r =? i) l).
Proof.
  intros G. induction l as [|a l IH]; [reflexivity|].
  cbn [List.map filter]. rewrite G. destruct (u_id a =? i); cbn [List.map]; now rewrite IH.
Qed.

Lemma select_url_update (db : store) (i j : Z) (f : url_row -> url_row) :
  (forall r, u_id (f r) = u_id r) ->
  select_url (update_urls db j f) i
  = if i =? j
    then List.map (fun r => (u_url (f r), u_rev_host (f r)))
           (filter (fun r => u_id r =? i) (tbl_urls db))
    else select_url db i.
Proof.
  intros G. unfold select_url, update_urls. cbn [tbl_urls].
  rewrite filter_id_map by (intros r; destruct (u_id r =? j); [apply G|reflexivity]).
  rewrite map_map.
  destruct (Z.eqb_spec i j) as [->|N]; apply map_ext_in; intros r I;
    apply filter_In in I as [_ I]; apply Z.eqb_eq in I.
  - now rewrite I, Z.eqb_refl.
  - destruct (Z.eqb_spec (u_id r) j); [congruence|reflexivity].
Qed.

Lemma settled_update (db : store) (i j : Z) (f : url_row -> url_row) :
  (forall r, u_id (f r) = u_id r) ->
  (forall r, _is_url_r (u_url (f r)) = None) ->
  (settled db i -> settled (update_urls db j f) i)
  /\ (select_url db j <> [] -> settled (update_urls db j f) j).
Proof.
  intros G U. unfold settled. split.
  - rewrite select_url_update by exact G.
    destruct (i =? j); [|trivial]. unfold select_url.
    destruct (filter (fun r => u_id r =? i) (tbl_urls db)) as [|a l]; [trivial|].
    cbn [List.map]. intros _. apply U.
  - rewrite select_url_update, Z.eqb_refl by exact G. unfold select_url.
    destruct (filter (fun r => u_id r =? j) (tbl_urls db)) as [|a l]; [now intros H|].
    cbn [List.map]. intros _. apply U.
Qed.

Lemma update_loop_settles (kind : kind) (ids : list Z) :
  kind = Kdomains \/ kind = Kurls ->
  forall (db db1 : store) (k k1 : nat),
    update_loop kind ids db k = (db1, k1, None) ->
    (forall i, settled db i -> settled db1 i) /\ Forall (settled db1) ids.
Proof.
  intros K. induction ids as [|i ids IH]; intros db db1 k k1; cbn [update_loop].
  - intros E. injection E as <- <-. split; [trivial|constructor].
  - destruct (select_url db i) as [|[entry_url rh] rest] eqn:S; [discriminate|].
    destruct (_is_url_r entry_url) as [url|] eqn:U.
    + unfold _hash_domain. cbv iota beta.
      assert (NE : select_url db i <> []) by (rewrite S; discriminate).
      destruct K as [-> | ->]; intros L; apply IH in L as [P F].
      * destruct (settled_update db i i (set_domains (anonym_id
            (SHA256.hexdigest (encode (uuid4_hex k) ++ encode url) ++ lit "-" ++ uuid4_hex k) i)))
          as [_ Q]; [reflexivity | intros r; apply (anonym_id_no_url k url i) |].
        split; [|constructor; [apply P, Q, NE | exact F]].
        intros i' H. apply P.
        apply (settled_update db i' i); [reflexivity | | exact H].
        intros r. apply (anonym_id_no_url k url i).
      * assert (NU : forall r : url_row,
                   _is_url_r (u_url (set_urls (_stem_url entry_url ++ lit "/" ++ stars) r))
                   = None).
        { intros r. cbn [u_url set_urls]. change (lit "/" ++ stars) with (lit "/***").
          apply starred_no_url.
          destruct (stem_host_chars entry_url url U) as [F' _].
          exact (Forall_no_slash _ _ host_char_no_slash F'). }
        destruct (settled_update db i i (set_urls (_stem_url entry_url ++ lit "/" ++ stars)))
          as [_ Q]; [reflexivity | exact NU |].
        split; [|constructor; [apply P, Q, NE | exact F]].
        intros i' H. apply P.
        apply (settled_update db i' i); [reflexivity | exact NU | exact H].
    + intros L. apply IH in L as [P F]. split; [exact P|].
      constructor; [|exact F]. apply P. unfold settled. now rewrite S.
Qed.

Lemma update_loop_settled (kind : kind) (ids : list Z) (db : store) (k : nat) :
  Forall (settled db) ids -> update_loop kind ids db k = (db, k, None).
Proof.
  induction 1 as [|i ids H F IH]; [reflexivity|].
  cbn [update_loop]. unfold settled in H.
  destruct (select_url db i) as [|[entry_url rh] rest]; [contradiction|].
  now rewrite H.
Qed.

(** X5: a call of [_update_db] with kind [domains] or [urls] that ended
    without an exception, made again on the store it left, changes
    nothing and draws no salt: the URLs it wrote have no host part, so
    the loop passes them over. *)
Theorem update_db_second_pass (self : BrowsingHistory) (db db1 : store) (k k1 : nat)
    (x : pyval) (kind : kind) :
  kind = Kdomains \/ kind = Kurls ->
  _update_db self db k x kind = (db1, k1, None) ->
  _update_db self db1 k1 x kind = (db1, k1, None).
Proof.
  unfold _update_db. intros K.
  destruct (match x with
            | PyStr s => match kind with
                         | Kkeywords => ids_of (fun v => v) (_keywords self) s
                         | _ => ids_of fst (_domains self) s
                         end
            | PyList l => match kind with
                          | Kurls => Ok l
                          | _ => Raise ValueError
                          end
            | _ => Raise ValueError
            end) as [ids|e]; [|discriminate].
  intros L. apply update_loop_settled.
  exact (proj2 (update_loop_settles kind ids K db db1 k k1 L)).
Qed.

(** ** Anonymising by URL keeps the statistics *)

Lemma update_urls_same_ids (db : store) (i : Z) (f : url_row -> url_row) :
  (forall r, u_id (f r) = u_id r) ->
  List.map u_id (tbl_urls (update_urls db i f)) = List.map u_id (tbl_urls db).
Proof.
  intros G. unfold update_urls; cbn [tbl_urls]. rewrite map_map. apply map_ext.
  intros r. destruct (u_id r =? i); [apply G|reflexivity].
Qed.

Lemma update_loop_urls (ids : list Z) :
  forall (db : store) (k : nat),
    NoDup (List.map u_id (tbl_urls db)) ->
    (forall i, In i ids -> has_key u_id i (tbl_urls db) = true) ->
    exists db' k',
      update_loop Kurls ids db k = (db', k', None)
      /\ tbl_visits db' = tbl_visits db
      /\ Forall2 (urls_policy_applied ids) (tbl_urls db) (tbl_urls db').
Proof.
  induction ids as [|i ids IH]; intros db k ND HK.
  - exists db, k. repeat split. apply Forall2_refl_on. intros a. reflexivity.
  - destruct (proj1 (has_key_In i _) (HK i (or_introl eq_refl))) as (r0 & I0 & E0).
    pose proof (select_url_unique db i r0 ND I0 E0) as S0.
    assert (Same : forall a, In a (tbl_urls db) -> u_id a = i -> u_url a = u_url r0).
    { intros a Ia Ea. pose proof (select_url_unique db i a ND Ia Ea) as Sa.
      rewrite S0 in Sa. now injection Sa. }
    cbn [update_loop]. rewrite S0.
    destruct (_is_url_r (u_url r0)) as [host|] eqn:U.
    + unfold _hash_domain. cbv iota beta.
      set (dom := _stem_url (u_url r0) ++ lit "/" ++ stars).
      destruct (IH (update_urls db i (set_urls dom)) (S k)) as (db' & k' & L & V & F).
      { now rewrite update_urls_same_ids. }
      { intros i' I'. rewrite (has_key_ids i' _ (tbl_urls db))
          by now apply update_urls_same_ids.
        apply HK. now right. }
      exists db', k'. split; [exact L|]. split; [exact V|].
      unfold update_urls in F; cbn [tbl_urls] in F. apply Forall2_map_left in F.
      eapply Forall2_impl_In; [|exact F]. intros a b Ia P. cbv beta in P.
      unfold urls_policy_applied in *.
      destruct (Z.eqb_spec (u_id a) i) as [Ea|Na].
      * cbn [u_id u_url set_urls] in P.
        assert (T : _is_url dom = false).
        { unfold _is_url, dom. change (lit "/" ++ stars) with (lit "/***").
          rewrite starred_no_url; [reflexivity|].
          destruct (stem_host_chars _ _ U) as [F' _].
          exact (Forall_no_slash _ _ host_char_no_slash F'). }
        rewrite T, andb_false_r in P.
        rewrite Ea, mem_cons_same, (Same a Ia Ea).
        rewrite (proj2 (is_url_true (u_url r0))) by eauto. exact P.
      * now rewrite (mem_cons_other _ _ _ Na).
    + destruct (IH db k ND (fun i' I' => HK i' (or_intror I'))) as (db' & k' & L & V & F).
      exists db', k'. repeat split; try assumption.
      eapply Forall2_impl_In; [|exact F]. intros a b Ia P.
      unfold urls_policy_applied in *.
      destruct (Z.eqb_spec (u_id a) i) as [Ea|Na].
      * assert (T : _is_url (u_url a) = false).
        { unfold _is_url. now rewrite (Same a Ia Ea), U. }
        rewrite T, andb_false_r in *. exact P.
      * now rewrite (mem_cons_other _ _ _ Na).
Qed.

(** The loop of [visits] reads of a row its stem, its count and its
    id. *)
Lemma visits_step_ext (st : list (str * Z) * list Z) (r r' : str * Z * Z) :
  row_domain r = row_domain r' -> row_count r = row_count r' -> snd r = snd r' ->
  visits_step st r = visits_step st r'.
Proof.
  unfold row_domain, row_count, visits_step. destruct st as [d seen].
  now intros -> -> ->.
Qed.

Lemma visit_totals_ext (rows rows' : list (str * Z * Z)) :
  Forall2 (fun r r' => row_domain r = row_domain r' /\ row_count r = row_count r'
                       /\ snd r = snd r') rows rows' ->
  visit_totals rows = visit_totals rows'.
Proof.
  intros F0. unfold visit_totals. generalize (@nil (str * Z), @nil Z).
  induction F0 as [|r r' rows rows' (H1 & H2 & H3) F IH]; intros st; [reflexivity|].
  cbn [fold_left]. rewrite (visits_step_ext _ r r' H1 H2 H3). apply IH.
Qed.

Lemma Forall2_app_both {A B} (R : A -> B -> Prop) (l1 l2 : list A) (m1 m2 : list B) :
  Forall2 R l1 m1 -> Forall2 R l2 m2 -> Forall2 R (l1 ++ l2) (m1 ++ m2).
Proof. induction 1; intros; cbn [app]; [assumption|constructor; auto]. Qed.

Lemma visits_query_ext (db db' : store) (date : option (Z * Z)) :
  tbl_visits db' = tbl_visits db ->
  Forall2 (fun r r' => u_id r' = u_id r /\ u_visit_count r' = u_visit_count r
                       /\ _stem_url (u_url r') = _stem_url (u_url r))
    (tbl_urls db) (tbl_urls db') ->
  visit_totals (visits_query db date) = visit_totals (visits_query db' date).
Proof.
  intros V F. apply visit_totals_ext. unfold visits_query. rewrite V.
  induction (filter (in_date date) (tbl_visits db)) as [|v vs IH]; [constructor|].
  cbn [flat_map]. apply Forall2_app_both; [|exact IH]. clear IH.
  induction F as [|r r' l l' (H1 & H2 & H3) F IH]; [constructor|].
  cbn [filter]. rewrite H1. destruct (u_id r =? v_url_id v); [|exact IH].
  cbn [List.map]. constructor; [|exact IH].
  unfold row_domain, row_count, url_query_row; cbn [fst snd]. auto.
Qed.

(** The loop of [select_domains] likewise. *)
Lemma select_domains_ext (db db' : store) (sort_by : sort_key) :
  Forall2 (fun r r' => u_id r' = u_id r /\ u_visit_count r' = u_visit_count r
                       /\ _stem_url (u_url r') = _stem_url (u_url r))
    (tbl_urls db) (tbl_urls db') ->
  select_domains db sort_by true = select_domains db' sort_by true.
Proof.
  intros F. unfold select_domains.
  assert (E : fold_left (select_step true)
                (List.map (fun u => (u_id u, u_url u, u_visit_count u)) (tbl_urls db)) []
              = fold_left (select_step true)
                  (List.map (fun u => (u_id u, u_url u, u_visit_count u)) (tbl_urls db')) []).
  { generalize (@nil (str * (list Z * Z))).
    induction F as [|r r' l l' (H1 & H2 & H3) F IH]; intros d; [reflexivity|].
    cbn [List.map fold_left].
    replace (select_step true d (u_id r', u_url r', u_visit_count r'))
      with (select_step true d (u_id r, u_url r, u_visit_count r)); [apply IH|].
    unfold select_step; cbn [fst snd]. now rewrite H1, H2, H3. }
  now rewrite E.
Qed.

(** X6: anonymising URLs with kind [urls], when the ids are rows of the store
    and no host holds a token, changes neither what [visits] returns nor
    what [select_domains] lists: every rewritten URL, [<stem>/***], has
    the stem of the URL it replaces. *)
Theorem urls_policy_keeps_statistics (self : BrowsingHistory) (db : store) (k : nat)
    (ids : list Z) :
  NoDup (List.map u_id (tbl_urls db)) ->
  (forall i, In i ids -> has_key u_id i (tbl_urls db) = true) ->
  token_free db ->
  exists db' k',
    _update_db self db k (PyList ids) Kurls = (db', k', None)
    /\ Forall2 (urls_policy_applied ids) (tbl_urls db) (tbl_urls db')
    /\ (forall date n ascending, visits db' date n ascending = visits db date n ascending)
    /\ (forall sort_by, select_domains db' sort_by true = select_domains db sort_by true).
Proof.
  intros ND HK TF. unfold _update_db.
  destruct (update_loop_urls ids db k ND HK) as (db' & k' & L & V & F).
  exists db', k'. split; [exact L|]. split; [exact F|].
  assert (G : Forall2 (fun r r' => u_id r' = u_id r /\ u_visit_count r' = u_visit_count r
                                   /\ _stem_url (u_url r') = _stem_url (u_url r))
                (tbl_urls db) (tbl_urls db')).
  { eapply Forall2_impl_In; [|exact F]. intros a b Ia P.
    unfold urls_policy_applied in P.
    destruct (mem (u_id a) ids && _is_url (u_url a)) eqn:C; [|now subst b].
    subst b. cbn [u_id u_visit_count u_url set_urls]. repeat split.
    apply andb_true_iff in C as [_ C]. apply is_url_true in C as [host U].
    exact (proj1 (stem_of_starred_stem _ host U (TF a host Ia U))). }
  split.
  - intros date n ascending. unfold visits.
    now rewrite (visits_query_ext db db' date V G).
  - intros sort_by. symmetry. now apply select_domains_ext.
Qed.

(** ** Sorting *)

Lemma insert_sorted_Sorted {A} (le : A -> A -> bool) (x : A) (l : list A) :
  (forall a b, le a b = false -> le b a = true) ->
  Sorted (fun a b => le a b = true) l ->
  Sorted (fun a b => le a b = true) (insert_sorted le x l).
Proof.
  intros T. induction l as [|y l IH]; intros S; cbn [insert_sorted].
  - repeat constructor.
  - destruct (le x y) eqn:E.
    + constructor; [exact S | now constructor].
    + apply Sorted_inv in S as [S H]. constructor; [now apply IH|].
      destruct l as [|z l]; cbn [insert_sorted].
      * constructor. now apply T.
      * destruct (le x z); constructor; [now apply T|].
        now apply HdRel_inv in H.
Qed.

Lemma sorted_Sorted {A} (le : A -> A -> bool) (l : list A) :
  (forall a b, le a b = false -> le b a = true) ->
  Sorted (fun a b => le a b = true) (sorted le l).
Proof.
  intros T. induction l as [|x l IH]; [constructor|].
  cbn [sorted fold_right]. now apply insert_sorted_Sorted.
Qed.

Lemma insert_sorted_perm {A} (le : A -> A -> bool) (x : A) (l : list A) :
  Permutation (x :: l) (insert_sorted le x l).
Proof.
  induction l as [|y l IH]; cbn [insert_sorted]; [reflexivity|].
  destruct (le x y); [reflexivity|].
  rewrite perm_swap. now constructor.
Qed.

Lemma sorted_perm {A} (le : A -> A -> bool) (l : list A) : Permutation l (sorted le l).
Proof.
  induction l as [|x l IH]; [constructor|].
  cbn [sorted fold_right]. rewrite <- insert_sorted_perm. now constructor.
Qed.

Lemma Sorted_impl {A} (R R' : A -> A -> Prop) (l : list A) :
  (forall a b, R a b -> R' a b) -> Sorted R l -> Sorted R' l.
Proof.
  intros H. induction 1 as [|a l S IH Hd]; constructor; [exact IH|].
  destruct Hd; constructor; auto.
Qed.

Lemma Sorted_skipn {A} (R : A -> A -> Prop) (n : nat) (l : list A) :
  Sorted R l -> Sorted R (skipn n l).
Proof.
  revert l; induction n as [|n IH]; intros l S; [exact S|].
  destruct l as [|a l]; [constructor|]. cbn [skipn]. apply IH. now apply Sorted_inv in S.
Qed.

Lemma Sorted_firstn {A} (R : A -> A -> Prop) (n : nat) (l : list A) :
  Sorted R l -> Sorted R (firstn n l).
Proof.
  revert l; induction n as [|n IH]; intros l S; [constructor|].
  destruct l as [|a l]; [constructor|]. cbn [firstn].
  apply Sorted_inv in S as [S H]. constructor; [now apply IH|].
  destruct l as [|b l]; [destruct n; constructor|].
  destruct n; cbn [firstn]; constructor. now apply HdRel_inv in H.
Qed.

Lemma str_leb_total (a b : str) : str_leb a b = false -> str_leb b a = true.
Proof.
  revert b; induction a as [|x a IH]; intros [|y b]; cbn [str_leb]; try easy.
  destruct (N.ltb_spec x y) as [L|G]; [discriminate|].
  destruct (N.ltb_spec y x) as [L'|G']; [reflexivity|]. apply IH.
Qed.

(** A dict looked up after its items were sorted. *)
Lemma dict_get_perm {V} (k : str) (d d' : list (str * V)) :
  Permutation d d' -> NoDup (List.map fst d) -> dict_get k d' = dict_get k d.
Proof.
  induction 1 as [|[k1 v1] d d' P IH|[k1 v1] [k2 v2] d|d d' d'' P1 IH1 P2 IH2]; intros ND.
  - reflexivity.
  - cbn [dict_get]. cbn [List.map fst] in ND. apply NoDup_cons_iff in ND as [_ ND].
    now rewrite IH.
  - cbn [dict_get]. cbn [List.map fst] in ND.
    destruct (str_eqb k1 k) eqn:E1; destruct (str_eqb k2 k) eqn:E2; try reflexivity.
    apply str_eqb_eq in E1, E2. subst.
    apply NoDup_cons_iff in ND as [NI _]. exfalso. apply NI. now left.
  - rewrite IH2, IH1; [reflexivity|exact ND|].
    eapply Permutation_NoDup; [|exact ND]. now apply Permutation_map.
Qed.

(** ** [select_domains] *)

Lemma select_step_get (stem_urls : bool) (domain : str) (d : list (str * (list Z * Z)))
    (u : url_row) :
  dict_get domain (select_step stem_urls d (u_id u, u_url u, u_visit_count u))
  = match dict_get domain d with
    | Some e => Some (if str_eqb (domain_of stem_urls u) domain
                      then (fst e ++ [u_id u], snd e + u_visit_count u) else e)
    | None => if str_eqb (domain_of stem_urls u) domain
              then Some ([u_id u], u_visit_count u) else None
    end.
Proof.
  unfold select_step, domain_of. cbn [fst snd].
  set (key := if stem_urls then _stem_url (u_url u) else u_url u).
  rewrite dict_get_update.
  destruct (dict_get key d) as [e0|] eqn:K.
  - rewrite dict_get_update.
    destruct (str_eqb key domain) eqn:E.
    + apply str_eqb_eq in E. subst domain. rewrite K. reflexivity.
    + now destruct (dict_get domain d).
  - rewrite dict_get_app.
    destruct (str_eqb key domain) eqn:E.
    + apply str_eqb_eq in E. subst domain. rewrite K. reflexivity.
    + now destruct (dict_get domain d).
Qed.

Lemma select_fold_get (stem_urls : bool) (domain : str) (us : list url_row) :
  forall d,
    dict_get domain
      (fold_left (select_step stem_urls)
         (List.map (fun u => (u_id u, u_url u, u_visit_count u)) us) d)
    = let here := filter (fun u => str_eqb (domain_of stem_urls u) domain) us in
      match dict_get domain d with
      | Some e => Some (fst e ++ List.map u_id here, snd e + sum (List.map u_visit_count here))
      | None => match here with
                | [] => None
                | _ => Some (List.map u_id here, sum (List.map u_visit_count here))
                end
      end.
Proof.
  induction us as [|u us IH]; intros d; cbv zeta.
  - cbn [List.map fold_left filter]. destruct (dict_get domain d) as [[ids c]|]; [|reflexivity].
    cbn [fst snd List.map]. rewrite app_nil_r. unfold sum; cbn [fold_left]. now rewrite Z.add_0_r.
  - cbn [List.map fold_left filter]. rewrite IH. cbv zeta. rewrite select_step_get.
    destruct (str_eqb (domain_of stem_urls u) domain).
    + cbn [List.map]. rewrite sum_cons.
      destruct (dict_get domain d) as [[ids c]|]; cbn [fst snd].
      * now rewrite <- app_assoc, Z.add_assoc.
      * reflexivity.
    + now destruct (dict_get domain d) as [[ids c]|].
Qed.

Lemma select_step_keys (stem_urls : bool) (d : list (str * (list Z * Z))) (v : Z * str * Z) :
  NoDup (List.map fst d) -> NoDup (List.map fst (select_step stem_urls d v)).
Proof.
  intros ND. unfold select_step. rewrite keys_dict_update.
  destruct (dict_get _ d) eqn:K.
  - now rewrite keys_dict_update.
  - rewrite map_app. apply NoDup_snoc; [exact ND|]. now apply dict_get_None.
Qed.

Lemma select_fold_keys (stem_urls : bool) (rows : list (Z * str * Z)) :
  forall d, NoDup (List.map fst d) ->
            NoDup (List.map fst (fold_left (select_step stem_urls) rows d)).
Proof.
  induction rows as [|v rows IH]; intros d ND; [exact ND|].
  cbn [fold_left]. apply IH. now apply select_step_keys.
Qed.

Lemma select_domains_keys (db : store) (sort_by : sort_key) (stem_urls : bool) :
  NoDup (List.map fst (select_domains db sort_by stem_urls)).
Proof.
  unfold select_domains.
  set (d := fold_left (select_step stem_urls) _ []).
  assert (ND : NoDup (List.map fst d)) by (apply select_fold_keys; constructor).
  destruct sort_by; (eapply Permutation_NoDup; [|exact ND]);
    apply Permutation_map; apply sorted_perm.
Qed.

Lemma select_domains_get (db : store) (sort_by : sort_key) (stem_urls : bool) (domain : str) :
  dict_get domain (select_domains db sort_by stem_urls)
  = match rows_of stem_urls domain db with
    | [] => None
    | here => Some (List.map u_id here, sum (List.map u_visit_count here))
    end.
Proof.
  unfold select_domains, rows_of.
  set (d := fold_left (select_step stem_urls) _ []).
  assert (ND : NoDup (List.map fst d)) by (apply select_fold_keys; constructor).
  transitivity (dict_get domain d).
  - destruct sort_by; apply dict_get_perm; try exact ND; apply sorted_perm.
  - unfold d. rewrite select_fold_get. cbv zeta. cbn [dict_get].
    now destruct (filter _ (tbl_urls db)).
Qed.

(** X7: [select_domains] lists under a key the ids of the URL rows filed
    under it, in the order of the table, and the sum of their visit
    counts, visited or not; a key without a row is not listed. *)
Theorem select_domains_groups_rows (db : store) (sort_by : sort_key) (stem_urls : bool)
    (domain : str) :
  dict_get domain (select_domains db sort_by stem_urls)
  = match rows_of stem_urls domain db with
    | [] => None
    | here => Some (List.map u_id here, sum (List.map u_visit_count here))
    end.
Proof. apply select_domains_get. Qed.

(** X8: the listing has every key once; sorted by domain the keys ascend,
    sorted by frequency the counts descend. *)
Theorem select_domains_ordered (db : store) (stem_urls : bool) :
  (forall sort_by, NoDup (List.map fst (select_domains db sort_by stem_urls)))
  /\ Sorted (fun a b => str_leb (fst a) (fst b) = true)
       (select_domains db by_domains stem_urls)
  /\ Sorted (fun a b => snd (snd b) <= snd (snd a))
       (select_domains db by_frequency stem_urls).
Proof.
  split; [intros sort_by; apply select_domains_keys|]. split.
  - unfold select_domains.
    apply (sorted_Sorted (fun a b : str * (list Z * Z) => str_leb (fst a) (fst b))).
    intros a b. apply str_leb_total.
  - unfold select_domains.
    apply (Sorted_impl (fun a b : str * (list Z * Z) => (snd (snd b) <=? snd (snd a)) = true));
      [intros a b H; now apply Z.leb_le|].
    apply sorted_Sorted.
    intros a b H. apply Z.leb_gt in H. apply Z.leb_le. lia.
Qed.

(** ** From the listing to the anonymisation *)

Lemma Forall2_In_right {A B} (R : A -> B -> Prop) (l : list A) (l' : list B) (b : B) :
  Forall2 R l l' -> In b l' -> exists a, In a l /\ R a b.
Proof.
  induction 1 as [|x y l l' H F IH]; intros I; [contradiction|].
  destruct I as [<- | I].
  - exists x. split; [now left | exact H].
  - destruct (IH I) as (a & Ia & Ra). exists a. split; [now right | exact Ra].
Qed.

Lemma mem_In (x : Z) (l : list Z) : mem x l = true <-> In x l.
Proof.
  unfold mem. rewrite existsb_exists. split.
  - intros (y & I & E). apply Z.eqb_eq in E. now subst.
  - intros I. exists x. split; [exact I | apply Z.eqb_refl].
Qed.

(** X9: a domain that [select_domains] lists can be anonymised: the call
    with kind [domains] finds every id it needs and ends without an
    exception; and when the domain has a character that no token has (a
    dot), no row with a host part is left under it afterwards. *)
Theorem select_then_anonymise (self : BrowsingHistory) (db : store) (k : nat)
    (sort_by : sort_key) (domain : str) :
  _domains self = Some (select_domains db sort_by true) ->
  NoDup (List.map u_id (tbl_urls db)) ->
  rows_of true domain db <> [] ->
  exists db' k',
    _update_db self db k (PyStr domain) Kdomains = (db', k', None)
    /\ Forall2 (domain_policy_applied k k' (List.map u_id (rows_of true domain db)))
         (tbl_urls db) (tbl_urls db')
    /\ ((exists c, In c domain /\ token_char c = false) ->
        forall r', In r' (tbl_urls db') -> _stem_url (u_url r') = domain ->
                   In r' (tbl_urls db) /\ _is_url (u_url r') = false).
Proof.
  intros D ND NE.
  set (ids := List.map u_id (rows_of true domain db)).
  assert (I : ids_of fst (_domains self) domain = Ok ids).
  { unfold ids_of. rewrite D, select_domains_get.
    destruct (rows_of true domain db); [contradiction|reflexivity]. }
  assert (HK : forall i, In i ids -> has_key u_id i (tbl_urls db) = true).
  { intros i Ii. apply in_map_iff in Ii as (r & E & Ir).
    apply filter_In in Ir as [Ir _]. apply has_key_In. eauto. }
  destruct (update_loop_domains ids db k ND HK) as (db' & k' & L & _ & _ & F).
  exists db', k'. split; [unfold _update_db; now rewrite I|]. split; [exact F|].
  intros (c & Ic & Nc) r' Ir' St.
  destruct (Forall2_In_right _ _ _ r' F Ir') as (r & Ir & P).
  unfold domain_policy_applied in P.
  destruct (mem (u_id r) ids && _is_url (u_url r)) eqn:C.
  - exfalso. destruct P as (host & j & _ & _ & -> & _).
    cbn [u_url set_domains] in St. rewrite stem_token in St.
    assert (T : Forall (fun x => token_char x = true)
                  (lit "anonymisiert-" ++ fst (_hash_domain j host))).
    { apply Forall_app; split; [repeat constructor|].
      eapply Forall_impl; [|apply hash_domain_chars]. exact hash_char_token_char. }
    rewrite St in T. rewrite Forall_forall in T. specialize (T c Ic). congruence.
  - subst r'. split; [exact Ir|].
    apply andb_false_iff in C as [C|C]; [|exact C]. exfalso.
    assert (M : mem (u_id r) ids = true).
    { apply mem_In. apply in_map. apply filter_In. split; [exact Ir|].
      unfold domain_of. now apply str_eqb_eq. }
    congruence.
Qed.

(** ** What [visits] returns *)

Lemma prefix_In {A} (n : nat) (l : list A) (x : A) : In x (firstn n l) -> In x l.
Proof.
  intros I. rewrite <- (firstn_skipn n l). apply in_or_app. now left.
Qed.

Lemma suffix_In {A} (n : nat) (l : list A) (x : A) : In x (skipn n l) -> In x l.
Proof.
  intros I. rewrite <- (firstn_skipn n l). apply in_or_app. now right.
Qed.

Lemma prefix_NoDup {A} (n : nat) (l : list A) : NoDup l -> NoDup (firstn n l).
Proof.
  intros ND. rewrite <- (firstn_skipn n l) in ND. now apply NoDup_app_remove_r in ND.
Qed.

Lemma suffix_NoDup {A} (n : nat) (l : list A) : NoDup l -> NoDup (skipn n l).
Proof.
  intros ND. rewrite <- (firstn_skipn n l) in ND. now apply NoDup_app_remove_l in ND.
Qed.

Lemma visits_unfold (db : store) (date : option (Z * Z)) (n : option Z) (ascending : bool) :
  let d := visit_totals (visits_query db date) in
  let total_n := sum (List.map snd d) in
  let by_count := sorted (fun a b : str * Z => snd a <=? snd b) d in
  let n' := match n with
            | None => total_n
            | Some n => n
            end in
  let od := if ascending then slice_to n' by_count else slice_from (- n') by_count in
  visits db date n ascending
  = if nonempty od && (total_n =? 0) then Raise ZeroDivisionError else Ok od.
Proof.
  cbv zeta. unfold visits.
  set (d := visit_totals (visits_query db date)).
  set (total_n := sum (List.map snd d)).
  set (od := if ascending then _ else _).
  destruct (Z.eqb_spec total_n 0) as [Z0|NZ].
  - destruct od as [|e od]; [reflexivity|].
    cbn [List.map mapM nonempty andb]. unfold truediv. rewrite Z0. reflexivity.
  - rewrite andb_false_r.
    rewrite (mapM_ok _ (fun v => round2 ((inject_Z v / inject_Z total_n)%Q * 100)%Q)).
    + reflexivity.
    + intros v. unfold truediv.
      destruct (Z.eqb_spec total_n 0) as [Z0|_]; [contradiction|reflexivity].
Qed.

Lemma by_count_Sorted (d : list (str * Z)) :
  Sorted (fun a b : str * Z => snd a <= snd b)
    (sorted (fun a b : str * Z => snd a <=? snd b) d).
Proof.
  apply (Sorted_impl (fun a b : str * Z => (snd a <=? snd b) = true));
    [intros a b H; now apply Z.leb_le|].
  apply sorted_Sorted. intros a b H. apply Z.leb_gt in H. apply Z.leb_le. lia.
Qed.

Lemma visit_totals_keys (rows : list (str * Z * Z)) :
  NoDup (List.map fst (visit_totals rows)).
Proof.
  unfold visit_totals.
  assert (G : forall rows st, NoDup (List.map fst (fst st)) ->
                NoDup (List.map fst (fst (fold_left visits_step rows st)))).
  { clear rows. induction rows as [|r rows IH]; intros st H; [exact H|].
    cbn [fold_left]. apply IH. destruct st as [d0 seen]. unfold visits_step.
    cbn [fst] in H.
    assert (H' : NoDup (List.map fst
                  match dict_get (_stem_url (fst (fst r))) d0 with
                  | Some _ => d0
                  | None => d0 ++ [(_stem_url (fst (fst r)), 0)]
                  end)).
    { destruct (dict_get _ d0) eqn:K; [exact H|].
      rewrite map_app. apply NoDup_snoc; [exact H|]. now apply dict_get_None. }
    destruct (mem (snd r) seen); cbn [fst]; [exact H'|].
    now rewrite keys_dict_update. }
  apply G. constructor.
Qed.

(** X10: whatever [ascending] says, the mapping that [visits] returns is in
    ascending order of the visit totals, every domain at most once, each
    with the total of the dict [d]. *)
Theorem visits_result_ascends (db : store) (date : option (Z * Z)) (n : option Z)
    (ascending : bool) (od : list (str * Z)) :
  visits db date n ascending = Ok od ->
  Sorted (fun a b => snd a <= snd b) od
  /\ NoDup (List.map fst od)
  /\ forall e, In e od -> In e (visit_totals (visits_query db date)).
Proof.
  pose proof (visits_unfold db date n ascending) as U. cbv zeta in U. rewrite U. clear U.
  set (d := visit_totals (visits_query db date)).
  set (by_count := sorted (fun a b : str * Z => snd a <=? snd b) d).
  set (n' := match n with None => _ | Some k => k end).
  destruct (nonempty _ && _); [discriminate|]. intros E. injection E as <-.
  assert (S : Sorted (fun a b : str * Z => snd a <= snd b) by_count) by apply by_count_Sorted.
  assert (P : Permutation d by_count) by apply sorted_perm.
  assert (ND : NoDup (List.map fst by_count)).
  { eapply Permutation_NoDup; [apply Permutation_map; exact P|]. apply visit_totals_keys. }
  destruct ascending; unfold slice_to, slice_from.
  - destruct (n' <? 0); (split; [now apply Sorted_firstn|]);
      (split; [rewrite <- firstn_map; now apply prefix_NoDup|]);
      intros e I; apply (Permutation_in e (Permutation_sym P)); now apply prefix_In in I.
  - destruct (- n' <? 0); (split; [now apply Sorted_skipn|]);
      (split; [rewrite <- skipn_map; now apply suffix_NoDup|]);
      intros e I; apply (Permutation_in e (Permutation_sym P)); now apply suffix_In in I.
Qed.

Lemma slice_from_neg {A} (k : Z) (l : list A) :
  0 <= k ->
  slice_from (- k) l = if k =? 0 then l else skipn (List.length l - Z.to_nat k) l.
Proof.
  intros K. unfold slice_from.
  destruct (Z.eqb_spec k 0) as [->|NZ]; [reflexivity|].
  destruct (Z.ltb_spec (- k) 0) as [_|G]; [|lia].
  f_equal. lia.
Qed.


Lemma dict_get_In {V} (k : str) (v : V) (d : list (str * V)) :
  NoDup (List.map fst d) -> In (k, v) d -> dict_get k d = Some v.
Proof.
  induction d as [|[k' v'] d IH]; intros ND I; [contradiction|].
  cbn [List.map fst] in ND. apply NoDup_cons_iff in ND as [NI ND].
  cbn [dict_get]. destruct I as [E|I].
  - injection E as -> ->. now rewrite str_eqb_refl.
  - destruct (str_eqb k' k) eqn:E; [|now apply IH].
    apply str_eqb_eq in E. subst k'. exfalso. apply NI.
    change k with (fst (k, v)). now apply in_map.
Qed.

Lemma sum_at_least (l : list Z) :
  Forall (fun x => 1 <= x) l -> Z.of_nat (List.length l) <= sum l.
Proof.
  induction 1 as [|x l H F IH]; [reflexivity|].
  rewrite sum_cons. cbn [List.length]. lia.
Qed.

(** X12: [visits(n=None, ascending=False)], as [load] calls it to count the
    domains: when the ids of the URL rows are a key and every visited URL
    has a visit count of 1 or more, it returns every domain that has a
    visit, so its length is the number of domains. *)
Theorem visits_lists_every_domain (db : store) (date : option (Z * Z)) :
  NoDup (List.map u_id (tbl_urls db)) ->
  (forall u, In u (visited_urls db date) -> 1 <= u_visit_count u) ->
  exists od,
    visits db date None false = Ok od
    /\ Permutation od (visit_totals (visits_query db date))
    /\ List.length od = List.length (visit_totals (visits_query db date)).
Proof.
  intros ND Pos.
  pose proof (visits_unfold db date None false) as U. cbv zeta in U. rewrite U. clear U.
  set (d := visit_totals (visits_query db date)).
  assert (F : Forall (fun x => 1 <= x) (List.map snd d)).
  { apply Forall_forall. intros c Ic. apply in_map_iff in Ic as ([dom c'] & E & Ie).
    cbn [snd] in E. subst c'.
    pose proof (dict_get_In dom c d (visit_totals_keys _) Ie) as G.
    unfold d in G. rewrite (visit_totals_store db date dom ND) in G.
    destruct (visited_urls_of dom db date) as [|u here] eqn:H; [discriminate|].
    injection G as <-.
    assert (P : Forall (fun x => 1 <= x) (List.map u_visit_count (u :: here))).
    { apply Forall_forall. intros x Ix. apply in_map_iff in Ix as (u' & <- & Iu).
      apply Pos. rewrite <- H in Iu. unfold visited_urls_of in Iu.
      now apply filter_In in Iu as [Iu _]. }
    pose proof (sum_at_least _ P) as L. cbn [List.length List.map] in L. lia. }
  pose proof (sum_at_least _ F) as L. rewrite length_map in L.
  set (total := sum (List.map snd d)) in *.
  set (by_count := sorted (fun a b : str * Z => snd a <=? snd b) d).
  assert (S : slice_from (- total) by_count = by_count).
  { unfold slice_from. destruct (Z.ltb_spec (- total) 0) as [N|N].
    - unfold by_count. rewrite length_sorted.
      replace (Z.to_nat (Z.of_nat (List.length d) + - total)) with 0%nat by lia. reflexivity.
    - replace (Z.to_nat (- total)) with 0%nat by lia. reflexivity. }
  rewrite S. exists by_count.
  assert (NZ : nonempty by_count && (total =? 0) = false).
  { destruct (Z.eqb_spec total 0) as [Z0|_]; [|apply andb_false_r].
    assert (D0 : d = []) by (destruct d; [reflexivity | cbn [List.length] in L; lia]).
    unfold by_count. now rewrite D0. }
  rewrite NZ. split; [reflexivity|]. split.
  - symmetry. apply sorted_perm.
  - apply length_sorted.
Qed.

(** ** The ids the extractors hand out *)

(** X13: the property-list extractor numbers the entries it keeps 1, 2, 3, ...
    in the order of the file, and returns one visit for each of them,
    with the id and the date of the URL tuple. *)
Theorem plist_entries_numbered (self : BrowsingHistory) (items : list plist_item)
    (urls : list plist_url_tuple) (visits : list plist_visit_tuple) :
  _extract_history_plist self items = Ok (urls, visits) ->
  List.map plist_tuple_id urls = ids_from 1 (List.length urls)
  /\ visits = List.map (fun t => (plist_tuple_id t, plist_tuple_date t)) urls
  /\ List.map plist_tuple_url urls = List.map pi_url (filter (plist_kept self) items).
Proof.
  unfold _extract_history_plist.
  destruct (foldM (plist_step self) items (1, [], [])) as [st|e] eqn:F; cbn [bind];
    [|discriminate].
  intros E. injection E as <- <-.
  apply plist_loop in F as (new & H1 & H2 & H3 & H4).
  cbn [app] in H1, H2. rewrite H1, H2. auto.
Qed.


(** ** What an import does to the rows already there *)

Lemma fold_max_ge (l : list Z) : forall a x, x = a \/ In x l -> x <= fold_left Z.max l a.
Proof.
  induction l as [|y l IH]; intros a x H; cbn [fold_left].
  - destruct H as [->|[]]. lia.
  - destruct H as [->|[->|I]].
    + transitivity (Z.max a y); [lia | apply IH; now left].
    + transitivity (Z.max a x); [lia | apply IH; now left].
    + apply IH. now right.
Qed.






(** ** Conversions that do not depend on the zone *)

(** X16: the Firefox rule and the fallback go through [fromtimestamp] and
    back through [timestamp()], both in local time, so they return the
    instant they are given on a host of any zone. *)
Theorem convert_timestamp_zone_free (t : Z) (tz : str) :
  representable (t + utcoffset * us_per_second) ->
  _convert_timestamp (firefox_time t) Firefox tz = Ok t
  /\ _convert_timestamp (posix_time t) OtherBrowser tz = Ok t.
Proof.
  intros R. split; [now apply convert_timestamp_firefox | now apply convert_timestamp_other].
Qed.

(** ** Staging WebCacheV01.dat *)

Lemma copy_webcache_outcome (h : shadow_host) (drv : N) (rest : str) :
  exists w,
    _copy_webcachev01_dat h (drv :: rest) {| deletes := 0; copied := false |}
    = (Return (shadow_copy_ok h && shadow_path_ok h
               && delete_ok h (if copy_ok h then 0 else 1)%nat), w)
    /\ copied w = shadow_copy_ok h && shadow_path_ok h && copy_ok h
    /\ deletes w = if shadow_copy_ok h && shadow_path_ok h
                   then (if copy_ok h then 1%nat else 2%nat) else 0%nat.
Proof.
  destruct h as [sc sp cp del].
  unfold _copy_webcachev01_dat, try_except, try_finally, then_, call, shutil_copy, sc_delete,
    return_, raise_.
  cbn [shadow_copy_ok shadow_path_ok copy_ok delete_ok deletes copied].
  destruct sc; [|eexists; repeat split].
  destruct sp; [|eexists; repeat split].
  destruct cp; cbn [deletes copied andb].
  - destruct (del 0%nat); eexists; repeat split.
  - destruct (del 0%nat); cbn [deletes copied]; destruct (del 1%nat); eexists; repeat split.
Qed.

(** X17: [_copy_webcachev01_dat] on a path that is not empty never raises,
    and what it returns tells whether the shadow copy could be set up
    and its last [delete] went through, not whether the file was
    copied: when [shutil.copy] fails, the handler's [return False] is
    replaced by the [return True] of the [finally] suite. *)
Theorem copy_webcache_reports_cleanup (h : shadow_host) (drv : N) (rest : str) :
  exists w,
    _copy_webcachev01_dat h (drv :: rest) {| deletes := 0; copied := false |}
    = (Return (shadow_copy_ok h && shadow_path_ok h
               && delete_ok h (if copy_ok h then 0 else 1)%nat), w)
    /\ copied w = shadow_copy_ok h && shadow_path_ok h && copy_ok h
    /\ deletes w = if shadow_copy_ok h && shadow_path_ok h
                   then (if copy_ok h then 1%nat else 2%nat) else 0%nat.
Proof. apply copy_webcache_outcome. Qed.

(** X18: the file that [_extract_webcachev01_dat] goes on to open: the one
    named by the path when the staging reported success, also when
    nothing was copied; else WebCacheV01.dat if the upload folder has
    it; and if the folder has only WebCacheV24.dat the function ends
    with a [NameError], since that branch binds [file_path] and leaves
    [file_name] without a value. *)
Theorem webcache_file_choice (h : shadow_host) (listdir : list str) (tail : str -> str)
    (drv : N) (rest : str) :
  fst (webcache_file_name h listdir tail (drv :: rest))
  = if shadow_copy_ok h && shadow_path_ok h && delete_ok h (if copy_ok h then 0 else 1)%nat
    then Ok (OpenFile (tail (drv :: rest)))
    else if in_list (lit "WebCacheV01.dat") listdir then Ok (OpenFile (lit "WebCacheV01.dat"))
    else if in_list (lit "WebCacheV24.dat") listdir then Raise NameError
    else Ok ReturnFalse.
Proof.
  unfold webcache_file_name.
  destruct (copy_webcache_outcome h drv rest) as (w & E & _). rewrite E.
  destruct (shadow_copy_ok h && shadow_path_ok h && delete_ok h _); [reflexivity|].
  destruct (in_list (lit "WebCacheV01.dat") listdir); [reflexivity|].
  now destruct (in_list (lit "WebCacheV24.dat") listdir).
Qed.

(** ** Upload names *)

Lemma rsplit_dot_none (u : str) : ~ In dot u -> rsplit_dot u = None.
Proof.
  induction u as [|c u IH]; intros NI; [reflexivity|].
  cbn [rsplit_dot]. rewrite IH by (intros I; apply NI; now right).
  destruct (N.eqb_spec c dot) as [->|_]; [|reflexivity].
  exfalso. apply NI. now left.
Qed.

Lemma rsplit_dot_last (base ext : str) :
  ~ In dot ext -> rsplit_dot (base ++ dot :: ext) = Some (base, ext).
Proof.
  intros NI. induction base as [|c base IH]; cbn [app rsplit_dot].
  - now rewrite (rsplit_dot_none ext NI), N.eqb_refl.
  - now rewrite IH.
Qed.

Lemma ascii_lower_not_upper (c : N) : is_upper (ascii_lower c) = false.
Proof.
  unfold ascii_lower. destruct (is_upper c) eqn:U; [|exact U].
  unfold is_upper, in_range in *. apply andb_true_iff in U as [L _].
  apply N.leb_le in L. apply andb_false_iff. right. apply N.leb_gt. lia.
Qed.

(** X19: a name with a dot is allowed by what follows its last dot, compared
    without regard to case with [sqlite], [dat], [plist] and [db]; the
    entry [History] of the set, which has a capital letter, allows no
    name with a dot. *)
Theorem allowed_file_last_extension (base ext : str) :
  ~ In dot ext ->
  forallb (fun c => c <? 128)%N ext = true ->
  allowed_file (base ++ dot :: ext)
  = in_list (List.map ascii_lower ext) [lit "sqlite"; lit "dat"; lit "plist"; lit "db"].
Proof.
  intros NI A. unfold allowed_file, lower. rewrite (rsplit_dot_last base ext NI), A.
  unfold ALLOWED_EXTENSIONS, in_list. cbn [existsb].
  assert (H : str_eqb (List.map ascii_lower ext) (lit "History") = false).
  { destruct ext as [|c ext]; [reflexivity|].
    cbn [List.map lit String.list_ascii_of_string str_eqb].
    destruct (N.eqb_spec (ascii_lower c) (N_of_ascii "H")) as [E|_]; [|reflexivity].
    pose proof (ascii_lower_not_upper c) as U. rewrite E in U. discriminate U. }
  rewrite H. reflexivity.
Qed.

(** ** Platform names *)

Lemma contains_suffix (p u r : str) (n : nat) :
  strip_prefix p (skipn n u) = Some r -> contains p u = true.
Proof.
  revert u; induction n as [|n IH]; intros u H.
  - cbn [skipn] in H. destruct u; cbn [contains]; now rewrite H.
  - destruct u as [|c u]; cbn [skipn] in H.
    + cbn [contains]. now rewrite H.
    + cbn [contains]. destruct (strip_prefix p (c :: u)); [reflexivity|]. now apply IH.
Qed.

Lemma digit_decimal (d : N) : is_digit d = true -> is_decimal d = true.
Proof.
  intros D. unfold is_decimal. destruct (N.ltb_spec d 128) as [_|G]; [exact D|].
  unfold is_digit, in_range in D. apply andb_true_iff in D as [_ D].
  apply N.leb_le in D. lia.
Qed.

Lemma one_or_two_digits_head (u m : str) :
  one_or_two_digits u = Some m -> exists d r, u = d :: r /\ is_decimal d = true.
Proof.
  destruct u as [|d1 [|d2 r]]; cbn [one_or_two_digits]; [discriminate| |];
    destruct (is_decimal d1) eqn:D; try discriminate; eauto.
Qed.

Lemma no_decimal_no_windows (u : str) :
  Forall (fun c => is_decimal c = false) u -> re_search windows_pattern u = None.
Proof.
  induction u as [|c u IH]; intros F; [reflexivity|].
  cbn [re_search].
  assert (W : windows_pattern (c :: u) = None).
  { unfold windows_pattern.
    destruct (strip_prefix (lit "Windows") (c :: u)) as [[|s r]|] eqn:S; try reflexivity.
    destruct (is_space s); [|reflexivity].
    destruct (one_or_two_digits r) as [m|] eqn:O; [|reflexivity].
    exfalso. apply one_or_two_digits_head in O as (d & r' & -> & D).
    apply strip_prefix_Some in S. rewrite S in F.
    apply Forall_app in F as [_ F].
    apply Forall_inv_tail, Forall_inv in F. congruence. }
  rewrite W. apply IH. now apply Forall_inv_tail in F.
Qed.

(** X20: on Windows the platform key is [Windows], a blank and the first one
    or two digits of the release ([Windows 10], [Windows 7], and
    [Windows 20] for the release [2012ServerR2]); for a release without
    a digit there is no key: the function returns [None]. *)
Theorem handle_platform_windows :
  (forall d rest,
      is_digit d = true ->
      _handle_platform (lit "Windows") (d :: rest)
      = Some (lit "Windows " ++ d :: match rest with
                                     | d2 :: _ => if is_decimal d2 then [d2] else []
                                     | [] => []
                                     end))
  /\ (forall os_release,
         Forall (fun c => is_decimal c = false) os_release ->
         _handle_platform (lit "Windows") os_release = None).
Proof.
  split.
  - intros d rest D. unfold _handle_platform, os_full.
    change (in_list (lit "Windows") [lit "Linux"; lit "Darwin"]) with false.
    change (str_eqb (lit "Windows") (lit "Windows")) with true. cbv iota.
    apply re_search_head. unfold windows_pattern.
    rewrite strip_prefix_app. cbn [lit String.list_ascii_of_string List.map app].
    change (is_space (N_of_ascii " ")) with true. cbv iota.
    unfold one_or_two_digits. destruct rest as [|d2 rest]; rewrite (digit_decimal d D);
      [reflexivity|].
    cbn [option_map]. now destruct (is_decimal d2).
  - intros os_release F. unfold _handle_platform, os_full.
    change (in_list (lit "Windows") [lit "Linux"; lit "Darwin"]) with false.
    change (str_eqb (lit "Windows") (lit "Windows")) with true. cbv iota.
    apply no_decimal_no_windows. apply Forall_app. split; [repeat constructor|].
    apply Forall_app. split; [repeat constructor | exact F].
Qed.

Lemma no_darwin_no_match (u : str) :
  contains (lit "Darwin") u = false -> re_search darwin_pattern u = None.
Proof.
  intros C. apply re_search_None. intros n. unfold darwin_pattern.
  destruct (strip_prefix (lit "Darwin") (skipn n u)) as [r|] eqn:S; [|reflexivity].
  apply contains_suffix in S. congruence.
Qed.

(** X21: [_os_name] gives back its argument when that has no [Darwin] in it;
    for a Darwin release whose number is not one of 10 to 17 (a single
    digit, or two digits such as 18 or 09) it returns [None], neither a
    name nor its argument. *)
Theorem os_name_outside_table :
  (forall _os_full,
      contains (lit "Darwin") _os_full = false -> _os_name _os_full = Some _os_full)
  /\ (forall d1 d2 rest,
         is_digit d1 = true -> is_digit d2 = true ->
         ~ (d1 = 49 /\ d2 <= 55)%N ->
         _os_name (lit "Darwin " ++ d1 :: d2 :: rest) = None)
  /\ (forall d1 rest,
         is_digit d1 = true ->
         match rest with
         | [] => True
         | c :: _ => is_decimal c = false
         end ->
         _os_name (lit "Darwin " ++ d1 :: rest) = None).
Proof.
  split; [|split].
  - intros u C. unfold _os_name. now rewrite no_darwin_no_match.
  - intros d1 d2 rest D1 D2 NT. unfold _os_name.
    assert (M : re_search darwin_pattern (lit "Darwin " ++ d1 :: d2 :: rest) = Some [d1; d2]).
    { apply re_search_head. unfold darwin_pattern.
      change (lit "Darwin " ++ d1 :: d2 :: rest)
        with (lit "Darwin" ++ N_of_ascii " " :: d1 :: d2 :: rest).
      rewrite strip_prefix_app. change (is_space (N_of_ascii " ")) with true. cbv iota.
      unfold one_or_two_digits. now rewrite (digit_decimal d1 D1), (digit_decimal d2 D2). }
    rewrite M. cbn [lit String.list_ascii_of_string List.map str_eqb].
    unfold is_digit, in_range in D2. apply andb_true_iff in D2 as [L2 _].
    apply N.leb_le in L2.
    destruct (N.eqb_spec d1 (N_of_ascii "1")) as [E1|_]; [|reflexivity].
    cbn [andb].
    repeat match goal with
           | |- context [N.eqb d2 ?c] =>
               destruct (N.eqb_spec d2 c) as [E2|_];
               [exfalso; apply NT; split; [exact E1 | rewrite E2; cbv; discriminate]|]
           end.
    reflexivity.
  - intros d1 rest D1 R. unfold _os_name.
    assert (M : re_search darwin_pattern (lit "Darwin " ++ d1 :: rest) = Some [d1]).
    { apply re_search_head. unfold darwin_pattern.
      change (lit "Darwin " ++ d1 :: rest) with (lit "Darwin" ++ N_of_ascii " " :: d1 :: rest).
      rewrite strip_prefix_app. change (is_space (N_of_ascii " ")) with true. cbv iota.
      unfold one_or_two_digits. rewrite (digit_decimal d1 D1).
      destruct rest as [|c rest]; [reflexivity | now rewrite R]. }
    rewrite M. cbn [lit String.list_ascii_of_string List.map str_eqb].
    now rewrite !andb_false_r.
Qed.

(** ** The cutoff and the bounds of a date *)

Lemma Ok_inj {A} (a b : A) : Ok a = Ok b -> a = b.
Proof. intros H. now injection H. Qed.

(** X22: [_min_date(num_days)] is the instant at which the local clock read
    what it reads now less [num_days] times 24 hours: the current
    instant, rounded to the microsecond, less [num_days] days of 86400
    seconds, and moved by the change of the offset from UTC between the
    two local times.  It is [num_days] days of 86400 seconds before now
    when the offset is the same at both. *)
Theorem min_date_days_wall_clock (now : Q) (num_days : Z) (today : datetime) :
  fromtimestamp now = Ok today ->
  Z.abs num_days <= 999999999 ->
  in_datetime_range (today - num_days * us_per_day) = true ->
  _min_date_days now num_days
  = Ok (round_half_even (now * inject_Z us_per_second) - num_days * us_per_day
        + (utcoffset - offset_at (today - num_days * us_per_day)) * us_per_second)
  /\ (offset_at (today - num_days * us_per_day) = utcoffset ->
      _min_date_days now num_days
      = Ok (round_half_even (now * inject_Z us_per_second) - num_days * us_per_day)).
Proof.
  intros T D R.
  assert (G : _min_date_days now num_days
              = Ok (round_half_even (now * inject_Z us_per_second) - num_days * us_per_day
                    + (utcoffset - offset_at (today - num_days * us_per_day))
                      * us_per_second)).
  { unfold _min_date_days. rewrite T. cbn [bind].
    unfold mk_timedelta. rewrite Z.div_mul by (unfold us_per_day, us_per_second; lia).
    destruct (Z.leb_spec (Z.abs num_days) 999999999) as [_|G]; [|lia]. cbn [bind].
    unfold datetime_add.
    replace (today + - (num_days * us_per_day)) with (today - num_days * us_per_day) by lia.
    rewrite R. cbn [bind]. f_equal.
    assert (E : today = datetime_ymd 1970 1 1
                        + round_half_even (now * inject_Z us_per_second)
                        + utcoffset * us_per_second).
    { unfold fromtimestamp in T.
      destruct (in_datetime_range _) in T; [|discriminate]. apply Ok_inj in T.
      symmetry. exact T. }
    unfold timestamp_at.
    generalize (offset_at (today - num_days * us_per_day)). intros o. rewrite E.
    generalize (datetime_ymd 1970 1 1), (round_half_even (now * inject_Z us_per_second)),
      (num_days * us_per_day), us_per_second.
    intros a b d u. lia. }
  split; [exact G|]. intros O. rewrite G, O. f_equal. lia.
Qed.

Lemma mktime_next_day (d : datetime) :
  mktime_timetuple (d + 1 * us_per_day)
  = mktime_timetuple d + 86400 + offset_at d - offset_at (d + 1 * us_per_day).
Proof.
  unfold mktime_timetuple, us_per_day.
  generalize (offset_at (d + 1 * (86400 * us_per_second))), (offset_at d). intros o o'.
  replace (d + 1 * (86400 * us_per_second) - datetime_ymd 1970 1 1)
    with (d - datetime_ymd 1970 1 1 + 86400 * us_per_second) by lia.
  rewrite Z.div_add by (unfold us_per_second; lia). lia.
Qed.

(** X23: for a single date [_date_conv] returns the start of the day in
    seconds and the start of the next day in microseconds: [tk] is
    [t + 86400] seconds, moved by the change of the offset from UTC
    between the two midnights, times 1000000; it is
    [(t + 86400) * 1000000] when the offset is the same at both.  For a
    list it returns both bounds in microseconds, and they are equal when
    the list names one day twice. *)
Theorem date_conv_units :
  (forall s t tk date_str,
      _date_conv (DateStr s) = Ok (t, tk, date_str) ->
      exists a,
        strptime_ymd s = Ok a
        /\ t = mktime_timetuple a
        /\ tk = (t + 86400 + offset_at a - offset_at (a + 1 * us_per_day)) * 1000000
        /\ (offset_at (a + 1 * us_per_day) = offset_at a -> tk = (t + 86400) * 1000000)
        /\ date_str = lit "on " ++ s)
  /\ (forall d0 d1 rest t tk date_str,
         _date_conv (DateList (d0 :: d1 :: rest)) = Ok (t, tk, date_str) ->
         exists a b,
           strptime_ymd d0 = Ok a /\ strptime_ymd d1 = Ok b
           /\ t = mktime_timetuple a * 1000000 /\ tk = mktime_timetuple b * 1000000
           /\ (d0 = d1 -> t = tk)).
Proof.
  split.
  - intros s t tk date_str. unfold _date_conv.
    destruct (strptime_ymd s) as [a|e]; cbn [bind]; [|discriminate].
    unfold mk_timedelta.
    change (Z.abs (1 * us_per_day / us_per_day) <=? 999999999) with true. cbn [bind].
    unfold datetime_add. destruct (in_datetime_range (a + 1 * us_per_day)); cbn [bind];
      [|discriminate].
    intros E. injection E as <- <- <-. exists a. rewrite mktime_next_day.
    repeat split. intros ->. f_equal. lia.
  - intros d0 d1 rest t tk date_str. unfold _date_conv.
    destruct (strptime_ymd d0) as [a|e] eqn:A; cbn [bind]; [|discriminate].
    destruct (strptime_ymd d1) as [b|e] eqn:B; cbn [bind]; [|discriminate].
    intros E. injection E as <- <- _. exists a, b. repeat split.
    intros ->. congruence.
Qed.

(** ** [search_terms] *)

Lemma in_list_In (x : str) (l : list str) : in_list x l = true <-> In x l.
Proof.
  unfold in_list. rewrite existsb_exists. split.
  - intros (y & I & E). apply str_eqb_eq in E. now subst.
  - intros I. exists x. split; [exact I | apply str_eqb_refl].
Qed.

Lemma Forall_dict_update {V} (P : str * V -> Prop) (k : str) (f : V -> V)
    (d : list (str * V)) :
  (forall v, P (k, v) -> P (k, f v)) -> Forall P d -> Forall P (dict_update k f d).
Proof.
  intros H. induction 1 as [|[k' v] d Pv F IH]; [constructor|].
  cbn [dict_update]. destruct (str_eqb k' k) eqn:E.
  - apply str_eqb_eq in E. subst k'. constructor; [now apply H | exact F].
  - constructor; assumption.
Qed.

Lemma term_step_ok (us : list url_row) (u : url_row) (m : str) (d : list (str * term_entry)) :
  In u us -> In m (findall_terms (u_url u)) ->
  Forall (term_entry_ok us) d ->
  Forall (term_entry_ok us) (term_step (u_id u) (_stem_url (u_url u)) d m).
Proof.
  intros Iu Im F. unfold term_step.
  assert (Here : In (unquote_plus m) (List.map unquote_plus (findall_terms (u_url u))))
    by now apply in_map.
  destruct (dict_get (unquote_plus m) d) as [e0|].
  - apply Forall_dict_update; [|exact F].
    intros e H. unfold term_entry_ok in H |- *.
    cbn [fst snd t_ids t_count t_urls t_match] in H |- *.
    destruct H as (C & NE & ND & M & I).
    split; [rewrite length_app, C; cbn [List.length]; lia|].
    split; [now destruct (t_ids e)|].
    split.
    { destruct (in_list (_stem_url (u_url u)) (t_urls e)) eqn:L; [exact ND|].
      apply NoDup_snoc; [exact ND|]. intros H. apply in_list_In in H. congruence. }
    split; [exact M|].
    assert (Grow : forall x, In x (t_urls e) ->
              In x (if in_list (_stem_url (u_url u)) (t_urls e) then t_urls e
                    else t_urls e ++ [_stem_url (u_url u)])).
    { intros x H. destruct (in_list _ (t_urls e)); [exact H|]. apply in_or_app. now left. }
    intros i Ii. apply in_app_or in Ii as [Ii|[<-|[]]].
    + destruct (I i Ii) as (u' & H1 & H2 & H3 & H4). exists u'. auto.
    + exists u. repeat split; try assumption.
      destruct (in_list (_stem_url (u_url u)) (t_urls e)) eqn:L.
      * now apply in_list_In.
      * apply in_or_app. right. now left.
  - apply Forall_app. split; [exact F|]. constructor; [|constructor].
    unfold term_entry_ok. cbn [fst snd t_ids t_count t_urls t_match app List.length].
    split; [reflexivity|]. split; [discriminate|].
    split; [repeat constructor; intros []|]. split; [reflexivity|].
    intros i [<-|[]]. exists u. repeat split; try assumption. now left.
Qed.

Lemma term_step_keys (id : Z) (domain m : str) (d : list (str * term_entry)) :
  NoDup (List.map fst d) -> NoDup (List.map fst (term_step id domain d m)).
Proof.
  intros ND. unfold term_step. destruct (dict_get (unquote_plus m) d) eqn:K.
  - now rewrite keys_dict_update.
  - rewrite map_app. apply NoDup_snoc; [exact ND | now apply dict_get_None].
Qed.

Lemma search_fold_ok (us : list url_row) (rows : list url_row) :
  (forall u, In u rows -> In u us) ->
  forall d,
    Forall (term_entry_ok us) d /\ NoDup (List.map fst d) ->
    Forall (term_entry_ok us)
      (fold_left search_step (List.map (fun u => (u_id u, u_url u)) rows) d)
    /\ NoDup (List.map fst
                (fold_left search_step (List.map (fun u => (u_id u, u_url u)) rows) d)).
Proof.
  induction rows as [|u rows IH]; intros Sub d H; [exact H|].
  cbn [List.map fold_left]. apply IH; [intros u' I; apply Sub; now right|].
  unfold search_step. cbn [fst snd].
  assert (G : forall ms d0, (forall m, In m ms -> In m (findall_terms (u_url u))) ->
              Forall (term_entry_ok us) d0 /\ NoDup (List.map fst d0) ->
              Forall (term_entry_ok us)
                (fold_left (term_step (u_id u) (_stem_url (u_url u))) ms d0)
              /\ NoDup (List.map fst
                          (fold_left (term_step (u_id u) (_stem_url (u_url u))) ms d0))).
  { induction ms as [|m ms IHm]; intros d0 Sm [F ND]; [now split|].
    cbn [fold_left]. apply IHm; [intros m' I; apply Sm; now right|]. split.
    - apply term_step_ok; [apply Sub; now left | apply Sm; now left | exact F].
    - now apply term_step_keys. }
  apply G; [trivial | exact H].
Qed.

Lemma search_terms_ok (db : store) (sort_by : term_sort) :
  Forall (term_entry_ok (tbl_urls db)) (search_terms db sort_by)
  /\ NoDup (List.map fst (search_terms db sort_by)).
Proof.
  unfold search_terms.
  destruct (search_fold_ok (tbl_urls db) (tbl_urls db) (fun u I => I) [])
    as [F ND]; [split; constructor|].
  set (d := fold_left search_step _ []) in *.
  destruct sort_by; split;
    try (eapply Permutation_Forall; [apply sorted_perm | exact F]);
    (eapply Permutation_NoDup; [apply Permutation_map, sorted_perm | exact ND]).
Qed.

(** X24: in what [search_terms] returns every term is listed once; its count
    is the number of its ids (a URL that has the term twice is there
    twice), its domains are listed once each, its stored match decodes
    to the term, and every id is that of a URL row that has a match
    decoding to the term and whose stem is among the domains. *)
Theorem search_terms_entries (db : store) (sort_by : term_sort) :
  Forall (term_entry_ok (tbl_urls db)) (search_terms db sort_by)
  /\ NoDup (List.map fst (search_terms db sort_by)).
Proof. apply search_terms_ok. Qed.

Lemma select_url_found (db : store) (i : Z) :
  has_key u_id i (tbl_urls db) = true -> select_url db i <> [].
Proof.
  intros H. apply has_key_In in H as (r & I & E). unfold select_url.
  assert (F : In r (filter (fun r => u_id r =? i) (tbl_urls db))).
  { apply filter_In. split; [exact I | now apply Z.eqb_eq]. }
  destruct (filter _ (tbl_urls db)); [contradiction | discriminate].
Qed.

Lemma update_loop_finds_rows (kind : kind) (ids : list Z) :
  kind <> Kother ->
  forall (db : store) (k : nat),
    (forall i, In i ids -> has_key u_id i (tbl_urls db) = true) ->
    exists db' k', update_loop kind ids db k = (db', k', None).
Proof.
  intros NK. induction ids as [|i ids IH]; intros db k HK; [now exists db, k|].
  cbn [update_loop].
  pose proof (select_url_found db i (HK i (or_introl eq_refl))) as NE.
  destruct (select_url db i) as [|[entry_url rh] rest]; [contradiction|].
  assert (Next : forall f, (forall r, u_id (f r) = u_id r) ->
            forall i', In i' ids -> has_key u_id i' (tbl_urls (update_urls db i f)) = true).
  { intros f G i' I'. rewrite (has_key_ids i' _ (tbl_urls db))
      by now apply update_urls_same_ids.
    apply HK. now right. }
  destruct (_is_url_r entry_url) as [url|]; [|apply IH; intros i' I'; apply HK; now right].
  unfold _hash_domain. cbv iota beta.
  destruct kind; [apply IH | apply IH | apply IH | contradiction]; now apply Next.
Qed.

Lemma dict_get_keyword_ids (term : str) (od : list (str * term_entry)) :
  dict_get term (keyword_ids od) = option_map t_ids (dict_get term od).
Proof.
  unfold keyword_ids. induction od as [|[k e] od IH]; [reflexivity|].
  cbn [List.map fst snd dict_get]. destruct (str_eqb k term); [reflexivity | exact IH].
Qed.

(** X25: a term that [search_terms] lists can be anonymised: with its listing
    stored, [_update_db(term, kind='keywords')] finds the ids of the term
    and a row for each of them, and ends without an exception, the
    visits table and the ids of the URL rows as they were. *)
Theorem search_then_anonymise (self : BrowsingHistory) (db : store) (k : nat)
    (sort_by : term_sort) (term : str) (e : term_entry) :
  _keywords self = Some (keyword_ids (search_terms db sort_by)) ->
  In (term, e) (search_terms db sort_by) ->
  exists db' k',
    _update_db self db k (PyStr term) Kkeywords = (db', k', None)
    /\ tbl_visits db' = tbl_visits db
    /\ List.map u_id (tbl_urls db') = List.map u_id (tbl_urls db).
Proof.
  intros K I. destruct (search_terms_ok db sort_by) as [F ND].
  pose proof (dict_get_In term e _ ND I) as G.
  assert (Ids : ids_of (fun v => v) (_keywords self) term = Ok (t_ids e)).
  { unfold ids_of. now rewrite K, dict_get_keyword_ids, G. }
  rewrite Forall_forall in F. destruct (F _ I) as (_ & _ & _ & _ & Rows).
  cbn [snd] in Rows.
  destruct (update_loop_finds_rows Kkeywords (t_ids e) ltac:(discriminate) db k)
    as (db' & k' & L).
  { intros i Ii. destruct (Rows i Ii) as (u & Iu & E & _). apply has_key_In. eauto. }
  exists db', k'. unfold _update_db. rewrite Ids. split; [exact L|].
  destruct (update_loop_kept Kkeywords (t_ids e) db k) as [V Kp]. rewrite L in V, Kp.
  split; [exact V | now apply kept_ids].
Qed.

(** ** [_create_db] *)

(** X26: [_create_db] never returns [None]: when the connection cannot be
    opened, the [finally] suite meets a [cur] without a value and the
    call ends with a [NameError]; when the schema cannot be read or run,
    the [return None] of the handler is replaced by the path that the
    [finally] suite returns, and the database is left without the
    schema. *)
Theorem create_db_never_returns_none (h : db_host) :
  fst (_create_db h false)
  = (if connect_ok h
     then if close_ok h then Return (Some database_path) else Throw OSError
     else Throw NameError)
  /\ snd (_create_db h false) = connect_ok h && schema_ok h
  /\ fst (_create_db h false) <> Return None.
Proof.
  destruct h as [c s cl].
  unfold _create_db, try_finally, try_except, then_, call, run_schema, return_, raise_.
  cbn [connect_ok schema_ok close_ok].
  destruct c, s, cl; cbn; repeat split; discriminate.
Qed.

(** ** The dashboard *)

Lemma StronglySorted_app_le {A} (R : A -> A -> Prop) (l1 l2 : list A) (a b : A) :
  StronglySorted R (l1 ++ l2) -> In a l1 -> In b l2 -> R a b.
Proof.
  induction l1 as [|x l1 IH]; intros S Ia Ib; [contradiction|].
  cbn [app] in S. apply StronglySorted_inv in S as [S F].
  destruct Ia as [->|Ia]; [|now apply IH].
  rewrite Forall_forall in F. apply F. apply in_or_app. now right.
Qed.

Lemma by_count_StronglySorted (d : list (str * Z)) :
  StronglySorted (fun a b : str * Z => snd a <= snd b)
    (sorted (fun a b : str * Z => snd a <=? snd b) d).
Proof.
  apply Sorted_StronglySorted; [|apply by_count_Sorted].
  intros a b c H1 H2. lia.
Qed.

Lemma length_suffix {A} (n : nat) (l : list A) :
  (List.length (skipn (List.length l - n) l) <= n)%nat.
Proof. rewrite length_skipn. lia. Qed.

(** X27: the mapping the dashboard shows has at most ten domains, the most
    visited first; each is a domain of the totals with its total, and a
    domain that is left out has a total no greater than any that is
    shown. *)
Theorem dashboard_shows_most_visited (db : store) (top : list (str * Z)) :
  dashboard_top_10 db = Ok top ->
  Sorted (fun a b => snd b <= snd a) top
  /\ (List.length top <= 10)%nat
  /\ (forall e, In e top -> In e (visit_totals (visits_query db None)))
  /\ (forall e r, In e (visit_totals (visits_query db None)) -> ~ In e top -> In r top ->
                  snd e <= snd r).
Proof.
  unfold dashboard_top_10.
  pose proof (visits_unfold db None (Some 10) false) as U. cbv zeta in U. rewrite U. clear U.
  set (d := visit_totals (visits_query db None)).
  set (by_count := sorted (fun a b : str * Z => snd a <=? snd b) d).
  rewrite slice_from_neg by lia. change (10 =? 0) with false. cbv iota.
  change (Z.to_nat 10) with 10%nat.
  set (od := skipn (List.length by_count - 10) by_count).
  destruct (nonempty od && _); cbn [bind]; [discriminate|].
  intros E. apply Ok_inj in E. subst top.
  assert (P : Permutation od (sorted (fun a b : str * Z => snd b <=? snd a) od))
    by apply sorted_perm.
  split; [|split; [|split]].
  - apply (Sorted_impl (fun a b : str * Z => (snd b <=? snd a) = true));
      [intros a b H; now apply Z.leb_le|].
    apply sorted_Sorted. intros a b H. apply Z.leb_gt in H. apply Z.leb_le. lia.
  - rewrite length_sorted. apply length_suffix.
  - intros e I. apply (Permutation_in e (Permutation_sym P)) in I.
    apply suffix_In in I.
    apply (Permutation_in e
             (Permutation_sym (sorted_perm (fun a b : str * Z => snd a <=? snd b) d))).
    exact I.
  - intros e r Ie NI Ir.
    apply (Permutation_in r (Permutation_sym P)) in Ir.
    assert (Ne : ~ In e od) by (intros H; apply NI; now apply (Permutation_in e P)).
    apply (Permutation_in e (sorted_perm (fun a b : str * Z => snd a <=? snd b) d)) in Ie.
    fold by_count in Ie.
    rewrite <- (firstn_skipn (List.length by_count - 10) by_count) in Ie.
    apply in_app_or in Ie as [Ie|Ie]; [|contradiction].
    apply (StronglySorted_app_le (fun a b : str * Z => snd a <= snd b)
             (firstn (List.length by_count - 10) by_count) od); try assumption.
    unfold od. rewrite firstn_skipn. apply by_count_StronglySorted.
Qed.

(** ** Dates and entries *)

Lemma fold_min_le (l : list Z) : forall a x, x = a \/ In x l -> fold_left Z.min l a <= x.
Proof.
  induction l as [|y l IH]; intros a x H; cbn [fold_left].
  - destruct H as [->|[]]. lia.
  - destruct H as [->|[->|I]].
    + transitivity (Z.min a y); [apply IH; now left | lia].
    + transitivity (Z.min a x); [apply IH; now left | lia].
    + apply IH. now right.
Qed.

Lemma fold_min_In (l : list Z) : forall a, In (fold_left Z.min l a) (a :: l).
Proof.
  induction l as [|y l IH]; intros a; cbn [fold_left]; [now left|].
  destruct (IH (Z.min a y)) as [E|I]; [|right; now right].
  rewrite <- E. destruct (Z.min_spec a y) as [[_ ->]|[_ ->]]; [now left | right; now left].
Qed.

Lemma fold_max_In (l : list Z) : forall a, In (fold_left Z.max l a) (a :: l).
Proof.
  induction l as [|y l IH]; intros a; cbn [fold_left]; [now left|].
  destruct (IH (Z.max a y)) as [E|I]; [|right; now right].
  rewrite <- E. destruct (Z.max_spec a y) as [[_ ->]|[_ ->]]; [right; now left | now left].
Qed.

(** X28: the range of dates is blank, [(' ', ' ')], for a store without
    visits, and also when the earliest visit is at 0, the epoch, because
    0 counts as false; otherwise it is the text of the earliest and of
    the latest date of the visits. *)
Theorem date_range_blank (db : store) :
  (tbl_visits db = [] -> _date_range db = Ok (lit " ", lit " "))
  /\ (forall v,
         In v (tbl_visits db) -> v_visit_date v = 0 ->
         (forall v', In v' (tbl_visits db) -> 0 <= v_visit_date v') ->
         _date_range db = Ok (lit " ", lit " "))
  /\ (forall first last,
         _date_range db = Ok (first, last) ->
         (first, last) = (lit " ", lit " ")
         \/ exists v1 v2,
              In v1 (tbl_visits db) /\ In v2 (tbl_visits db)
              /\ (forall v, In v (tbl_visits db) ->
                            v_visit_date v1 <= v_visit_date v <= v_visit_date v2)
              /\ _get_date (stored_seconds (v_visit_date v1)) = Ok first
              /\ _get_date (stored_seconds (v_visit_date v2)) = Ok last).
Proof.
  unfold _date_range. split; [|split].
  - intros ->. reflexivity.
  - intros v Iv Z0 NN.
    destruct (List.map v_visit_date (tbl_visits db)) as [|x t] eqn:D.
    { apply (in_map v_visit_date) in Iv. rewrite D in Iv. contradiction. }
    cbn [sql_min sql_max].
    assert (M : fold_left Z.min t x = 0).
    { apply Z.le_antisymm.
      - rewrite <- Z0. apply fold_min_le.
        apply (in_map v_visit_date) in Iv. rewrite D in Iv.
        destruct Iv as [E|I]; [left; now symmetry | now right].
      - pose proof (fold_min_In t x) as I. rewrite <- D in I.
        apply in_map_iff in I as (v' & E & I). rewrite <- E. now apply NN. }
    unfold truthy at 1. now rewrite M.
  - intros first last.
    destruct (List.map v_visit_date (tbl_visits db)) as [|x t] eqn:D.
    { intros E. left. now apply Ok_inj in E. }
    cbn [sql_min sql_max].
    destruct (truthy _ && truthy _); [|intros E; left; now apply Ok_inj in E].
    destruct (_get_date (stored_seconds (fold_left Z.min t x))) as [a|e] eqn:A; cbn [bind];
      [|discriminate].
    destruct (_get_date (stored_seconds (fold_left Z.max t x))) as [b|e] eqn:B; cbn [bind];
      [|discriminate].
    intros E. apply Ok_inj in E. injection E as <- <-. right.
    pose proof (fold_min_In t x) as I1. rewrite <- D in I1.
    apply in_map_iff in I1 as (v1 & E1 & I1).
    pose proof (fold_max_In t x) as I2. rewrite <- D in I2.
    apply in_map_iff in I2 as (v2 & E2 & I2).
    exists v1, v2. rewrite E1, E2. repeat split; try assumption.
    + apply fold_min_le. apply (in_map v_visit_date) in H. rewrite D in H.
      destruct H as [E|I]; [left; now symmetry | now right].
    + apply fold_max_ge. apply (in_map v_visit_date) in H. rewrite D in H.
      destruct H as [E|I]; [left; now symmetry | now right].
Qed.

Lemma mapM_inv {A B} (f : A -> result B) (l : list A) :
  forall r, mapM f l = Ok r -> Forall2 (fun a b => f a = Ok b) l r.
Proof.
  induction l as [|a l IH]; intros r; cbn [mapM].
  - intros E. apply Ok_inj in E. subst r. constructor.
  - destruct (f a) as [b|e] eqn:F; cbn [bind]; [|discriminate].
    destruct (mapM f l) as [r'|e]; cbn [bind]; [|discriminate].
    intros E. apply Ok_inj in E. subst r. constructor; [exact F | now apply IH].
Qed.

Lemma entries_rows (db : store) (visits : list entry) :
  mapM (fun e : Z * Z * str * Z =>
          let '(id, visit_date, url, visit_count) := e in
          date <- _get_date (stored_seconds visit_date) ;;
          Ok (id, date, url, visit_count, visit_date))
    (entries_query db) = Ok visits ->
  List.map entry_row visits = entries_query db
  /\ Forall (fun t => _get_date (stored_seconds (entry_date t)) = Ok (entry_text t)) visits.
Proof.
  intros M. apply mapM_inv in M.
  induction M as [|[[[id vd] url] vc] t l l' H F [IH1 IH2]]; [split; constructor|].
  destruct (_get_date (stored_seconds vd)) as [s|e] eqn:G; cbn [bind] in H; [|discriminate].
  apply Ok_inj in H. subst t. split.
  - cbn [List.map]. now rewrite IH1.
  - constructor; [exact G | exact IH2].
Qed.

(** X29: [entries] returns one entry for every pair of a visit and a URL row
    that the query joins, with the text of the visit's date; by
    ['domains'] (and by [None]) the entries are in ascending order of the
    whole URL, by ['frequency'] in descending order of the visit count,
    by ['date'] in descending order of the stored date, and for any
    other key in the order of the query. *)
Theorem entries_sorted (db : store) (sort_by : entry_sort) (l : list entry) :
  entries db sort_by = Ok l ->
  Permutation (List.map entry_row l) (entries_query db)
  /\ Forall (fun t => _get_date (stored_seconds (entry_date t)) = Ok (entry_text t)) l
  /\ match sort_by with
     | sort_domains => Sorted (fun a b => str_leb (entry_url a) (entry_url b) = true) l
     | sort_frequency => Sorted (fun a b => entry_count b <= entry_count a) l
     | sort_date => Sorted (fun a b => entry_date b <= entry_date a) l
     | sort_other => List.map entry_row l = entries_query db
     end.
Proof.
  unfold entries.
  destruct (mapM _ (entries_query db)) as [visits|e] eqn:M; cbn [bind]; [|discriminate].
  apply entries_rows in M as [R F]. intros E. apply Ok_inj in E. subst l.
  assert (G : forall le, Permutation (List.map entry_row (sorted le visits)) (entries_query db)
                         /\ Forall (fun t => _get_date (stored_seconds (entry_date t))
                                             = Ok (entry_text t)) (sorted le visits)).
  { intros le. split.
    - rewrite <- R. apply Permutation_map. symmetry. apply sorted_perm.
    - eapply Permutation_Forall; [apply sorted_perm | exact F]. }
  destruct sort_by.
  - destruct (G (fun a b => str_leb (entry_url a) (entry_url b))) as [P F'].
    split; [exact P|]. split; [exact F'|].
    apply (sorted_Sorted (fun a b : entry => str_leb (entry_url a) (entry_url b))).
    intros a b. apply str_leb_total.
  - destruct (G (fun a b => entry_count b <=? entry_count a)) as [P F'].
    split; [exact P|]. split; [exact F'|].
    apply (Sorted_impl (fun a b : entry => (entry_count b <=? entry_count a) = true));
      [intros a b H; now apply Z.leb_le|].
    apply sorted_Sorted. intros a b H. apply Z.leb_gt in H. apply Z.leb_le. lia.
  - destruct (G (fun a b => entry_date b <=? entry_date a)) as [P F'].
    split; [exact P|]. split; [exact F'|].
    apply (Sorted_impl (fun a b : entry => (entry_date b <=? entry_date a) = true));
      [intros a b H; now apply Z.leb_le|].
    apply sorted_Sorted. intros a b H. apply Z.leb_gt in H. apply Z.leb_le. lia.
  - split; [now rewrite R|]. split; [exact F | exact R].
Qed.

(** ** [_build_path] *)

Lemma find_profile_isfile (fs : filesystem) (dir : str) (file_name items : list str)
    (path : str) :
  find_profile fs dir file_name items = Ok (Some path) -> isfile fs path = true.
Proof.
  induction items as [|item items IH]; cbn [find_profile]; [discriminate|].
  destruct (has_profile_name item); [|exact IH].
  destruct file_name as [|f0 fs']; [discriminate|].
  destruct (isfile fs (path_join [dir; item; f0])) eqn:F; [|exact IH].
  intros E. apply Ok_inj in E. now injection E as <-.
Qed.

Lemma find_file_isfile (fs : filesystem) (dir : str) (names : list str) (path : str) :
  find_file fs dir names = Some path -> isfile fs path = true.
Proof.
  induction names as [|f names IH]; cbn [find_file]; [discriminate|].
  destruct (isfile fs (path_join [dir; f])) eqn:F; [|exact IH].
  intros E. now injection E as <-.
Qed.

Lemma search_paths_isfile (browser_name : browser) (fs : filesystem) (user : str)
    (file_name paths : list str) (path : str) :
  search_paths browser_name fs user file_name paths = Ok (Some path) -> isfile fs path = true.
Proof.
  induction paths as [|p paths IH]; cbn [search_paths]; [discriminate|].
  destruct (isdir fs (format_user p user)).
  - destruct browser_name.
    5: { destruct (find_file fs (format_user p user) file_name) as [q|] eqn:Q; cbn [bind];
         [|exact IH]. intros E. apply Ok_inj in E. injection E as <-.
         now apply find_file_isfile in Q. }
    4: { destruct (find_profile fs (format_user p user) file_name
                     (listdir fs (format_user p user))) as [[q|]|e] eqn:Q; cbn [bind];
         [| exact IH | discriminate].
         intros E. apply Ok_inj in E. injection E as <-.
         now apply find_profile_isfile in Q. }
    all: destruct (find_file fs (format_user p user) file_name) as [q|] eqn:Q; cbn [bind];
      [|exact IH]; intros E; apply Ok_inj in E; injection E as <-;
      now apply find_file_isfile in Q.
  - cbn [bind]. exact IH.
Qed.

(** X30: a path that [_build_path] returns names a file that exists.  For
    Internet Explorer on Linux or macOS and for Safari on Linux or
    Windows it returns [False] without asking for the user or the file
    system.  And with the platform key [None], which [_handle_platform]
    gives for a Windows release without a digit, it ends with a
    [KeyError] for every browser that is looked for on Windows. *)
Theorem build_path_finds_files (browser_name : browser) (os : str)
    (path : list (str * list str)) (file_name : list str) (fs : filesystem)
    (getlogin : result str) :
  (forall _os found,
      _build_path browser_name os path file_name fs getlogin _os = Ok (Some found) ->
      isfile fs found = true)
  /\ ((browser_name = IE11 /\ in_list os [lit "Linux"; lit "Darwin"] = true)
      \/ (browser_name = Safari /\ in_list os [lit "Linux"; lit "Windows"] = true) ->
      forall _os, _build_path browser_name os path file_name fs getlogin _os = Ok None)
  /\ (forall os_release user,
         os = lit "Windows" -> browser_name <> Safari -> getlogin = Ok user ->
         Forall (fun c => is_decimal c = false) os_release ->
         _build_path browser_name os path file_name fs getlogin
           (_handle_platform os os_release) = Raise KeyError).
Proof.
  split; [|split].
  - intros _os found. unfold _build_path.
    destruct (match browser_name with
              | IE11 => in_list os [lit "Linux"; lit "Darwin"]
              | Safari => in_list os [lit "Linux"; lit "Windows"]
              | _ => false
              end); [discriminate|].
    destruct getlogin as [user|e]; cbn [bind]; [|discriminate].
    destruct _os as [key|]; cbn [bind]; [|discriminate].
    destruct (dict_get key path) as [paths|]; cbn [bind]; [|discriminate].
    apply search_paths_isfile.
  - intros [[-> G]|[-> G]] _os; unfold _build_path; now rewrite G.
  - intros os_release user -> NS -> F. unfold _build_path.
    assert (P : _handle_platform (lit "Windows") os_release = None).
    { unfold _handle_platform, os_full.
      change (in_list (lit "Windows") [lit "Linux"; lit "Darwin"]) with false.
      change (str_eqb (lit "Windows") (lit "Windows")) with true. cbv iota.
      apply no_decimal_no_windows. apply Forall_app. split; [repeat constructor|].
      apply Forall_app. split; [repeat constructor | exact F]. }
    rewrite P.
    change (in_list (lit "Windows") [lit "Linux"; lit "Darwin"]) with false.
    destruct browser_name; try reflexivity. contradiction.
Qed.

End Host.

(** * The statements on the sample data *)

(** The hash is SHA-256: the test vectors of FIPS 180-4. *)
Example sha256_abc :
  SHA256.hexdigest (lit "abc")
  = lit "ba7816bf8f01cfea414140de5dae2223b00361a396177a9cb410ff61f20015ad".
Proof. vm_compute. reflexivity. Qed.

Example sha256_empty :
  SHA256.hexdigest []
  = lit "e3b0c44298fc1c149afbf4c8996fb92427ae41e4649b934ca495991b7852b855".
Proof. vm_compute. reflexivity. Qed.

Example sha256_two_blocks :
  SHA256.hexdigest (lit "abcdbcdecdefdefgefghfghighijhijkijkljklmklmnlmnomnopnopq")
  = lit "248d6a61d20638b8e5c026930c3e6039a33ce45964ff2167f6ecedd419db06c1".
Proof. vm_compute. reflexivity. Qed.

(** ** Timestamps *)

(** In UTC the four conversions return the instant they are given. *)
Example convert_timestamp_utc :
  _convert_timestamp 0 (chrome_time sample_now) Chrome (lit "utc") = Ok sample_now
  /\ _convert_timestamp 0 (ie11_time sample_now) IE11 (lit "utc") = Ok sample_now
  /\ _convert_timestamp 0 (safari_time sample_now) Safari (lit "utc") = Ok sample_now
  /\ _convert_timestamp 0 (firefox_time sample_now) Firefox (lit "utc") = Ok sample_now.
Proof. repeat split; vm_compute; reflexivity. Qed.

(** C1: on a host whose local time is one hour east of UTC the normalizer
    returns, for the Safari, Chrome and IE11 encodings of
    2001-01-01 00:00:00 UTC (POSIX time 978307200), the POSIX time
    978303600, an hour and not a second away; the Firefox encoding comes
    back as the instant. *)
Theorem convert_timestamp_shifted_by_zone :
  _convert_timestamp 3600 0 Safari (lit "utc") = Ok 978303600000000
  /\ _convert_timestamp 3600 (chrome_time 978307200000000) Chrome (lit "utc")
     = Ok 978303600000000
  /\ _convert_timestamp 3600 (ie11_time 978307200000000) IE11 (lit "utc")
     = Ok 978303600000000
  /\ _convert_timestamp 3600 (firefox_time 978307200000000) Firefox (lit "utc")
     = Ok 978307200000000
  /\ us_per_second < 978307200000000 - 978303600000000.
Proof. repeat split; vm_compute; reflexivity. Qed.

(** ** The extractor of WebCacheV01.dat *)

Lemma webcache_access_counts_merge_witness :
  exists urls visits,
    _extract_webcachev01_dat ascii_only 0 (session IE11 direct_spec sample_cutoff None)
      sample_webcache = Ok (urls, visits)
    /\ forall u,
        match sightings ascii_only 0 (session IE11 direct_spec sample_cutoff None) u
                (history_records sample_webcache) with
        | [] => filter (fun t : ese_url_tuple => str_eqb (snd t) u) urls = []
        | first :: later =>
            exists unique_id,
              filter (fun t : ese_url_tuple => str_eqb (snd t) u) urls
              = [(r_access_count first + positive_sum later, r_redirect first, unique_id, u)]
        end.
Proof.
  apply (webcache_access_counts_merge ascii_only 0
           (session IE11 direct_spec sample_cutoff None) sample_webcache).
  intros r [<- | [<- | []]]; exists 1355526400000000; vm_compute; reflexivity.
Defined.

(** Two records for one recovered URL with the access counts 3 and 5
    leave one canonical URL, with the visit count 8. *)
Example import_webcache_sample :
  exists db,
    _import_data ascii_only 0 (session IE11 direct_spec sample_cutoff None) empty_store
      (Some {| file_name := lit "WebCacheV01.dat"; file_content := Ese sample_webcache |})
    = Ok (true, db)
    /\ List.map (fun r => (u_url r, u_visit_count r)) (tbl_urls db)
       = [(lit "http://example.com/a", 8)].
Proof. eexists. split; vm_compute; reflexivity. Qed.

(** ** Visit aggregation *)

Example visit_totals_sample :
  visit_totals ascii_only (visits_query sample_db None) = [(lit "a.com", 4); (lit "b.org", 1)]
  /\ visits ascii_only sample_db None None false = Ok [(lit "b.org", 1); (lit "a.com", 4)].
Proof. split; vm_compute; reflexivity. Qed.

Lemma visits_counts_each_url_once_witness :
  dict_get (lit "a.com") (visit_totals ascii_only (visits_query sample_db None)) =
  match visited_urls_of ascii_only (lit "a.com") sample_db None with
  | [] => None
  | here => Some (sum (List.map u_visit_count here))
  end.
Proof.
  apply (proj2 (proj2 (visits_counts_each_url_once ascii_only))).
  vm_compute. repeat constructor; simpl; intuition discriminate.
Defined.

Example select_domains_sample :
  select_domains ascii_only sample_db by_domains true = sample_domains.
Proof. vm_compute. reflexivity. Qed.

(** With every counted visit count 0, [visits] in ascending order and
    without [n] returns the empty mapping; and with the visit counts 1
    and -1 it raises the division error although a counted visit count
    is positive. *)
Lemma visits_returns_on_zero_total :
  visits_query zero_db None = [(lit "http://example.com/", 0, 1)]
  /\ visits ascii_only zero_db None None true = Ok []
  /\ List.map (row_count) (first_sightings [] (visits_query cancelling_db None)) = [1; -1]
  /\ visits ascii_only cancelling_db None None false = Raise ZeroDivisionError.
Proof. repeat split; vm_compute; reflexivity. Qed.

Lemma visits_division_by_total_witness :
  sum (List.map row_count (first_sightings [] (visits_query zero_db None))) = 0
  /\ visits ascii_only zero_db None (Some 25) false = Raise ZeroDivisionError.
Proof.
  apply (proj1 (visits_division_by_total ascii_only zero_db None (Some 25) false)).
  - vm_compute. discriminate.
  - vm_compute. repeat constructor.
  - vm_compute. discriminate.
Defined.

(** ** Domain stemming *)

(** A host part with a token inside it, and a string that ends in
    [/***/***], are stemmed further by a second stemming. *)
Lemma stem_url_not_idempotent :
  _stem_url ascii_only (lit "http://xanonymisiert-a-b.com") = lit "xanonymisiert-a-b.com"
  /\ _stem_url ascii_only (lit "xanonymisiert-a-b.com") = lit "anonymisiert-a-b"
  /\ _stem_url ascii_only (_stem_url ascii_only (lit "http://xanonymisiert-a-b.com"))
     <> _stem_url ascii_only (lit "http://xanonymisiert-a-b.com")
  /\ _stem_url ascii_only (_stem_url ascii_only (lit "a/***/***"))
     <> _stem_url ascii_only (lit "a/***/***").
Proof. repeat split; vm_compute; (reflexivity || discriminate). Qed.

Lemma stem_url_idempotent_witness :
  _stem_url ascii_only (_stem_url ascii_only (lit "https://www.example.com/path?q=1"))
  = _stem_url ascii_only (lit "https://www.example.com/path?q=1").
Proof.
  apply (stem_url_idempotent ascii_only (lit "https://www.example.com/path?q=1")).
  - intros m t _ H. vm_compute in H. discriminate.
  - intros H. vm_compute in H. discriminate.
Defined.

(** Tokens and stemmed domains with the path placeholder are stemmed
    once and for all. *)
Example stem_url_sample :
  _stem_url ascii_only (lit "anonymisiert-0a1b-2c3d-17") = lit "anonymisiert-0a1b-2c3d"
  /\ _stem_url ascii_only (lit "anonymisiert-0a1b-2c3d") = lit "anonymisiert-0a1b-2c3d"
  /\ _stem_url ascii_only (lit "example.com/***") = lit "example.com"
  /\ _stem_url ascii_only (lit "example.com") = lit "example.com".
Proof. repeat split; vm_compute; reflexivity. Qed.

(** ** Hashing and anonymising *)

(** The salt of every token has the version digit 4, so the token of
    the host [4] contains that host. *)
Lemma hash_domain_contains_domain :
  _is_url_r (lit "http://4/") = Some (lit "4")
  /\ contains (lit "4") (fst (_hash_domain zero_source 0 (lit "4"))) = true.
Proof. split; vm_compute; reflexivity. Qed.

Lemma hash_domain_salted_witness :
  fst (_hash_domain counting_source 0 (lit "example.com"))
  <> fst (_hash_domain counting_source 1 (lit "example.com")).
Proof.
  apply (proj1 (proj2 (hash_domain_salted counting_source)) 0%nat 1%nat (lit "example.com")).
  vm_compute. discriminate.
Defined.

(** The token that replaces the URL [http://a/] contains its host,
    [a]. *)
Lemma update_db_domains_keeps_short_host :
  _is_url_r (lit "http://a/") = Some (lit "a")
  /\ (let '(db, _, e) :=
        _update_db ascii_only zero_source no_sub
          (session Chrome direct_spec sample_cutoff (Some [(lit "a", ([1], 1))]))
          short_host_db 0 (PyStr (lit "a")) Kdomains in
      (List.map (fun r => contains (lit "a") (u_url r)) (tbl_urls db), e))
     = ([true], None).
Proof. split; vm_compute; reflexivity. Qed.

Lemma update_db_domains_witness :
  exists db' k',
    _update_db ascii_only zero_source no_sub
      (session Chrome direct_spec sample_cutoff (Some sample_domains))
      sample_db 0 (PyStr (lit "a.com")) Kdomains = (db', k', None)
    /\ tbl_visits db' = tbl_visits sample_db
    /\ Forall2 (domain_policy_applied zero_source 0 k' [1; 2])
         (tbl_urls sample_db) (tbl_urls db').
Proof.
  apply (update_db_domains ascii_only zero_source no_sub
           (session Chrome direct_spec sample_cutoff (Some sample_domains))
           sample_db 0 (lit "a.com") [1; 2]).
  - vm_compute. reflexivity.
  - vm_compute. repeat constructor; simpl; intuition discriminate.
  - intros i [<- | [<- | []]]; vm_compute; reflexivity.
Defined.

Lemma update_db_rejects_argument_witness :
  _update_db ascii_only zero_source no_sub
    (session Chrome direct_spec sample_cutoff (Some sample_domains))
    sample_db 0 (PyInt 7) Kdomains = (sample_db, 0%nat, Some ValueError)
  /\ _update_db_call ascii_only zero_source no_sub
       (session Chrome direct_spec sample_cutoff (Some sample_domains))
       (Ok sample_db) (PyInt 7) Kdomains (None, 0%nat)
     = (Throw ValueError, (Some sample_db, 0%nat)).
Proof.
  apply (update_db_rejects_argument ascii_only zero_source no_sub).
  - reflexivity.
  - intros s. discriminate.
  - intros l. discriminate.
Defined.

(** A session that has loaded nothing: the same call ends with the name
    error of the [finally] suite. *)
Example update_db_call_fresh_session :
  _update_db_call ascii_only zero_source no_sub
    (session Chrome direct_spec sample_cutoff (Some sample_domains))
    (Raise TypeError) (PyInt 7) Kdomains (None, 0%nat)
  = (Throw NameError, (None, 0%nat)).
Proof. reflexivity. Qed.

(** ** Imports *)

(** The visit to a local file stays in the visit stream of a relational
    source, and a file URL with a host passes the URL test of the
    property list extractor. *)
Lemma visits_keep_file_entries :
  (exists db,
      _import_data ascii_only 0
        (session Chrome direct_spec (sample_now - 60 * 86400000000) None)
        empty_store (Some chrome_local_file) = Ok (true, db)
      /\ tbl_urls db = []
      /\ List.map v_url_id (tbl_visits db) = [1])
  /\ (exists db,
         _import_data ascii_only 0 (session Safari direct_spec sample_cutoff None)
           empty_store (Some plist_local_file) = Ok (true, db)
         /\ List.map u_url (tbl_urls db) = [lit "file://localhost/Users/u/notes.html"]
         /\ List.map v_url_id (tbl_visits db) = [1]).
Proof. split; eexists; repeat split; vm_compute; reflexivity. Qed.

Lemma extractors_apply_cutoff_witness :
  exists db,
    _import_data ascii_only 0
      (session Chrome direct_spec (sample_now - 60 * us_per_day) None)
      empty_store (Some chrome_history) = Ok (true, db)
    /\ List.length (tbl_visits db) = 1%nat.
Proof.
  apply (proj2 (proj2 (proj2 (proj2
           (extractors_apply_cutoff ascii_only 0
              (session Chrome direct_spec (sample_now - 60 * us_per_day) None)))))
         chrome_history
         [sample_src_url 1 (lit "https://example.com/")]
         (chrome_visit 1 1 (sample_now - 10 * 86400000000))
         (chrome_visit 2 1 (sample_now - 90 * 86400000000))
         sample_now).
  - left. reflexivity.
  - discriminate.
  - reflexivity.
  - reflexivity.
  - reflexivity.
  - reflexivity.
Defined.

Lemma direct_spec_supplies_keys : supplies_keys direct_spec.
Proof.
  repeat split; intros; try discriminate.
  - destruct t as [[[[[a b] c] d] e] f]. discriminate.
  - destruct t as [[[a b] c] d]. discriminate.
  - destruct t as [[a b] c]. discriminate.
Qed.

Lemma direct_spec_plist_visits : plist_visits_unkeyed direct_spec.
Proof. intros [url_id visit_date]. reflexivity. Qed.

Lemma import_twice_adds_unkeyed_only_witness :
  _import_data ascii_only 0 (session IE11 direct_spec sample_cutoff None)
    (imported ascii_only 0 (session IE11 direct_spec sample_cutoff None) webcache_file)
    (Some webcache_file)
  = Ok (true, imported ascii_only 0 (session IE11 direct_spec sample_cutoff None)
                webcache_file)
  /\ exists db2 again,
       _import_data ascii_only 0 (session Safari direct_spec sample_cutoff None)
         (imported ascii_only 0 (session Safari direct_spec sample_cutoff None)
            plist_local_file)
         (Some plist_local_file) = Ok (true, db2)
       /\ tbl_urls db2
          = tbl_urls (imported ascii_only 0 (session Safari direct_spec sample_cutoff None)
                        plist_local_file)
       /\ tbl_visits db2
          = tbl_visits (imported ascii_only 0 (session Safari direct_spec sample_cutoff None)
                          plist_local_file) ++ again
       /\ List.length
            (tbl_visits (imported ascii_only 0
                           (session Safari direct_spec sample_cutoff None) plist_local_file))
          = (List.length (tbl_visits empty_store) + List.length again)%nat.
Proof.
  split.
  - apply (import_twice_adds_unkeyed_only ascii_only 0
             (session IE11 direct_spec sample_cutoff None) empty_store).
    + exact direct_spec_supplies_keys.
    + vm_compute. reflexivity.
    + reflexivity.
  - apply (import_twice_adds_unkeyed_only ascii_only 0
             (session Safari direct_spec sample_cutoff None) empty_store).
    + exact direct_spec_supplies_keys.
    + vm_compute. reflexivity.
    + reflexivity.
    + exact direct_spec_plist_visits.
Defined.

(** A second import of a property list adds its visits again: the
    visits table goes from one row to two. *)
Lemma import_twice_doubles_plist_visits :
  exists db1 db2,
    _import_data ascii_only 0 (session Safari direct_spec sample_cutoff None) empty_store
      (Some plist_local_file) = Ok (true, db1)
    /\ _import_data ascii_only 0 (session Safari direct_spec sample_cutoff None) db1
         (Some plist_local_file) = Ok (true, db2)
    /\ List.length (tbl_urls db1) = 1%nat
    /\ List.length (tbl_visits db1) = 1%nat
    /\ List.length (tbl_urls db2) = 1%nat
    /\ List.length (tbl_visits db2) = 2%nat.
Proof. do 2 eexists. repeat split; vm_compute; reflexivity. Qed.

(** ** Further statements on the sample data *)

Lemma is_url_host_part_witness :
  _is_url_r (lit "https" ++ lit "://" ++ lit "www.example.com:8080" ++ lit "/a?b")
  = Some (lit "www.example.com:8080")
  /\ _is_url (lit "https" ++ lit "://" ++ lit "www.example.com:8080" ++ lit "/a?b") = true
  /\ _stem_url ascii_only (lit "https" ++ lit "://" ++ lit "www.example.com:8080" ++ lit "/a?b")
     = if str_eqb (firstn 4 (lit "www.example.com:8080")) (lit "www.")
       then skipn 4 (lit "www.example.com:8080") else lit "www.example.com:8080".
Proof.
  apply (is_url_host_part ascii_only (lit "https") (lit "www.example.com:8080") (lit "/a?b")).
  - cbn. intuition discriminate.
  - discriminate.
  - repeat constructor.
  - reflexivity.
Defined.

Lemma update_db_stops_at_missing_row_witness :
  _update_db ascii_only zero_source no_sub (session Chrome direct_spec sample_cutoff None)
    sample_db 0 (PyList ([1] ++ 99 :: [2])) Kurls
  = (fst (fst (_update_db ascii_only zero_source no_sub
                 (session Chrome direct_spec sample_cutoff None) sample_db 0 (PyList [1]) Kurls)),
     1%nat, Some IndexError).
Proof.
  apply (update_db_stops_at_missing_row ascii_only zero_source no_sub
           (session Chrome direct_spec sample_cutoff None) sample_db).
  - vm_compute. reflexivity.
  - vm_compute. reflexivity.
Defined.

Lemma update_db_second_pass_witness :
  _update_db ascii_only zero_source no_sub
    (session Chrome direct_spec sample_cutoff (Some sample_domains))
    (fst (fst (_update_db ascii_only zero_source no_sub
                 (session Chrome direct_spec sample_cutoff (Some sample_domains))
                 sample_db 0 (PyStr (lit "a.com")) Kdomains)))
    2 (PyStr (lit "a.com")) Kdomains
  = (fst (fst (_update_db ascii_only zero_source no_sub
                 (session Chrome direct_spec sample_cutoff (Some sample_domains))
                 sample_db 0 (PyStr (lit "a.com")) Kdomains)),
     2%nat, None).
Proof.
  apply (update_db_second_pass ascii_only zero_source no_sub
           (session Chrome direct_spec sample_cutoff (Some sample_domains)) sample_db _ 0%nat).
  - left. reflexivity.
  - vm_compute. reflexivity.
Defined.

Lemma sample_db_keyed : NoDup (List.map u_id (tbl_urls sample_db)).
Proof. vm_compute. repeat constructor; simpl; intuition discriminate. Qed.

Lemma urls_policy_keeps_statistics_witness :
  exists db' k',
    _update_db ascii_only zero_source no_sub (session Chrome direct_spec sample_cutoff None)
      sample_db 0 (PyList [1; 3]) Kurls = (db', k', None)
    /\ Forall2 (urls_policy_applied ascii_only [1; 3]) (tbl_urls sample_db) (tbl_urls db')
    /\ (forall date n ascending,
           visits ascii_only db' date n ascending = visits ascii_only sample_db date n ascending)
    /\ (forall sort_by,
           select_domains ascii_only db' sort_by true
           = select_domains ascii_only sample_db sort_by true).
Proof.
  apply (urls_policy_keeps_statistics ascii_only zero_source no_sub
           (session Chrome direct_spec sample_cutoff None) sample_db 0 [1; 3]).
  - exact sample_db_keyed.
  - intros i [<- | [<- | []]]; vm_compute; reflexivity.
  - intros r host [<- | [<- | [<- | []]]] H; vm_compute in H; injection H as <-;
      vm_compute; reflexivity.
Defined.

Lemma select_then_anonymise_witness :
  exists db' k',
    _update_db ascii_only zero_source no_sub
      (session Chrome direct_spec sample_cutoff
         (Some (select_domains ascii_only sample_db by_domains true)))
      sample_db 0 (PyStr (lit "a.com")) Kdomains = (db', k', None)
    /\ Forall2 (domain_policy_applied zero_source 0 k'
                 (List.map u_id (rows_of ascii_only true (lit "a.com") sample_db)))
         (tbl_urls sample_db) (tbl_urls db')
    /\ ((exists c, In c (lit "a.com") /\ token_char c = false) ->
        forall r', In r' (tbl_urls db') -> _stem_url ascii_only (u_url r') = lit "a.com" ->
                   In r' (tbl_urls sample_db) /\ _is_url (u_url r') = false).
Proof.
  apply (select_then_anonymise ascii_only zero_source no_sub
           (session Chrome direct_spec sample_cutoff
              (Some (select_domains ascii_only sample_db by_domains true)))
           sample_db 0 by_domains (lit "a.com")).
  - reflexivity.
  - exact sample_db_keyed.
  - vm_compute. discriminate.
Defined.

Lemma visits_result_ascends_witness :
  Sorted (fun a b => snd a <= snd b) [(lit "b.org", 1); (lit "a.com", 4)]
  /\ NoDup (List.map fst [(lit "b.org", 1); (lit "a.com", 4)])
  /\ forall e, In e [(lit "b.org", 1); (lit "a.com", 4)] ->
               In e (visit_totals ascii_only (visits_query sample_db None)).
Proof.
  apply (visits_result_ascends ascii_only sample_db None (Some 25) false).
  vm_compute. reflexivity.
Defined.


(** Two domains with the same total stay in the order of their first
    visit: the domain visited first is the least visited one, the other
    the most visited one. *)
Example visits_ties_by_first_visit :
  visits_query tie_db None = [(lit "http://b.org/", 1, 2); (lit "http://a.com/", 1, 1)]
  /\ visits ascii_only tie_db None (Some 1) false = Ok [(lit "a.com", 1)]
  /\ visits ascii_only tie_db None (Some 1) true = Ok [(lit "b.org", 1)].
Proof. repeat split; vm_compute; reflexivity. Qed.

Lemma visits_lists_every_domain_witness :
  exists od,
    visits ascii_only counted_db None None false = Ok od
    /\ Permutation od (visit_totals ascii_only (visits_query counted_db None))
    /\ List.length od = List.length (visit_totals ascii_only (visits_query counted_db None)).
Proof.
  apply (visits_lists_every_domain ascii_only counted_db None).
  - vm_compute. repeat constructor; simpl; intuition discriminate.
  - intros u [<- | [<- | []]]; vm_compute; discriminate.
Defined.

Lemma plist_entries_numbered_witness :
  List.map plist_tuple_id
    [(1, 1678307200000000, None, lit "News", lit "https://www.example.com/news", 3)]
  = ids_from 1 (List.length
                  [(1, 1678307200000000, @None str, lit "News",
                    lit "https://www.example.com/news", 3)])
  /\ [(1, 1678307200000000)]
     = List.map (fun t => (plist_tuple_id t, plist_tuple_date t))
         [(1, 1678307200000000, None, lit "News", lit "https://www.example.com/news", 3)]
  /\ List.map plist_tuple_url
       [(1, 1678307200000000, None, lit "News", lit "https://www.example.com/news", 3)]
     = List.map pi_url
         (filter (plist_kept 0 (session Safari direct_spec sample_cutoff None)) sample_plist).
Proof.
  apply (plist_entries_numbered 0 (session Safari direct_spec sample_cutoff None) sample_plist).
  vm_compute. reflexivity.
Defined.



Lemma convert_timestamp_zone_free_witness :
  _convert_timestamp 3600 (firefox_time sample_now) Firefox (lit "utc") = Ok sample_now
  /\ _convert_timestamp 3600 (posix_time sample_now) OtherBrowser (lit "utc") = Ok sample_now.
Proof.
  apply (convert_timestamp_zone_free 3600 sample_now (lit "utc")).
  vm_compute. reflexivity.
Defined.

Lemma allowed_file_last_extension_witness :
  allowed_file as_is (lit "places" ++ dot :: lit "SQLite")
  = in_list (List.map ascii_lower (lit "SQLite"))
      [lit "sqlite"; lit "dat"; lit "plist"; lit "db"].
Proof.
  apply (allowed_file_last_extension as_is (lit "places") (lit "SQLite")).
  - cbn. unfold dot. intuition discriminate.
  - reflexivity.
Defined.

(** The name [History] is allowed, a name with the extension [History]
    is not. *)
Example allowed_file_history :
  allowed_file as_is (lit "History") = true
  /\ allowed_file as_is (lit "Places.History") = false
  /\ allowed_file as_is (lit "places.SQLite") = true.
Proof. repeat split; vm_compute; reflexivity. Qed.

Lemma handle_platform_windows_witness :
  _handle_platform ascii_only ascii_only (lit "Windows") (N_of_ascii "8" :: lit ".1")
  = Some (lit "Windows " ++ N_of_ascii "8"
            :: match lit ".1" with
               | d2 :: _ => if is_decimal ascii_only d2 then [d2] else []
               | [] => []
               end).
Proof.
  apply (proj1 (handle_platform_windows ascii_only ascii_only) (N_of_ascii "8") (lit ".1")).
  reflexivity.
Defined.

Lemma os_name_outside_table_witness :
  _os_name ascii_only ascii_only (lit "Darwin " ++ N_of_ascii "1" :: N_of_ascii "8" :: lit ".2.0")
  = None.
Proof.
  apply (proj1 (proj2 (os_name_outside_table ascii_only ascii_only))
           (N_of_ascii "1") (N_of_ascii "8") (lit ".2.0")).
  - reflexivity.
  - reflexivity.
  - intros [_ H]. vm_compute in H. apply H. reflexivity.
Defined.

(** On 2023-11-14, an hour east of UTC, the cutoff of 60 days lies in
    the summer time: it is an hour more than 60 days of 86400 seconds
    before now. *)
Lemma min_date_days_wall_clock_witness :
  _min_date_days 3600 central_european 1700000000 60
  = Ok (1700000000000000 - 60 * 86400000000 - 3600000000).
Proof.
  rewrite (proj1 (min_date_days_wall_clock 3600 central_european 1700000000 60
                    (datetime_ymd 1970 1 1 + 1700000000000000 + 3600000000)
                    ltac:(vm_compute; reflexivity) ltac:(vm_compute; discriminate)
                    ltac:(vm_compute; reflexivity))).
  vm_compute. reflexivity.
Defined.

(** The day the clocks go back has 90000 seconds. *)
Lemma date_conv_units_witness :
  exists a,
    strptime_clock_change (lit "2016-10-30") = Ok a
    /\ 1477778400 = mktime_timetuple central_european a
    /\ 1477868400000000
       = (1477778400 + 86400 + central_european a
          - central_european (a + 1 * us_per_day)) * 1000000
    /\ (central_european (a + 1 * us_per_day) = central_european a ->
        1477868400000000 = (1477778400 + 86400) * 1000000)
    /\ lit "on 2016-10-30" = lit "on " ++ lit "2016-10-30".
Proof.
  apply (proj1 (date_conv_units central_european strptime_clock_change)
           (lit "2016-10-30") 1477778400 1477868400000000 (lit "on 2016-10-30")).
  vm_compute. reflexivity.
Defined.

Example date_conv_clock_change :
  _date_conv central_european strptime_clock_change (DateStr (lit "2016-10-30"))
  = Ok (1477778400, (1477778400 + 90000) * 1000000, lit "on 2016-10-30").
Proof. vm_compute. reflexivity. Qed.

Lemma search_then_anonymise_witness :
  exists db' k',
    _update_db ascii_only zero_source no_sub
      (search_session ascii_only findall_sample as_is) search_db 0 (PyStr (lit "rocq")) Kkeywords
    = (db', k', None)
    /\ tbl_visits db' = tbl_visits search_db
    /\ List.map u_id (tbl_urls db') = List.map u_id (tbl_urls search_db).
Proof.
  apply (search_then_anonymise ascii_only zero_source no_sub findall_sample as_is
           (search_session ascii_only findall_sample as_is) search_db 0 by_keywords
           (lit "rocq")
           {| t_ids := [1]; t_count := 1; t_urls := [lit "a.com"]; t_match := lit "rocq" |}).
  - reflexivity.
  - vm_compute. left. reflexivity.
Defined.

Lemma dashboard_shows_most_visited_witness :
  Sorted (fun a b => snd b <= snd a) [(lit "a.com", 4); (lit "b.org", 1)]
  /\ (List.length [(lit "a.com", 4); (lit "b.org", 1)] <= 10)%nat
  /\ (forall e, In e [(lit "a.com", 4); (lit "b.org", 1)] ->
                In e (visit_totals ascii_only (visits_query sample_db None)))
  /\ (forall e r,
         In e (visit_totals ascii_only (visits_query sample_db None)) ->
         ~ In e [(lit "a.com", 4); (lit "b.org", 1)] ->
         In r [(lit "a.com", 4); (lit "b.org", 1)] -> snd e <= snd r).
Proof.
  apply (dashboard_shows_most_visited ascii_only sample_db).
  vm_compute. reflexivity.
Defined.

Lemma date_range_blank_witness :
  _date_range 0 strftime_sample empty_store = Ok (lit " ", lit " ").
Proof.
  apply (proj1 (date_range_blank 0 strftime_sample empty_store)).
  reflexivity.
Defined.

Lemma entries_sorted_witness :
  Permutation (List.map entry_row (sample_entries 0 strftime_sample)) (entries_query sample_db)
  /\ Forall (fun t => _get_date 0 strftime_sample (stored_seconds (entry_date t))
                      = Ok (entry_text t)) (sample_entries 0 strftime_sample)
  /\ Sorted (fun a b => entry_date b <= entry_date a) (sample_entries 0 strftime_sample).
Proof.
  apply (entries_sorted 0 strftime_sample sample_db sort_date (sample_entries 0 strftime_sample)).
  vm_compute. reflexivity.
Defined.

Lemma build_path_finds_files_witness :
  isfile sample_fs (lit "/home/ada/chrome/History") = true.
Proof.
  apply (proj1 (build_path_finds_files ascii_only ascii_only ascii_only format_sample
                  join_sample Chrome (lit "Linux")
                  [(lit "Linux", [lit "/home/ada/firefox"; lit "/home/ada/chrome"])]
                  [lit "History"] sample_fs (Ok (lit "ada")))
           (Some (lit "Linux")) (lit "/home/ada/chrome/History")).
  vm_compute. reflexivity.
Defined.
